(** * SFDC account matching: the fuzzy matching service and the result assembler

    A shallow embedding of [services/fuzzy_matching_service.py] (class
    [FuzzyMatchingService]) and of the row assembly of
    [ExcelService.create_matching_results_export] in
    [services/excel_service.py], together with the parts of the Python
    standard library they call ([str] methods, [urllib.parse.urlparse],
    [difflib.SequenceMatcher]); and, around them, of the account identifiers,
    their validation and the bad-domain filter of
    [services/salesforce_service.py], of the route [process_matching_batch]
    of [routes/api_routes.py], of the summary sheet and the preview of
    [ExcelService], and of [get_ai_match_assessments_batch] of
    [services/openai_service.py].  The calls to Salesforce, to the bad-domain
    service and to OpenAI are parameters.

    Conventions.
    - A Python [str] is a [string]; a character is a code point below 256
      (ASCII and Latin-1), which is closed under every operation used here.
    - A Python [float] score is the exact rational ([Q]) of the same
      arithmetic; the rounding of floats is not modelled.
    - A raised exception is the [Raise] result of the [py] monad.
    - The records are typed: a dictionary of an account is a record whose
      optional columns are missing, [None] or a string. *)

From Stdlib Require Import QArith Qminmax Lqa.
From Stdlib Require Import Ascii Sorting.Sorted Sorting.Permutation.
From Stdlib Require OrderedTypeEx DecimalString.
From stdpp Require Import base tactics option list gmap strings.

Local Open Scope nat_scope.

(** ** Python values and exceptions *)

Inductive exn := AttributeError | ValueError.

Inductive py (A : Type) : Type :=
| Ok (a : A)
| Raise (e : exn).
Arguments Ok {A} a.
Arguments Raise {A} e.

Global Instance py_ret : MRet py := fun _ a => Ok a.

Global Instance py_bind : MBind py := fun _ _ k m =>
  match m with
  | Ok a => k a
  | Raise e => Raise e
  end.

(** A dictionary value that is a string or [None]. *)
Inductive pyval :=
| PyNone
| PyStr (s : string).

(** The entry of a dictionary under one key: the key is missing, or it maps to
    [None], or to a string. *)
Inductive field :=
| Missing
| Null
| Str (s : string).

(** [d.get(key, default)] *)
Definition dict_get (f : field) (default : pyval) : pyval :=
  match f with
  | Missing => default
  | Null => PyNone
  | Str s => PyStr s
  end.

(** Truth value of a string: [bool(s)] *)
Definition str_truthy (s : string) : bool :=
  match s with
  | EmptyString => false
  | String _ _ => true
  end.

(** Truth value of a string or [None]. *)
Definition truthy (v : pyval) : bool :=
  match v with
  | PyNone => false
  | PyStr s => str_truthy s
  end.

(** ** [str] methods *)

Module PyStr.

Definition code (c : ascii) : nat := nat_of_ascii c.

Definition between (lo hi n : nat) : bool := (lo <=? n) && (n <=? hi).

(** [c.isspace()], which is also the class [\s] of [re] on [str] patterns. *)
Definition is_space (c : ascii) : bool :=
  let n := code c in
  between 9 13 n || between 28 32 n || (n =? 133) || (n =? 160).

Definition is_ascii_alpha (c : ascii) : bool :=
  let n := code c in between 65 90 n || between 97 122 n.

Definition is_ascii_digit (c : ascii) : bool := between 48 57 (code c).

(** The class [[a-zA-Z0-9]]. *)
Definition is_alnum (c : ascii) : bool := is_ascii_alpha c || is_ascii_digit c.

(** [c.lower()] for one code point below 256. *)
Definition lower_char (c : ascii) : ascii :=
  let n := code c in
  if between 65 90 n || (between 192 222 n && negb (n =? 215))
  then ascii_of_nat (n + 32)
  else c.

(** [s.lower()] *)
Fixpoint lower (s : string) : string :=
  match s with
  | EmptyString => EmptyString
  | String c r => String (lower_char c) (lower r)
  end.

(** [s[n:]] *)
Fixpoint drop (n : nat) (s : string) : string :=
  match n, s with
  | 0, _ => s
  | S _, EmptyString => EmptyString
  | S m, String _ r => drop m r
  end.

(** [s[:n]] *)
Fixpoint take (n : nat) (s : string) : string :=
  match n, s with
  | 0, _ => EmptyString
  | S _, EmptyString => EmptyString
  | S m, String c r => String c (take m r)
  end.

(** [s.startswith(p)] *)
Fixpoint startswith (s p : string) : bool :=
  match p, s with
  | EmptyString, _ => true
  | String _ _, EmptyString => false
  | String a p', String b s' => if Ascii.eqb a b then startswith s' p' else false
  end.

(** [s.endswith(p)] *)
Definition endswith (s p : string) : bool :=
  (String.length p <=? String.length s) &&
  String.eqb (drop (String.length s - String.length p) s) p.

(** [s[:-n]] for [n > 0] *)
Definition drop_last (n : nat) (s : string) : string :=
  take (String.length s - n) s.

(** [s.lstrip()] *)
Fixpoint lstrip (s : string) : string :=
  match s with
  | EmptyString => EmptyString
  | String c r => if is_space c then lstrip r else s
  end.

(** [s.rstrip()] *)
Fixpoint rstrip (s : string) : string :=
  match s with
  | EmptyString => EmptyString
  | String c r =>
      match rstrip r with
      | EmptyString => if is_space c then EmptyString else String c EmptyString
      | r' => String c r'
      end
  end.

(** [s.strip()] *)
Definition strip (s : string) : string := lstrip (rstrip s).

(** [s.split()]: the maximal runs of characters that are not whitespace.
    [cur] is the word being read, in reverse. *)
Fixpoint split_from (cur : list ascii) (s : string) : list string :=
  let flush := match cur with
               | [] => []
               | _ => [String.string_of_list_ascii (rev cur)]
               end in
  match s with
  | EmptyString => flush
  | String c r =>
      if is_space c then flush ++ split_from [] r
      else split_from (c :: cur) r
  end.

Definition split (s : string) : list string := split_from [] s.

(** [sep.join(l)] *)
Definition join (sep : string) (l : list string) : string := String.concat sep l.

(** [re.sub(r'[^a-zA-Z0-9\s]', ' ', s)] *)
Fixpoint sub_special_by_space (s : string) : string :=
  match s with
  | EmptyString => EmptyString
  | String c r =>
      String (if is_alnum c || is_space c then c else " "%char)
             (sub_special_by_space r)
  end.

(** [re.sub(r'[^a-zA-Z0-9]', '', s)] *)
Fixpoint remove_non_alnum (s : string) : string :=
  match s with
  | EmptyString => EmptyString
  | String c r =>
      if is_alnum c then String c (remove_non_alnum r) else remove_non_alnum r
  end.

(** [c in s] *)
Fixpoint contains (c : ascii) (s : string) : bool :=
  match s with
  | EmptyString => false
  | String a r => Ascii.eqb a c || contains c r
  end.

(** [s.replace(c, "")] for a one-character [c] *)
Fixpoint remove_char (c : ascii) (s : string) : string :=
  match s with
  | EmptyString => EmptyString
  | String a r => if Ascii.eqb a c then remove_char c r else String a (remove_char c r)
  end.

(** [all(p(c) for c in s)] *)
Fixpoint all_chars (p : ascii -> bool) (s : string) : bool :=
  match s with
  | EmptyString => true
  | String c r => p c && all_chars p r
  end.

(** [c.isupper()] for one code point below 256. *)
Definition is_upper (c : ascii) : bool :=
  let n := code c in
  between 65 90 n || (between 192 222 n && negb (n =? 215)).

(** [c.isalnum()] for one code point below 256: the letters and the numeric
    characters of Latin-1. *)
Definition is_alnum_char (c : ascii) : bool :=
  let n := code c in
  between 48 57 n || between 65 90 n || between 97 122 n
  || (n =? 170) || between 178 179 n || (n =? 181) || between 185 186 n
  || between 188 190 n || between 192 214 n || between 216 246 n
  || between 248 255 n.

(** [s.isalnum()]: every character is alphanumeric and there is at least
    one. *)
Definition isalnum (s : string) : bool :=
  match s with
  | EmptyString => false
  | String _ _ => all_chars is_alnum_char s
  end.

(** [s[i:j]] for [0 <= i <= j] *)
Definition slice (i j : nat) (s : string) : string := take (j - i) (drop i s).

(** [str(n)] for a natural number [n] *)
Definition of_nat (n : nat) : string :=
  DecimalString.NilEmpty.string_of_uint (Nat.to_uint n).

End PyStr.

(** ** [urllib.parse.urlparse]: the network location

    The steps of [urlsplit] that decide [netloc].  Whether a bracketed
    (IPv6 or IPvFuture) host is well formed is checked by the interpreter's
    [ipaddress] module in recent versions and not at all in older ones, so it
    is a parameter, [bracketed_netloc_ok].  The NFKC check of [_checknetloc]
    never fails on code points below 256. *)

Module UrlParse.

(** [url.lstrip(_WHATWG_C0_CONTROL_OR_SPACE)] *)
Fixpoint lstrip_c0 (url : string) : string :=
  match url with
  | EmptyString => EmptyString
  | String c r => if PyStr.code c <=? 32 then lstrip_c0 r else url
  end.

(** Removal of the bytes of [_UNSAFE_URL_BYTES_TO_REMOVE]: tab, CR and LF. *)
Definition remove_unsafe (url : string) : string :=
  PyStr.remove_char "010"%char (PyStr.remove_char "013"%char (PyStr.remove_char "009"%char url)).

(** [url.find(c)] *)
Fixpoint find (c : ascii) (url : string) : option nat :=
  match url with
  | EmptyString => None
  | String a r => if Ascii.eqb a c then Some 0 else S <$> find c r
  end.

(** Membership in [scheme_chars]. *)
Definition is_scheme_char (c : ascii) : bool :=
  PyStr.is_alnum c || PyStr.contains c "+-.".

(** The URL after its scheme, when it has one. *)
Definition strip_scheme (url : string) : string :=
  match find ":"%char url, url with
  | Some (S i), String c _ =>
      if PyStr.is_ascii_alpha c && PyStr.all_chars is_scheme_char (PyStr.take (S i) url)
      then PyStr.drop (S (S i)) url
      else url
  | _, _ => url
  end.

(** [_splitnetloc(url, 2)[0]]: what follows [//] up to the first of [/?#]. *)
Fixpoint until_delim (url : string) : string :=
  match url with
  | EmptyString => EmptyString
  | String c r => if PyStr.contains c "/?#" then EmptyString else String c (until_delim r)
  end.

Section Netloc.
Variable bracketed_netloc_ok : string -> bool.

(** [urlparse(url).netloc], or the [ValueError] that [urlparse] raises. *)
Definition netloc (url : string) : py string :=
  let url := strip_scheme (remove_unsafe (lstrip_c0 url)) in
  if PyStr.startswith url "//" then
    let n := until_delim (PyStr.drop 2 url) in
    let has_open := PyStr.contains "["%char n in
    let has_close := PyStr.contains "]"%char n in
    if xorb has_open has_close then Raise ValueError
    else if has_open && has_close && negb (bracketed_netloc_ok n) then Raise ValueError
    else Ok n
  else Ok "".

End Netloc.
End UrlParse.

(** ** [difflib.SequenceMatcher(None, a, b).ratio()]

    The matcher is built with [isjunk = None] and the default
    [autojunk = True]: no element is junk (the two junk-extension loops of
    [find_longest_match] never run), and when [b] has 200 elements or more
    the elements that make up more than 1% of it are "popular" and are
    removed from the index [b2j]. *)

Module Difflib.
Section SequenceMatcher.
Context {A : Type} `{EqDecision A}.
Variables a b : list A.

(** The positions of [x] in [l], numbered from [j], in increasing order:
    the list that [__chain_b] builds under the key [x]. *)
Fixpoint indices_from (x : A) (j : nat) (l : list A) : list nat :=
  match l with
  | [] => []
  | y :: l' =>
      if decide (y = x) then j :: indices_from x (S j) l'
      else indices_from x (S j) l'
  end.

Definition popular (x : A) : bool :=
  let n := length b in
  (200 <=? n) && (n / 100 + 1 <? length (indices_from x 0 b)).

(** [b2j.get(x, [])] *)
Definition b2j_get (x : A) : list nat :=
  if popular x then [] else indices_from x 0 b.

(** [j2len.get(j-1, 0)]; for [j = 0] the key is [-1], which is never set. *)
Definition j2len_prev (j2len : gmap nat nat) (j : nat) : nat :=
  match j with
  | 0 => 0
  | S j' => default 0 (j2len !! j')
  end.

(** The inner loop of [find_longest_match], over the positions [js] of
    [a[i]] in [b]; [continue] below [blo], [break] from [bhi] on.  The new
    block starts at [i-k+1], written [S i - k] on natural numbers ([k] is at
    most [i+1]). *)
Fixpoint scan_row (i blo bhi : nat) (j2len : gmap nat nat) (js : list nat)
    (best : nat * nat * nat) (newj2len : gmap nat nat)
    : (nat * nat * nat) * gmap nat nat :=
  match js with
  | [] => (best, newj2len)
  | j :: js' =>
      if j <? blo then scan_row i blo bhi j2len js' best newj2len
      else if bhi <=? j then (best, newj2len)
      else
        let k := j2len_prev j2len j + 1 in
        let best' := if best.2 <? k then (S i - k, S j - k, k) else best in
        scan_row i blo bhi j2len js' best' (<[j := k]> newj2len)
  end.

(** The outer loop, [for i in range(alo, ahi)]. *)
Fixpoint scan_rows (rows : list nat) (blo bhi : nat)
    (best : nat * nat * nat) (j2len : gmap nat nat) : nat * nat * nat :=
  match rows with
  | [] => best
  | i :: rows' =>
      let js := match a !! i with Some x => b2j_get x | None => [] end in
      let '(best', newj2len) := scan_row i blo bhi j2len js best ∅ in
      scan_rows rows' blo bhi best' newj2len
  end.

(** [a[i] == b[j]] *)
Definition same_at (i j : nat) : bool :=
  match a !! i, b !! j with
  | Some x, Some y => bool_decide (x = y)
  | _, _ => false
  end.

(** The first extension loop: grow the block to the left. *)
Fixpoint extend_back (alo blo besti bestj bestsize : nat) {struct besti}
    : nat * nat * nat :=
  match besti, bestj with
  | S i', S j' =>
      if (alo <? besti) && (blo <? bestj) && same_at i' j'
      then extend_back alo blo i' j' (S bestsize)
      else (besti, bestj, bestsize)
  | _, _ => (besti, bestj, bestsize)
  end.

(** The second extension loop: grow the block to the right.  It runs at most
    [ahi - (besti + bestsize)] times, the value given to [fuel]. *)
Fixpoint extend_forward (fuel ahi bhi besti bestj bestsize : nat) : nat :=
  match fuel with
  | 0 => bestsize
  | S fuel' =>
      if (besti + bestsize <? ahi) && (bestj + bestsize <? bhi)
         && same_at (besti + bestsize) (bestj + bestsize)
      then extend_forward fuel' ahi bhi besti bestj (S bestsize)
      else bestsize
  end.

Definition find_longest_match (alo ahi blo bhi : nat) : nat * nat * nat :=
  let '(besti, bestj, bestsize) :=
    scan_rows (seq alo (ahi - alo)) blo bhi (alo, blo, 0) ∅ in
  let '(besti, bestj, bestsize) := extend_back alo blo besti bestj bestsize in
  (besti, bestj,
   extend_forward (ahi - (besti + bestsize)) ahi bhi besti bestj bestsize).

(** The work loop of [get_matching_blocks].  The head of [queue] is the entry
    that [queue.pop()] takes.  [None] when [fuel] steps do not empty the
    queue. *)
Fixpoint blocks_loop (fuel : nat) (queue : list (nat * nat * nat * nat))
    (matching_blocks : list (nat * nat * nat)) : option (list (nat * nat * nat)) :=
  match queue with
  | [] => Some matching_blocks
  | (alo, ahi, blo, bhi) :: queue' =>
      match fuel with
      | 0 => None
      | S fuel' =>
          let '(i, j, k) := find_longest_match alo ahi blo bhi in
          if k =? 0 then blocks_loop fuel' queue' matching_blocks
          else
            let q1 := if (alo <? i) && (blo <? j)
                      then (alo, i, blo, j) :: queue' else queue' in
            let q2 := if (i + k <? ahi) && (j + k <? bhi)
                      then (i + k, ahi, j + k, bhi) :: q1 else q1 in
            blocks_loop fuel' q2 (matching_blocks ++ [(i, j, k)])
      end
  end.

(** The blocks found, in the order found.  [get_matching_blocks] then sorts
    them and merges adjacent ones, which leaves the sum of the sizes, all that
    [ratio] reads, unchanged.  [2 * length a + 1] steps always empty the queue
    (lemma [blocks_loop_terminates]). *)
Definition matching_blocks : list (nat * nat * nat) :=
  default [] (blocks_loop (2 * length a + 1) [(0, length a, 0, length b)] []).

(** [sum(triple[-1] for triple in self.get_matching_blocks())] *)
Definition matches : nat := foldr (fun x acc => x.2 + acc) 0 matching_blocks.

(** [_calculate_ratio(matches, len(a) + len(b))] *)
Definition ratio : Q :=
  let len := length a + length b in
  if len =? 0 then 1%Q
  else (Z.of_nat (2 * matches) # Pos.of_nat len)%Q.

End SequenceMatcher.
End Difflib.

(** ** Account records

    The records are the dictionaries that the Salesforce query returns: every
    selected column is a key, and a blank column is [None].  [Id] and [Name]
    are the two columns of an account that are never blank; they are
    strings. *)

Module Customer.
Record t := {
  Id : string;
  Name : string;
  Website : field;
  BillingCity : field;
  BillingState : field;
  BillingCountry : field;
  BillingPostalCode : field
}.
End Customer.

Module Shell.
Record t := {
  Id : string;
  ZI_Id__c : field;
  ZI_Company_Name__c : field;
  ZI_Website__c : field;
  ZI_Company_City__c : field;
  ZI_Company_State__c : field;
  ZI_Company_Country__c : field;
  ZI_Company_Postal_Code__c : field
}.
End Shell.

(** An explanation string.  The two f-strings that print a score with
    [{score:.1f}] are kept as their parts. *)
Inductive explanation :=
| Text (s : string)
| Comparing (what : string) (customer_side shell_side : string) (score : Q).

(** A stable sort, as [list.sort] is: [x] goes before the first element that
    it must precede, so elements that compare equal keep their order. *)
Fixpoint insert_sorted {A} (before : A -> A -> bool) (x : A) (l : list A) : list A :=
  match l with
  | [] => [x]
  | y :: l' => if before x y then x :: y :: l' else y :: insert_sorted before x l'
  end.

Definition stable_sort {A} (before : A -> A -> bool) (l : list A) : list A :=
  foldr (insert_sorted before) [] l.

(** [a <= b] on scores *)
Definition Qleb (x y : Q) : bool := Qle_bool x y.

(** The results of scoring, ranking and matching. *)

Module Scores.
Record t := {
  website_match : Q;
  name_match : Q;
  address_consistency : Q;
  overall_score : Q;
  explanations : explanation * explanation * string
}.
End Scores.

Module Ranked.
Record t := {
  shell_account : Shell.t;
  scores : Scores.t;
  rank_score : Q
}.
End Ranked.

Module BestMatch.
Record t := {
  shell_id : string;
  shell_account : Shell.t;
  confidence_score : Q;
  website_match : Q;
  name_match : Q;
  address_consistency : Q;
  explanations : explanation * explanation * string
}.
End BestMatch.

(** The three messages of [find_best_shell_match]; the last one prints the
    confidence. *)
Inductive message :=
| No_shell_accounts_provided
| No_viable_shell_candidates_found
| Found_best_match (confidence : Q).

Record match_result := {
  success : bool;
  result_message : message;
  best_match : option BestMatch.t;
  candidate_count : option nat;
  total_shells : option nat
}.

(** ** [FuzzyMatchingService] *)

Section FuzzyMatchingService.
Variable bracketed_netloc_ok : string -> bool.

Definition domain_prefixes : list string :=
  ["www."; "app."; "portal."; "my."; "secure."; "admin."].

Definition domain_suffixes : list string :=
  [".com"; ".org"; ".net"; ".edu"; ".gov"; ".co"; ".io"; ".ai"].

(** [for prefix in ...: if domain.startswith(prefix): domain = domain[len(prefix):]; break] *)
Fixpoint strip_first_prefix (prefixes : list string) (domain : string) : string :=
  match prefixes with
  | [] => domain
  | prefix :: rest =>
      if PyStr.startswith domain prefix
      then PyStr.drop (String.length prefix) domain
      else strip_first_prefix rest domain
  end.

(** [for p in ...: if s.endswith(p): s = s[:-len(p)]; break] *)
Fixpoint strip_first_suffix (suffixes : list string) (s : string) : string :=
  match suffixes with
  | [] => s
  | suffix :: rest =>
      if PyStr.endswith s suffix
      then PyStr.drop_last (String.length suffix) s
      else strip_first_suffix rest s
  end.

(** "Add protocol if missing" *)
Definition add_protocol (url : string) : string :=
  if PyStr.startswith url "http://" || PyStr.startswith url "https://"
  then url else "https://" +:+ url.

(** The result is [None] for Python's [None]. *)
Definition extract_domain_from_url (url : pyval) : option string :=
  match url with
  | PyNone => None
  | PyStr url =>
      if negb (str_truthy url) then None
      else
        match UrlParse.netloc bracketed_netloc_ok (add_protocol url) with
        | Ok parsed_netloc =>
            Some (strip_first_prefix domain_prefixes (PyStr.lower parsed_netloc))
        | Raise _ => None
        end
  end.

Definition extract_company_name_from_domain (domain : string) : option string :=
  if negb (str_truthy domain) then None
  else
    let domain := strip_first_suffix domain_suffixes domain in
    let domain := PyStr.remove_non_alnum domain in
    if str_truthy domain then Some (PyStr.lower domain) else None.

Definition business_suffixes : list string :=
  ["inc"; "incorporated"; "corp"; "corporation"; "ltd"; "limited";
   "llc"; "llp"; "company"; "co"; "group"; "holdings"; "enterprises"].

Definition patterns (suffix : string) : list string :=
  [" " +:+ suffix; "." +:+ suffix; "," +:+ suffix; "-" +:+ suffix].

(** The loop over [business_suffixes]: for each suffix in turn, the first
    pattern that ends the string is cut off. *)
Definition strip_business_suffixes (normalized : string) : string :=
  foldl (fun n suffix => strip_first_suffix (patterns suffix) n)
        normalized business_suffixes.

Definition normalize_company_name (name : string) : string :=
  if negb (str_truthy name) then ""
  else
    let normalized := PyStr.lower name in
    let normalized := strip_business_suffixes normalized in
    let normalized := PyStr.sub_special_by_space normalized in
    PyStr.join " " (PyStr.split normalized).

Definition compute_fuzzy_similarity (str1 str2 : string) : Q :=
  if negb (str_truthy str1) || negb (str_truthy str2) then 0%Q
  else
    let norm1 := normalize_company_name str1 in
    let norm2 := normalize_company_name str2 in
    if negb (str_truthy norm1) || negb (str_truthy norm2) then 0%Q
    else Difflib.ratio (String.list_ascii_of_string norm1)
                       (String.list_ascii_of_string norm2).

(** [x] when [x] is a non-empty string, for the tests [if not x]. *)
Definition nonempty (x : option string) : option string :=
  match x with
  | Some s => if str_truthy s then Some s else None
  | None => None
  end.

(** [f"{v}"] *)
Definition str_of (v : pyval) : string :=
  match v with
  | PyStr s => s
  | PyNone => "None"
  end.

Definition compute_website_match (customer_website shell_zi_website : pyval)
    : Q * explanation :=
  if negb (truthy customer_website) then (0%Q, Text "No customer website provided")
  else if negb (truthy shell_zi_website) then (0%Q, Text "No shell ZI website provided")
  else
    let customer_domain := extract_domain_from_url customer_website in
    let shell_domain := extract_domain_from_url shell_zi_website in
    match nonempty customer_domain, nonempty shell_domain with
    | None, _ =>
        (0%Q, Text ("Could not extract valid domain from customer website: "
                  +:+ str_of customer_website))
    | Some _, None =>
        (0%Q, Text ("Could not extract valid domain from shell ZI website: "
                  +:+ str_of shell_zi_website))
    | Some customer_domain, Some shell_domain =>
        let customer_domain_company := extract_company_name_from_domain customer_domain in
        let shell_domain_company := extract_company_name_from_domain shell_domain in
        match nonempty customer_domain_company, nonempty shell_domain_company with
        | None, _ =>
            (0%Q, Text ("Could not extract company name from customer domain: "
                      +:+ customer_domain))
        | Some _, None =>
            (0%Q, Text ("Could not extract company name from shell domain: "
                      +:+ shell_domain))
        | Some customer_domain_company, Some shell_domain_company =>
            let similarity :=
              compute_fuzzy_similarity customer_domain_company shell_domain_company in
            let score := (similarity * 100)%Q in
            (score, Comparing "domain" customer_domain shell_domain score)
        end
    end.

Definition compute_name_match (customer_name shell_zi_name : pyval) : Q * explanation :=
  match customer_name, shell_zi_name with
  | PyStr customer_name, PyStr shell_zi_name =>
      if negb (str_truthy customer_name) then (0%Q, Text "No customer name provided")
      else if negb (str_truthy shell_zi_name)
      then (0%Q, Text "No shell ZI company name provided")
      else
        let similarity := compute_fuzzy_similarity customer_name shell_zi_name in
        let score := (similarity * 100)%Q in
        let customer_normalized := normalize_company_name customer_name in
        let shell_normalized := normalize_company_name shell_zi_name in
        (score, Comparing "name" customer_normalized shell_normalized score)
  | PyNone, _ => (0%Q, Text "No customer name provided")
  | PyStr customer_name, PyNone =>
      if negb (str_truthy customer_name) then (0%Q, Text "No customer name provided")
      else (0%Q, Text "No shell ZI company name provided")
  end.

(** [d.get(key, '').strip().lower()]; [None] has no [strip]. *)
Definition strip_lower (f : field) : py string :=
  match dict_get f (PyStr "") with
  | PyNone => Raise AttributeError
  | PyStr s => Ok (PyStr.lower (PyStr.strip s))
  end.

(** The running [score], [matches] and [mismatches]. *)
Definition tally : Type := Q * list string * list string.

(** The block repeated for country, state and city: points and a match when
    both values are non-empty and equal, a mismatch when both are non-empty
    and differ. *)
Definition compare_field (label : string) (points : Q)
    (customer_value shell_value : string) (t : tally) : tally :=
  let '(score, matches, mismatches) := t in
  if str_truthy customer_value && str_truthy shell_value then
    if String.eqb customer_value shell_value
    then ((score + points)%Q, matches ++ [label +:+ ": " +:+ customer_value], mismatches)
    else (score, matches,
          mismatches ++ [label +:+ ": " +:+ customer_value +:+ " ≠ " +:+ shell_value])
  else t.

(** The block for the postal code.  Its [else] is the [else] of the outer
    [if]: the mismatch is recorded when one of the two values is empty, and
    not when both are non-empty and differ. *)
Definition compare_postal (customer_postal shell_postal : string) (t : tally) : tally :=
  let '(score, matches, mismatches) := t in
  if str_truthy customer_postal && str_truthy shell_postal then
    if String.eqb customer_postal shell_postal
    then ((score + 10)%Q, matches ++ ["Postal: " +:+ customer_postal], mismatches)
    else t
  else (score, matches,
        mismatches ++ ["Postal: " +:+ customer_postal +:+ " ≠ " +:+ shell_postal]).

(** The score with the lists [matches] and [mismatches] at the end of
    [compute_address_consistency_score].  The records always have an [Id],
    so the guard [if not customer_data or not shell_data] never fires. *)
Definition address_tally (customer_data : Customer.t) (shell_data : Shell.t) : py tally :=
  let t : tally := (0%Q, [], []) in
  customer_country ← strip_lower (Customer.BillingCountry customer_data);
  shell_country ← strip_lower (Shell.ZI_Company_Country__c shell_data);
  let t := compare_field "Country" 30%Q customer_country shell_country t in
  customer_state ← strip_lower (Customer.BillingState customer_data);
  shell_state ← strip_lower (Shell.ZI_Company_State__c shell_data);
  let t := compare_field "State" 30%Q customer_state shell_state t in
  customer_city ← strip_lower (Customer.BillingCity customer_data);
  shell_city ← strip_lower (Shell.ZI_Company_City__c shell_data);
  let t := compare_field "City" 30%Q customer_city shell_city t in
  customer_postal ← strip_lower (Customer.BillingPostalCode customer_data);
  shell_postal ← strip_lower (Shell.ZI_Company_Postal_Code__c shell_data);
  mret (compare_postal customer_postal shell_postal t).

(** [truthy and f"{label}: {', '.join(items)}"] as a list of zero or one part *)
Definition explanation_part (label : string) (items : list string) : list string :=
  match items with
  | [] => []
  | _ => [label +:+ ": " +:+ PyStr.join ", " items]
  end.

Definition compute_address_consistency_score
    (customer_data : Customer.t) (shell_data : Shell.t) : py (Q * string) :=
  '(score, matches, mismatches) ← address_tally customer_data shell_data;
  let explanation_parts :=
    explanation_part "Matches" matches ++ explanation_part "Mismatches" mismatches in
  let explanation :=
    match explanation_parts with
    | [] => "No address data to compare"
    | _ => PyStr.join "; " explanation_parts
    end in
  mret (score, explanation).

(** *** The candidate index *)

(** A dictionary from keys to lists of shells, in insertion order. *)
Definition buckets : Type := list (string * list Shell.t).

(** [d.get(key)] *)
Fixpoint bucket_get (key : string) (d : buckets) : option (list Shell.t) :=
  match d with
  | [] => None
  | (k, l) :: d' => if String.eqb k key then Some l else bucket_get key d'
  end.

(** [if key not in d: d[key] = []] then [d[key].append(shell)] *)
Fixpoint bucket_append (key : string) (shell : Shell.t) (d : buckets) : buckets :=
  match d with
  | [] => [(key, [shell])]
  | (k, l) :: d' =>
      if String.eqb k key then (k, l ++ [shell]) :: d'
      else (k, l) :: bucket_append key shell d'
  end.

Record hash_buckets := {
  website_buckets : buckets;
  name_buckets : buckets
}.

(** The three nested tests that [create_hash_buckets] and
    [fast_filter_candidates] both make on a website: the website, its domain
    and the company name of the domain are all non-empty.  The result is the
    company name, the key of a website bucket. *)
Definition domain_company_of (website : pyval) : option string :=
  if truthy website then
    match nonempty (extract_domain_from_url website) with
    | Some domain => nonempty (extract_company_name_from_domain domain)
    | None => None
    end
  else None.

(** The body of the loop of [create_hash_buckets] for one shell. *)
Definition add_shell (hb : hash_buckets) (shell : Shell.t) : hash_buckets :=
  let zi_website := dict_get (Shell.ZI_Website__c shell) (PyStr "") in
  let website_buckets' :=
    match domain_company_of zi_website with
    | Some domain_company => bucket_append domain_company shell (website_buckets hb)
    | None => website_buckets hb
    end in
  let zi_name := dict_get (Shell.ZI_Company_Name__c shell) (PyStr "") in
  let name_buckets' :=
    match zi_name with
    | PyStr zi_name =>
        let normalized_name := normalize_company_name zi_name in
        if str_truthy zi_name && str_truthy normalized_name then
          foldl (fun nb token =>
                   if 2 <? String.length token then bucket_append token shell nb
                   else nb)
                (name_buckets hb) (PyStr.split normalized_name)
        else name_buckets hb
    | PyNone => name_buckets hb
    end in
  {| website_buckets := website_buckets'; name_buckets := name_buckets' |}.

Definition create_hash_buckets (shell_accounts : list Shell.t) : hash_buckets :=
  foldl add_shell {| website_buckets := []; name_buckets := [] |} shell_accounts.

(** [for shell in bucket: candidates.add(shell['Id'])] *)
Definition add_ids (bucket : list Shell.t) (candidates : gset string) : gset string :=
  foldl (fun c shell => {[Shell.Id shell]} ∪ c) candidates bucket.

(** The last loop of [fast_filter_candidates]: the shells of [all_shells]
    whose identifier is a candidate, the first one for each identifier. *)
Fixpoint collect_candidates (candidates seen_ids : gset string)
    (all_shells : list Shell.t) : list Shell.t :=
  match all_shells with
  | [] => []
  | shell :: rest =>
      if bool_decide (Shell.Id shell ∈ candidates)
         && negb (bool_decide (Shell.Id shell ∈ seen_ids))
      then shell :: collect_candidates candidates ({[Shell.Id shell]} ∪ seen_ids) rest
      else collect_candidates candidates seen_ids rest
  end.

(** STEP 1 of [fast_filter_candidates]: the identifiers in the bucket of the
    customer's website. *)
Definition website_candidates (customer : Customer.t) (hb : hash_buckets) : gset string :=
  let customer_website := dict_get (Customer.Website customer) (PyStr "") in
  match domain_company_of customer_website with
  | Some domain_company =>
      match bucket_get domain_company (website_buckets hb) with
      | Some bucket => add_ids bucket ∅
      | None => ∅
      end
  | None => ∅
  end.

(** STEP 2: the identifiers added from the name buckets. *)
Definition name_candidates (customer : Customer.t) (hb : hash_buckets)
    (candidates : gset string) : gset string :=
  let customer_name := Customer.Name customer in
  if str_truthy customer_name && (size candidates <? 10) then
    let normalized_name := normalize_company_name customer_name in
    if str_truthy normalized_name then
      foldl (fun c token =>
               if 2 <? String.length token then
                 match bucket_get token (name_buckets hb) with
                 | Some bucket => add_ids bucket c
                 | None => c
                 end
               else c)
            candidates (PyStr.split normalized_name)
    else candidates
  else candidates.

(** [candidate_id_set] of the source is computed and never read. *)
Definition fast_filter_candidates (customer : Customer.t) (hb : hash_buckets)
    : list Shell.t :=
  let candidates := website_candidates customer hb in
  let candidates := name_candidates customer hb candidates in
  let all_shells :=
    concat (map snd (website_buckets hb)) ++ concat (map snd (name_buckets hb)) in
  collect_candidates candidates ∅ all_shells.

(** *** Scoring and ranking *)

Definition compute_overall_similarity (customer : Customer.t) (shell : Shell.t)
    : py Scores.t :=
  let '(website_score, website_explanation) :=
    compute_website_match (dict_get (Customer.Website customer) (PyStr ""))
                          (dict_get (Shell.ZI_Website__c shell) (PyStr "")) in
  let '(name_score, name_explanation) :=
    compute_name_match (PyStr (Customer.Name customer))
                       (dict_get (Shell.ZI_Company_Name__c shell) (PyStr "")) in
  '(address_score, address_explanation) ←
    compute_address_consistency_score customer shell;
  let '(primary_score, secondary_score) :=
    if truthy (dict_get (Customer.Website customer) PyNone)
       && truthy (dict_get (Shell.ZI_Website__c shell) PyNone)
    then ((website_score * (6 # 10))%Q, (name_score * (3 # 10))%Q)
    else if str_truthy (Customer.Name customer)
            && truthy (dict_get (Shell.ZI_Company_Name__c shell) PyNone)
    then ((name_score * (6 # 10))%Q, 0%Q)
    else ((address_score * (6 # 10) / 100)%Q, 0%Q) in
  let geo_score := (address_score * (1 # 10) / 100)%Q in
  let overall_score := (primary_score + secondary_score + geo_score)%Q in
  mret {| Scores.website_match := website_score;
          Scores.name_match := name_score;
          Scores.address_consistency := address_score;
          Scores.overall_score := Qmin overall_score 100;
          Scores.explanations :=
            (website_explanation, name_explanation, address_explanation) |}.

(** The loop of [rank_shell_candidates] that scores every candidate. *)
Fixpoint score_candidates (customer : Customer.t) (candidates : list Shell.t)
    : py (list Ranked.t) :=
  match candidates with
  | [] => mret []
  | shell :: rest =>
      similarity_data ← compute_overall_similarity customer shell;
      scored ← score_candidates customer rest;
      mret ({| Ranked.shell_account := shell;
               Ranked.scores := similarity_data;
               Ranked.rank_score := Scores.overall_score similarity_data |} :: scored)
  end.

(** [sort(key=rank_score, reverse=True)]: descending and stable. *)
Definition rank_shell_candidates (customer : Customer.t) (candidates : list Shell.t)
    : py (list Ranked.t) :=
  scored_candidates ← score_candidates customer candidates;
  mret (stable_sort (fun x y => Qleb (Ranked.rank_score y) (Ranked.rank_score x))
                    scored_candidates).

Definition find_best_shell_match (customer : Customer.t) (shell_accounts : list Shell.t)
    : py match_result :=
  match shell_accounts with
  | [] =>
      mret {| success := false;
              result_message := No_shell_accounts_provided;
              best_match := None;
              candidate_count := None;
              total_shells := None |}
  | _ :: _ =>
      let hash_buckets := create_hash_buckets shell_accounts in
      let candidates := fast_filter_candidates customer hash_buckets in
      let candidates :=
        match candidates with
        | [] => shell_accounts
        | _ :: _ => candidates
        end in
      ranked_candidates ← rank_shell_candidates customer candidates;
      match ranked_candidates with
      | [] =>
          mret {| success := false;
                  result_message := No_viable_shell_candidates_found;
                  best_match := None;
                  candidate_count := None;
                  total_shells := None |}
      | best_candidate :: _ =>
          let scores := Ranked.scores best_candidate in
          mret {| success := true;
                  result_message := Found_best_match (Ranked.rank_score best_candidate);
                  best_match := Some
                    {| BestMatch.shell_id := Shell.Id (Ranked.shell_account best_candidate);
                       BestMatch.shell_account := Ranked.shell_account best_candidate;
                       BestMatch.confidence_score := Ranked.rank_score best_candidate;
                       BestMatch.website_match := Scores.website_match scores;
                       BestMatch.name_match := Scores.name_match scores;
                       BestMatch.address_consistency := Scores.address_consistency scores;
                       BestMatch.explanations := Scores.explanations scores |};
                  candidate_count := Some (length candidates);
                  total_shells := Some (length shell_accounts) |}
      end
  end.

End FuzzyMatchingService.

(** The bracketed hosts of an interpreter that does not check them (before
    Python 3.11.4); used to run the service on concrete inputs. *)
Definition any_bracketed_host : string -> bool := fun _ => true.

(** ** [ExcelService.create_matching_results_export]: the result rows

    The list [all_customer_results] after its sort; the function then writes
    one worksheet row for each entry, in this order.  The AI assessment that a
    matched pair carries is copied unchanged and is left out. *)

Inductive status := MATCHED | UNMATCHED | FLAGGED | INVALID.

(** The reason of a row; the reason of a matched row prints the confidence. *)
Inductive reason :=
| Matched_with_confidence (confidence : Q)
| Reason (text : string).

Module MatchedPair.
Record t := {
  customer_account : Customer.t;
  recommended_shell : Shell.t;
  match_confidence : Q;
  website_match : Q;
  name_match : Q;
  address_consistency : Q;
  candidate_count : nat;
  total_shells : nat
}.
End MatchedPair.

Module Unmatched.
Record t := {
  customer_account : Customer.t;
  reason : string
}.
End Unmatched.

(** A flagged customer: the account with the explanation of its
    [Bad_Domain] entry. *)
Module Flagged.
Record t := {
  account : Customer.t;
  explanation : string
}.
End Flagged.

Module ResultRow.
Record t := {
  customer : Customer.t;
  status : status;
  reason : reason;
  shell : option Shell.t;
  match_confidence : Q;
  website_match : Q;
  name_match : Q;
  address_consistency : Q;
  candidate_count : nat;
  total_shells : nat
}.
End ResultRow.

Definition matched_row (pair : MatchedPair.t) : ResultRow.t :=
  {| ResultRow.customer := MatchedPair.customer_account pair;
     ResultRow.status := MATCHED;
     ResultRow.reason := Matched_with_confidence (MatchedPair.match_confidence pair);
     ResultRow.shell := Some (MatchedPair.recommended_shell pair);
     ResultRow.match_confidence := MatchedPair.match_confidence pair;
     ResultRow.website_match := MatchedPair.website_match pair;
     ResultRow.name_match := MatchedPair.name_match pair;
     ResultRow.address_consistency := MatchedPair.address_consistency pair;
     ResultRow.candidate_count := MatchedPair.candidate_count pair;
     ResultRow.total_shells := MatchedPair.total_shells pair |}.

(** A row without a shell: all scores and counts are 0. *)
Definition unscored_row (customer : Customer.t) (st : status) (r : reason) : ResultRow.t :=
  {| ResultRow.customer := customer;
     ResultRow.status := st;
     ResultRow.reason := r;
     ResultRow.shell := None;
     ResultRow.match_confidence := 0;
     ResultRow.website_match := 0;
     ResultRow.name_match := 0;
     ResultRow.address_consistency := 0;
     ResultRow.candidate_count := 0;
     ResultRow.total_shells := 0 |}.

Definition unmatched_row (unmatched : Unmatched.t) : ResultRow.t :=
  unscored_row (Unmatched.customer_account unmatched) UNMATCHED
               (Reason (Unmatched.reason unmatched)).

Definition flagged_row (flagged : Flagged.t) : ResultRow.t :=
  unscored_row (Flagged.account flagged) FLAGGED
               (Reason ("Excluded from matching: " +:+ Flagged.explanation flagged)).

(** The minimal customer made for an identifier that is not an account. *)
Definition invalid_row (invalid_id : string) : ResultRow.t :=
  unscored_row
    {| Customer.Id := invalid_id;
       Customer.Name := "INVALID ACCOUNT ID";
       Customer.Website := Str "";
       Customer.BillingCity := Str "";
       Customer.BillingState := Str "";
       Customer.BillingCountry := Str "";
       Customer.BillingPostalCode := Str "" |}
    INVALID
    (Reason "Invalid Account ID - does not exist in Salesforce").

(** [all_customer_results] before the sort. *)
Definition all_customer_results (matched_pairs : list MatchedPair.t)
    (unmatched_customers : list Unmatched.t) (flagged_customers : list Flagged.t)
    (invalid_customers : list string) : list ResultRow.t :=
  map matched_row matched_pairs ++ map unmatched_row unmatched_customers
  ++ map flagged_row flagged_customers ++ map invalid_row invalid_customers.

(** [key=lambda x: x['customer'].get('Name', '')] *)
Definition row_name (r : ResultRow.t) : string := Customer.Name (ResultRow.customer r).

Definition create_matching_results_export (matched_pairs : list MatchedPair.t)
    (unmatched_customers : list Unmatched.t) (flagged_customers : list Flagged.t)
    (invalid_customers : list string) : list ResultRow.t :=
  stable_sort (fun x y => String.leb (row_name x) (row_name y))
    (all_customer_results matched_pairs unmatched_customers flagged_customers
                          invalid_customers).

(** ** [SalesforceService]: account identifiers

    The methods of [services/salesforce_service.py] that convert and check
    account identifiers.  Their names start with an underscore in the
    source. *)

(** The loop over [enumerate(chunk)]: [2 ** j] is added for every upper-case
    character, [j] being its position. *)
Fixpoint add_upper_bits (j : nat) (chunk : string) (chunk_value : nat) : nat :=
  match chunk with
  | EmptyString => chunk_value
  | String char rest =>
      add_upper_bits (S j) rest
        (if PyStr.is_upper char then chunk_value + 2 ^ j else chunk_value)
  end.

(** "Convert to base-32 character" *)
Definition base32_char (chunk_value : nat) : string :=
  if chunk_value <? 26 then String (ascii_of_nat (65 + chunk_value)) EmptyString
  else PyStr.of_nat (chunk_value - 26).

Definition _convert_15_to_18_char_id (id_15 : string) : string :=
  if negb (String.length id_15 =? 15) then id_15
  else
    let suffix :=
      foldl (fun suffix i =>
               let chunk := PyStr.slice (i * 5) ((i + 1) * 5) id_15 in
               let chunk_value := add_upper_bits 0 chunk 0 in
               suffix +:+ base32_char chunk_value)
            "" (seq 0 3) in
    id_15 +:+ suffix.

Definition _convert_18_to_15_char_id (id_18 : string) : string :=
  if String.length id_18 =? 15 then id_18
  else if String.length id_18 =? 18 then PyStr.take 15 id_18
  else id_18.

Definition _are_same_account_id (id1 id2 : string) : bool :=
  if negb (str_truthy id1) || negb (str_truthy id2) then false
  else
    let id1_15 := _convert_18_to_15_char_id (PyStr.strip id1) in
    let id2_15 := _convert_18_to_15_char_id (PyStr.strip id2) in
    String.eqb id1_15 id2_15.

Definition _is_valid_salesforce_id_format (account_id : string) : bool :=
  if negb (str_truthy account_id) then false
  else
    let account_id := PyStr.strip account_id in
    if negb ((String.length account_id =? 15) || (String.length account_id =? 18))
    then false
    else if negb (PyStr.isalnum account_id) then false
    else if negb (PyStr.startswith account_id "001") then false
    else true.

(** ** [SalesforceService.validate_customer_account_ids]

    The connection and the query are the two calls to Salesforce.
    [connected] is the result of [ensure_connection]; [query] gives, for the
    identifiers of the [WHERE Id IN (...)] clause, the [Id]s of the records
    returned, or nothing when the call raises.  The function catches every
    exception and then returns [None] with a message. *)

Module Validation.
(** The dictionary returned; the three counts are absent when there was no
    identifier to validate. *)
Record t := {
  valid_account_ids : list string;
  invalid_account_ids : list string;
  total_requested : option nat;
  valid_count : option nat;
  invalid_count : option nat
}.
End Validation.

(** The messages; two of them print counts, and the last one prints the
    exception. *)
Inductive validation_message :=
| Failed_to_connect_to_Salesforce
| No_account_IDs_to_validate
| Validation_complete (valid invalid : nat)
| All_account_IDs_are_valid (valid : nat)
| Error_validating_customer_account_IDs.

(** "Separate valid format IDs from obviously invalid ones" *)
Definition split_by_format (account_ids : list string) : list string * list string :=
  foldl (fun '(format_valid_ids, format_invalid_ids) original_id =>
           let original_id_str := PyStr.strip original_id in
           if _is_valid_salesforce_id_format original_id_str
           then (format_valid_ids ++ [original_id_str], format_invalid_ids)
           else (format_valid_ids, format_invalid_ids ++ [original_id_str]))
        ([], []) account_ids.

(** "Convert format-valid IDs to 18-character format for querying" *)
Definition query_id_of (original_id : string) : string :=
  if String.length original_id =? 15 then _convert_15_to_18_char_id original_id
  else original_id.

(** The body of the loop that fills [query_account_ids] and the dictionary
    [id_mapping]; a later identifier replaces an earlier one that has the
    same query identifier. *)
Definition add_query_id (state : list string * gmap string string)
    (original_id : string) : list string * gmap string string :=
  let '(query_account_ids, id_mapping) := state in
  let query_id := query_id_of original_id in
  (query_account_ids ++ [query_id], <[query_id := original_id]> id_mapping).

Definition query_ids_and_mapping (format_valid_ids : list string)
    : list string * gmap string string :=
  foldl add_query_id ([], ∅) format_valid_ids.

Section Validate_account_ids.
Variable query : list string → option (list string).

(** The block under [if query_account_ids]: the two list comprehensions over
    [id_mapping[query_id]].  The result is nothing when the query or a lookup
    raises. *)
Definition found_and_missing (query_account_ids : list string)
    (id_mapping : gmap string string) : option (list string * list string) :=
  match query_account_ids with
  | [] => Some ([], [])
  | _ :: _ =>
      records ← query query_account_ids;
      let found_ids : gset string := list_to_set records in
      valid_account_ids ←
        mapM (fun query_id => id_mapping !! query_id)
             (filter (fun query_id => query_id ∈ found_ids) query_account_ids);
      salesforce_invalid_ids ←
        mapM (fun query_id => id_mapping !! query_id)
             (filter (fun query_id => query_id ∉ found_ids) query_account_ids);
      Some (valid_account_ids, salesforce_invalid_ids)
  end.

Definition validate_customer_account_ids (connected : bool) (account_ids : list string)
    : option Validation.t * validation_message :=
  if negb connected then (None, Failed_to_connect_to_Salesforce)
  else
    match account_ids with
    | [] =>
        (Some {| Validation.valid_account_ids := [];
                 Validation.invalid_account_ids := [];
                 Validation.total_requested := None;
                 Validation.valid_count := None;
                 Validation.invalid_count := None |},
         No_account_IDs_to_validate)
    | _ :: _ =>
        let '(format_valid_ids, format_invalid_ids) := split_by_format account_ids in
        let '(query_account_ids, id_mapping) := query_ids_and_mapping format_valid_ids in
        match found_and_missing query_account_ids id_mapping with
        | None => (None, Error_validating_customer_account_IDs)
        | Some (valid_account_ids, salesforce_invalid_ids) =>
            let invalid_account_ids := format_invalid_ids ++ salesforce_invalid_ids in
            (Some {| Validation.valid_account_ids := valid_account_ids;
                     Validation.invalid_account_ids := invalid_account_ids;
                     Validation.total_requested := Some (length account_ids);
                     Validation.valid_count := Some (length valid_account_ids);
                     Validation.invalid_count := Some (length invalid_account_ids) |},
             match invalid_account_ids with
             | [] => All_account_IDs_are_valid (length valid_account_ids)
             | _ :: _ => Validation_complete (length valid_account_ids)
                                             (length invalid_account_ids)
             end)
        end
    end.

End Validate_account_ids.

(** ** [SalesforceService.filter_customer_accounts_by_bad_domains]

    [services/bad_domain_service.py] is not part of the sources at hand;
    its [check_account_for_bad_domains], which gives [is_bad] and an
    explanation for an account, is a parameter. *)

(** [account_with_flag]: the account with its [Bad_Domain] entry. *)
Module Checked.
Record t := {
  account : Customer.t;
  is_bad : bool;
  explanation : string
}.
End Checked.

Section Bad_domains.
Variable check_account_for_bad_domains : Customer.t → bool * string.

Definition compute_bad_domain_flag (account_data : Customer.t) : bool * string :=
  let '(is_bad, explanation) := check_account_for_bad_domains account_data in
  (is_bad, explanation).

(** The body of the loop. *)
Definition add_checked (state : list Checked.t * list Checked.t) (account : Customer.t)
    : list Checked.t * list Checked.t :=
  let '(clean_accounts, flagged_accounts) := state in
  let bad_domain_result := compute_bad_domain_flag account in
  let account_with_flag :=
    {| Checked.account := account;
       Checked.is_bad := bad_domain_result.1;
       Checked.explanation := bad_domain_result.2 |} in
  if bad_domain_result.1
  then (clean_accounts, flagged_accounts ++ [account_with_flag])
  else (clean_accounts ++ [account_with_flag], flagged_accounts).

Definition filter_customer_accounts_by_bad_domains (customer_accounts : list Customer.t)
    : list Checked.t * list Checked.t :=
  foldl add_checked ([], []) customer_accounts.

End Bad_domains.

(** ** [process_matching_batch] of [routes/api_routes.py]

    The route with its calls to Salesforce as parameters:
    [get_customer_accounts_bulk] and [get_shell_accounts_bulk] give the
    records, or nothing when they return [None].  The request is the parsed
    JSON body, a missing key being [None]; the test that the two identifier
    values are lists is in the types.  The AI assessment of a matched pair
    comes from a call that catches its own exceptions; it is copied into the
    pair and is left out, as are the explanations of the scores and the
    execution time.  Every exception ends the route with status 500. *)

Module Request.
Record t := {
  customer_account_ids : option (list string);
  shell_account_ids : option (list string);
  invalid_customer_ids : list string;
  invalid_shell_ids : list string
}.
End Request.

Module Summary.
Record t := {
  total_customer_accounts : nat;
  clean_customer_accounts : nat;
  flagged_customer_accounts : nat;
  invalid_customer_accounts : nat;
  total_shell_accounts : nat;
  invalid_shell_accounts : nat;
  matched_pairs : nat;
  unmatched_customers : nat
}.
End Summary.

(** An entry of [unmatched_customers]: the reason is the message of the
    match result. *)
Module UnmatchedCustomer.
Record t := {
  customer_account : Customer.t;
  reason : message
}.
End UnmatchedCustomer.

Inductive batch_error :=
| Missing_required_fields
| At_least_one_customer_and_one_shell_account_ID
| Error_retrieving_customer_account_data
| Error_retrieving_shell_account_data
| Error_processing_matching_batch.

Module BatchData.
Record t := {
  summary : Summary.t;
  matched_pairs : list MatchedPair.t;
  unmatched_customers : list UnmatchedCustomer.t;
  flagged_customers : list Checked.t;
  invalid_customers : list string
}.
End BatchData.

Inductive response :=
| Error_response (status : nat) (error : batch_error)
| Success_response (data : BatchData.t).

Section Matching_batch.
Variable bracketed_netloc_ok : string -> bool.
Variable check_account_for_bad_domains : Customer.t → bool * string.
Variable get_customer_accounts_bulk : list string → option (list Customer.t).
Variable get_shell_accounts_bulk : list string → option (list Shell.t).

(** The body of the loop over [clean_customers]; the state is nothing once
    an exception was raised. *)
Definition match_customer (shell_data : list Shell.t)
    (state : option (list MatchedPair.t * list UnmatchedCustomer.t))
    (customer : Checked.t)
    : option (list MatchedPair.t * list UnmatchedCustomer.t) :=
  '(matched_pairs, unmatched_customers) ← state;
  match find_best_shell_match bracketed_netloc_ok (Checked.account customer) shell_data with
  | Raise _ => None
  | Ok match_result =>
      if success match_result then
        best_match ← best_match match_result;
        candidate_count ← candidate_count match_result;
        total_shells ← total_shells match_result;
        Some (matched_pairs ++
                [{| MatchedPair.customer_account := Checked.account customer;
                    MatchedPair.recommended_shell := BestMatch.shell_account best_match;
                    MatchedPair.match_confidence := BestMatch.confidence_score best_match;
                    MatchedPair.website_match := BestMatch.website_match best_match;
                    MatchedPair.name_match := BestMatch.name_match best_match;
                    MatchedPair.address_consistency :=
                      BestMatch.address_consistency best_match;
                    MatchedPair.candidate_count := candidate_count;
                    MatchedPair.total_shells := total_shells |}],
              unmatched_customers)
      else
        Some (matched_pairs,
              unmatched_customers ++
                [{| UnmatchedCustomer.customer_account := Checked.account customer;
                    UnmatchedCustomer.reason := result_message match_result |}])
  end.

Definition process_matching_batch (data : option Request.t) : response :=
  match data with
  | None => Error_response 400 Missing_required_fields
  | Some data =>
      match Request.customer_account_ids data, Request.shell_account_ids data with
      | Some customer_account_ids, Some shell_account_ids =>
          if (length customer_account_ids =? 0) || (length shell_account_ids =? 0)
          then Error_response 400 At_least_one_customer_and_one_shell_account_ID
          else
            match get_customer_accounts_bulk customer_account_ids with
            | None => Error_response 500 Error_retrieving_customer_account_data
            | Some customer_data =>
                match get_shell_accounts_bulk shell_account_ids with
                | None => Error_response 500 Error_retrieving_shell_account_data
                | Some shell_data =>
                    let '(clean_customers, flagged_customers) :=
                      filter_customer_accounts_by_bad_domains
                        check_account_for_bad_domains customer_data in
                    match foldl (match_customer shell_data) (Some ([], []))
                                clean_customers with
                    | None => Error_response 500 Error_processing_matching_batch
                    | Some (matched_pairs, unmatched_customers) =>
                        let invalid_customer_ids := Request.invalid_customer_ids data in
                        let invalid_shell_ids := Request.invalid_shell_ids data in
                        Success_response
                          {| BatchData.summary :=
                               {| Summary.total_customer_accounts :=
                                    length customer_data + length invalid_customer_ids;
                                  Summary.clean_customer_accounts := length clean_customers;
                                  Summary.flagged_customer_accounts :=
                                    length flagged_customers;
                                  Summary.invalid_customer_accounts :=
                                    length invalid_customer_ids;
                                  Summary.total_shell_accounts :=
                                    length shell_data + length invalid_shell_ids;
                                  Summary.invalid_shell_accounts :=
                                    length invalid_shell_ids;
                                  Summary.matched_pairs := length matched_pairs;
                                  Summary.unmatched_customers :=
                                    length unmatched_customers |};
                             BatchData.matched_pairs := matched_pairs;
                             BatchData.unmatched_customers := unmatched_customers;
                             BatchData.flagged_customers := flagged_customers;
                             BatchData.invalid_customers := invalid_customer_ids |}
                    end
                end
            end
      | _, _ => Error_response 400 Missing_required_fields
      end
  end.

End Matching_batch.

(** ** [ExcelService.create_matching_results_export]: the sheet "Summary Metrics"

    A worksheet is the map from the references of its cells to their values;
    fonts, fills, borders, merged ranges and column widths are left out.  The
    summary is the dictionary of the request, any of whose keys may be
    missing; an empty dictionary is [None]. *)

(** The value of a cell; a percentage that [{:.1f}%] prints is kept as the
    number. *)
Inductive cell :=
| CellText (s : string)
| CellNumber (n : nat)
| CellPercent (q : Q).

Module ExportSummary.
Record t := {
  total_customer_accounts : option nat;
  matched_pairs : option nat;
  unmatched_customers : option nat;
  flagged_customer_accounts : option nat;
  total_shell_accounts : option nat;
  clean_customer_accounts : option nat;
  execution_time : option string
}.
End ExportSummary.

(** [f'{column}{row}'] *)
Definition cell_ref (column : string) (row : nat) : string := column +:+ PyStr.of_nat row.

(** The list [metrics]. *)
Definition metrics (summary : ExportSummary.t) : list (string * cell) :=
  [("Total Customer Accounts Processed",
    CellNumber (default 0 (ExportSummary.total_customer_accounts summary)));
   ("Successfully Matched", CellNumber (default 0 (ExportSummary.matched_pairs summary)));
   ("Unable to Match", CellNumber (default 0 (ExportSummary.unmatched_customers summary)));
   ("Flagged (Bad Domains)",
    CellNumber (default 0 (ExportSummary.flagged_customer_accounts summary)));
   ("Total Shell Accounts Available",
    CellNumber (default 0 (ExportSummary.total_shell_accounts summary)));
   ("Processing Time",
    CellText (default "N/A" (ExportSummary.execution_time summary)));
   ("Match Success Rate",
    if 0 <? default 0 (ExportSummary.clean_customer_accounts summary)
    then CellPercent
           (inject_Z (Z.of_nat (default 0%nat (ExportSummary.matched_pairs summary)))
            / inject_Z (Z.of_nat
                (Nat.max (default 1%nat (ExportSummary.clean_customer_accounts summary))
                         1%nat))
            * 100)%Q
    else CellText "0%")].

(** The body of the loop "Add metrics": the two cells of the current row. *)
Definition write_metric (current_row : nat) (ws_summary : gmap string cell)
    (metric : string * cell) : gmap string cell :=
  let '(metric_name, metric_value) := metric in
  let ws_summary := <[cell_ref "A" current_row := CellText metric_name]> ws_summary in
  <[cell_ref "B" current_row := metric_value]> ws_summary.

(** The sheet at the end; [current_row] is advanced once after the headers
    of the metrics and once after the loop, but not in the loop. *)
Definition summary_metrics_sheet (summary : option ExportSummary.t) : gmap string cell :=
  let ws_summary : gmap string cell := ∅ in
  let current_row := 1 in
  let ws_summary :=
    <[cell_ref "A" current_row := CellText "Matching Process Summary"]> ws_summary in
  let current_row := current_row + 2 in
  match summary with
  | Some summary =>
      let ws_summary := <[cell_ref "A" current_row := CellText "Metric"]> ws_summary in
      let ws_summary := <[cell_ref "B" current_row := CellText "Value"]> ws_summary in
      let current_row := current_row + 1 in
      foldl (write_metric current_row) ws_summary (metrics summary)
  | None => ws_summary
  end.

(** ** [ExcelService.parse_excel_file]: the headers and the preview of a sheet

    [rows] is what [sheet.iter_rows(values_only=True)] yields: the rows of
    the sheet, an empty cell being [None]; [max_row] is the sheet's
    [max_row]. *)

(** [[cell if cell is not None else f"Column_{i+1}" for i, cell in enumerate(first_row)]],
    for the first row if there is one. *)
Definition sheet_headers (rows : list (list (option cell))) : list cell :=
  match rows with
  | [] => []
  | first_row :: _ =>
      imap (fun i cell =>
              match cell with
              | Some value => value
              | None => CellText ("Column_" +:+ PyStr.of_nat (i + 1))
              end) first_row
  end.

(** [while len(row_data) < len(sheet_headers): row_data.append("")]; the
    loop takes no more steps than there are headers. *)
Fixpoint pad_row (steps : nat) (width : nat) (row_data : list cell) : list cell :=
  match steps with
  | 0 => row_data
  | S steps =>
      if length row_data <? width
      then pad_row steps width (row_data ++ [CellText ""])
      else row_data
  end.

(** A row of the preview: empty cells become [""], and the row is padded
    and trimmed to the length of the headers. *)
Definition preview_row (sheet_headers : list cell) (row : list (option cell)) : list cell :=
  let row_data := map (fun cell => default (CellText "") cell) row in
  let row_data := pad_row (length sheet_headers) (length sheet_headers) row_data in
  take (length sheet_headers) row_data.

(** The loop over [enumerate(sheet.iter_rows(values_only=True))]: the first
    row is skipped, the next 10 are kept, and the loop stops at the
    twelfth. *)
Fixpoint preview_from (row_idx : nat) (sheet_headers : list cell)
    (rows : list (list (option cell))) : list (list cell) :=
  match rows with
  | [] => []
  | row :: rest =>
      if row_idx =? 0 then preview_from (S row_idx) sheet_headers rest
      else if row_idx <? 11
      then preview_row sheet_headers row :: preview_from (S row_idx) sheet_headers rest
      else []
  end.

Module Parsed.
Record t := {
  headers : list cell;
  preview_data : list (list cell);
  total_rows : nat
}.
End Parsed.

(** The result for the first sheet. *)
Definition parse_first_sheet (rows : list (list (option cell))) (max_row : option nat)
    : Parsed.t :=
  let sheet_headers := sheet_headers rows in
  let preview_data := preview_from 0 sheet_headers rows in
  let total_rows :=
    match max_row with
    | Some (S n) => S n - 1
    | _ => 0
    end in
  {| Parsed.headers := sheet_headers;
     Parsed.preview_data := preview_data;
     Parsed.total_rows := Nat.max total_rows (length preview_data) |}.

(** ** [get_ai_match_assessments_batch] of [services/openai_service.py]

    The assessments of a list of pairs, made batch by batch.  The nested
    function [process_single_assessment], which catches every exception of
    the call it makes, is a parameter, and the executor's [map] gives the
    results in the order of its inputs; the pauses and the progress messages
    are left out.  [batch_size] is a Python [int]: the division by 0 raises,
    and so does an executor whose [max_workers] is not positive. *)

Inductive batch_exn := ZeroDivisionError | ValueError_max_workers.

(** The bound [i] of a slice of a list of length [len]. *)
Definition slice_index (len i : Z) : Z :=
  if (i <? 0)%Z then Z.max (len + i) 0 else Z.min i len.

(** [l[start:stop]] *)
Definition list_slice {A} (start stop : Z) (l : list A) : list A :=
  let len := Z.of_nat (length l) in
  let lo := slice_index len start in
  let hi := slice_index len stop in
  take (Z.to_nat (hi - lo)) (drop (Z.to_nat lo) l).

(** [range(n)] *)
Definition range (n : Z) : list Z := map Z.of_nat (seq 0 (Z.to_nat n)).

Section Assessments_batch.
Context {Pair Assessment : Type}.
Variable process_single_assessment : Pair → Assessment.

(** The body of the loop over the batches. *)
Definition assess_batch (match_pairs : list Pair) (batch_size : Z)
    (state : batch_exn + list Assessment) (batch_num : Z)
    : batch_exn + list Assessment :=
  match state with
  | inl e => inl e
  | inr all_results =>
      let start_idx := (batch_num * batch_size)%Z in
      let end_idx :=
        Z.min (start_idx + batch_size) (Z.of_nat (length match_pairs)) in
      let batch_pairs := list_slice start_idx end_idx match_pairs in
      if (Z.min batch_size (Z.of_nat (length batch_pairs)) <=? 0)%Z
      then inl ValueError_max_workers
      else inr (all_results ++ map process_single_assessment batch_pairs)
  end.

Definition get_ai_match_assessments_batch (match_pairs : list Pair) (batch_size : Z)
    : batch_exn + list Assessment :=
  if (batch_size =? 0)%Z then inl ZeroDivisionError
  else
    let total_batches :=
      ((Z.of_nat (length match_pairs) + batch_size - 1) `div` batch_size)%Z in
    foldl (assess_batch match_pairs batch_size) (inr []) (range total_batches).

End Assessments_batch.

(** * Vocabulary of the properties *)

(** ** Accounts of the specification's examples *)

Definition acme_customer : Customer.t :=
  {| Customer.Id := "001C";
     Customer.Name := "Acme Corp";
     Customer.Website := Str "acme.com";
     Customer.BillingCity := Str "Austin";
     Customer.BillingState := Str "TX";
     Customer.BillingCountry := Str "USA";
     Customer.BillingPostalCode := Str "78701" |}.

Definition acme_shell : Shell.t :=
  {| Shell.Id := "001S";
     Shell.ZI_Id__c := Str "zi-1";
     Shell.ZI_Company_Name__c := Str "Acme Corporation";
     Shell.ZI_Website__c := Str "acme.com";
     Shell.ZI_Company_City__c := Str "austin";
     Shell.ZI_Company_State__c := Str "tx";
     Shell.ZI_Company_Country__c := Str "usa";
     Shell.ZI_Company_Postal_Code__c := Str "78701" |}.

(** The same shell with another postal code. *)
Definition acme_shell_78702 : Shell.t :=
  {| Shell.Id := "001S";
     Shell.ZI_Id__c := Str "zi-1";
     Shell.ZI_Company_Name__c := Str "Acme Corporation";
     Shell.ZI_Website__c := Str "acme.com";
     Shell.ZI_Company_City__c := Str "austin";
     Shell.ZI_Company_State__c := Str "tx";
     Shell.ZI_Company_Country__c := Str "usa";
     Shell.ZI_Company_Postal_Code__c := Str "78702" |}.

Definition unrelated_shell : Shell.t :=
  {| Shell.Id := "002S";
     Shell.ZI_Id__c := Str "zi-2";
     Shell.ZI_Company_Name__c := Str "Unrelated Inc";
     Shell.ZI_Website__c := Str "unrelated.com";
     Shell.ZI_Company_City__c := Str "";
     Shell.ZI_Company_State__c := Str "";
     Shell.ZI_Company_Country__c := Str "";
     Shell.ZI_Company_Postal_Code__c := Str "" |}.

(** An account whose billing state is blank, as Salesforce returns it. *)
Definition blank_state_customer : Customer.t :=
  {| Customer.Id := "003C";
     Customer.Name := "Acme Corp";
     Customer.Website := Str "acme.com";
     Customer.BillingCity := Str "Austin";
     Customer.BillingState := Null;
     Customer.BillingCountry := Str "USA";
     Customer.BillingPostalCode := Str "78701" |}.

(** ** Accounts with one column changed *)

(** The customer with another name, and the shell with another company name. *)
Definition with_name (customer : Customer.t) (name : string) : Customer.t :=
  {| Customer.Id := Customer.Id customer;
     Customer.Name := name;
     Customer.Website := Customer.Website customer;
     Customer.BillingCity := Customer.BillingCity customer;
     Customer.BillingState := Customer.BillingState customer;
     Customer.BillingCountry := Customer.BillingCountry customer;
     Customer.BillingPostalCode := Customer.BillingPostalCode customer |}.

Definition with_company_name (shell : Shell.t) (name : field) : Shell.t :=
  {| Shell.Id := Shell.Id shell;
     Shell.ZI_Id__c := Shell.ZI_Id__c shell;
     Shell.ZI_Company_Name__c := name;
     Shell.ZI_Website__c := Shell.ZI_Website__c shell;
     Shell.ZI_Company_City__c := Shell.ZI_Company_City__c shell;
     Shell.ZI_Company_State__c := Shell.ZI_Company_State__c shell;
     Shell.ZI_Company_Country__c := Shell.ZI_Company_Country__c shell;
     Shell.ZI_Company_Postal_Code__c := Shell.ZI_Company_Postal_Code__c shell |}.

(** ** Address columns that are not [None] *)

(** The column is a string or is missing; it is not [None]. *)
Definition not_null (f : field) : bool :=
  match f with
  | Null => false
  | _ => true
  end.

Definition customer_address_not_null (customer : Customer.t) : bool :=
  not_null (Customer.BillingCountry customer)
  && not_null (Customer.BillingState customer)
  && not_null (Customer.BillingCity customer)
  && not_null (Customer.BillingPostalCode customer).

Definition shell_address_not_null (shell : Shell.t) : bool :=
  not_null (Shell.ZI_Company_Country__c shell)
  && not_null (Shell.ZI_Company_State__c shell)
  && not_null (Shell.ZI_Company_City__c shell)
  && not_null (Shell.ZI_Company_Postal_Code__c shell).

(** ** [difflib]: windows, queues and runs *)

(** A block [(i, j, k)] inside the window [alo..ahi] of [a] and [blo..bhi]
    of [b]. *)
Definition block_in (alo ahi blo bhi : nat) (blk : nat * nat * nat) : Prop :=
  alo ≤ blk.1.1 ∧ blk.1.1 + blk.2 ≤ ahi ∧ blo ≤ blk.1.2 ∧ blk.1.2 + blk.2 ≤ bhi.

(** The lengths recorded for the row before row [i]. *)
Definition j2len_in (alo blo bhi i : nat) (j2len : gmap nat nat) : Prop :=
  ∀ j k, j2len !! j = Some k → k ≤ i - alo ∧ k ≤ S j - blo ∧ j < bhi.

Definition sum_sizes (blocks : list (nat * nat * nat)) : nat :=
  foldr (fun x acc => x.2 + acc) 0 blocks.

Definition window_ok (w : nat * nat * nat * nat) : Prop :=
  w.1.1.1 ≤ w.1.1.2 ∧ w.1.2 ≤ w.2.

(** What is left of [a], respectively [b], in the windows of the queue. *)
Definition room_a (queue : list (nat * nat * nat * nat)) : nat :=
  foldr (fun w acc => (w.1.1.2 - w.1.1.1) + acc) 0 queue.

Definition room_b (queue : list (nat * nat * nat * nat)) : nat :=
  foldr (fun w acc => (w.2 - w.1.2) + acc) 0 queue.

(** The number of steps that a queue can still take. *)
Definition steps (queue : list (nat * nat * nat * nat)) : nat :=
  foldr (fun w acc => (2 * (w.1.1.2 - w.1.1.1) + 1) + acc) 0 queue.

Section SequenceMatcher_runs.
Context {A : Type} `{EqDecision A}.
Variable a : list A.

(** [a[i]] is a key of [b2j]. *)
Definition indexed (i : nat) : bool :=
  match a !! i with
  | Some x => negb (Difflib.popular a x)
  | None => false
  end.

(** The number of consecutive indexed positions that end at [i]. *)
Fixpoint run (i : nat) : nat :=
  match i with
  | 0 => if indexed 0 then 1 else 0
  | S i' => if indexed (S i') then S (run i') else 0
  end.

Definition run_prev (i : nat) : nat :=
  match i with
  | 0 => 0
  | S i' => run i'
  end.

(** The lengths recorded by the row before row [i]. *)
Definition prev_ok (i : nat) (j2len : gmap nat nat) : Prop :=
  (∀ j k, j2len !! j = Some k → k ≤ run_prev i ∧ k ≤ run j)
  ∧ Difflib.j2len_prev j2len i = run_prev i.

(** The state of row [i] once the positions below [j0] are done. *)
Definition row_inv (i j0 : nat) (best : nat * nat * nat) (new : gmap nat nat) : Prop :=
  best.1.1 = best.1.2
  ∧ (∀ i', i' < i → run i' ≤ best.2)
  ∧ (i < j0 → run i ≤ best.2)
  ∧ (∀ j k, new !! j = Some k → k ≤ run i ∧ k ≤ run j)
  ∧ (i < j0 → new !! i = Some (run i)).

End SequenceMatcher_runs.

(** ** The characters and words of a normalized name *)

(** The class [[a-z0-9]]. *)
Definition is_lower_alnum (c : ascii) : bool :=
  PyStr.between 97 122 (PyStr.code c) || PyStr.is_ascii_digit c.

(** A character of a normalized name before its words are joined. *)
Definition is_word_or_space (c : ascii) : bool := is_lower_alnum c || PyStr.is_space c.

(** Not an upper-case ASCII letter: what [lower] leaves of ASCII. *)
Definition is_lowered (c : ascii) : bool := negb (PyStr.is_alnum c) || is_lower_alnum c.

(** A word: non-empty, of lower-case letters and digits. *)
Definition word (w : string) : Prop :=
  w ≠ "" ∧ PyStr.all_chars is_lower_alnum w = true.

(** ** Candidates *)

(** The identifiers that one name token contributes. *)
Definition token_ids (hb : hash_buckets) (token id : string) : Prop :=
  2 < String.length token
  ∧ ∃ bucket shell, bucket_get token (name_buckets hb) = Some bucket
                    ∧ shell ∈ bucket ∧ Shell.Id shell = id.

Section Scored_candidates.
Variable bracketed_netloc_ok : string -> bool.

(** The candidates that are scored: those of the fast filter, or the whole
    collection when the filter finds none. *)
Definition scored_candidates (customer : Customer.t) (shell_accounts : list Shell.t)
    : list Shell.t :=
  match fast_filter_candidates bracketed_netloc_ok customer
          (create_hash_buckets bracketed_netloc_ok shell_accounts) with
  | [] => shell_accounts
  | _ :: _ => fast_filter_candidates bracketed_netloc_ok customer
                (create_hash_buckets bracketed_netloc_ok shell_accounts)
  end.

End Scored_candidates.

(** ** The keys of a shell in the candidate index *)

Section Index_keys.
Variable bracketed_netloc_ok : string -> bool.

(** The key of the website bucket that receives the shell, when its website
    gives one. *)
Definition website_key (shell : Shell.t) : option string :=
  domain_company_of bracketed_netloc_ok (dict_get (Shell.ZI_Website__c shell) (PyStr "")).

End Index_keys.

(** The tokens of the normalized company name of the shell. *)
Definition name_tokens (shell : Shell.t) : list string :=
  match dict_get (Shell.ZI_Company_Name__c shell) (PyStr "") with
  | PyStr zi_name => PyStr.split (normalize_company_name zi_name)
  | PyNone => []
  end.

(** ** The address values that are compared *)

(** The value of a column as [compute_address_consistency_score] compares
    it: stripped and lower-cased, and empty for a missing column. *)
Definition compared (f : field) : string :=
  match strip_lower f with
  | Ok s => s
  | Raise _ => ""
  end.

(** Both values are non-empty and equal. *)
Definition same_value (customer_value shell_value : string) : bool :=
  str_truthy customer_value && str_truthy shell_value
  && String.eqb customer_value shell_value.

Definition points_if (b : bool) (points : Q) : Q := if b then points else 0%Q.

(** ** The case pattern of a chunk *)

(** The number whose binary digits, lowest first, are the booleans. *)
Fixpoint bits_value (bits : list bool) : nat :=
  match bits with
  | [] => 0
  | b :: bits => (if b then 1 else 0) + 2 * bits_value bits
  end.

(** Which characters of the string are upper-case. *)
Definition upper_pattern (s : string) : list bool :=
  map PyStr.is_upper (String.list_ascii_of_string s).

(** ** Tactics *)

(** Each window pushed on the queue is well formed. *)
Ltac push_windows :=
  repeat match goal with
         | H : _ && _ = true |- _ => apply andb_prop in H as [? ?]
         | H : (_ <? _) = true |- _ => apply Nat.ltb_lt in H
         end;
  repeat (apply List.Forall_cons; [unfold window_ok; simpl; lia|]);
  assumption.

(** Division by 100 as a product, for [lra]. *)
Ltac percent_as_product :=
  unfold Qdiv in *; change (/ 100)%Q with (1 # 100)%Q in *.

(** * Properties *)

(** ** [difflib]: every block lies inside its window *)

Section SequenceMatcher_windows.
Context {A : Type} `{EqDecision A}.
Variables a b : list A.

Lemma j2len_prev_bound alo blo bhi i j2len j :
  j2len_in alo blo bhi i j2len → blo ≤ j →
  Difflib.j2len_prev j2len j ≤ i - alo ∧ Difflib.j2len_prev j2len j ≤ j - blo.
Proof.
  intros Hin Hj. destruct j as [|j']; simpl; [lia|].
  destruct (j2len !! j') as [k|] eqn:E; simpl; [|lia].
  destruct (Hin _ _ E) as (? & ? & ?). lia.
Qed.

Lemma scan_row_in alo ahi blo bhi i j2len js best newj2len :
  alo ≤ i → i < ahi →
  j2len_in alo blo bhi i j2len →
  block_in alo (S i) blo bhi best →
  j2len_in alo blo bhi (S i) newj2len →
  let r := Difflib.scan_row i blo bhi j2len js best newj2len in
  block_in alo (S i) blo bhi r.1 ∧ j2len_in alo blo bhi (S i) r.2.
Proof.
  intros Hlo Hhi Hprev. revert best newj2len.
  induction js as [|j js IH]; intros best newj2len Hbest Hnew; simpl; [done|].
  destruct (j <? blo) eqn:E1; [by apply IH|].
  destruct (bhi <=? j) eqn:E2; [done|].
  apply Nat.ltb_ge in E1. apply Nat.leb_gt in E2.
  destruct (j2len_prev_bound alo blo bhi i j2len j Hprev E1) as [Hk1 Hk2].
  apply IH.
  - destruct (best.2 <? Difflib.j2len_prev j2len j + 1); [|done].
    unfold block_in; simpl. lia.
  - intros j0 k0. rewrite lookup_insert. case_decide as Hj0.
    + intros [= <-]. subst j0. lia.
    + by apply Hnew.
Qed.

Lemma block_in_weaken alo ahi ahi' blo bhi blk :
  ahi ≤ ahi' → block_in alo ahi blo bhi blk → block_in alo ahi' blo bhi blk.
Proof. unfold block_in. lia. Qed.

Lemma scan_rows_in alo ahi blo bhi n i best j2len :
  alo ≤ i → i + n ≤ ahi →
  j2len_in alo blo bhi i j2len →
  block_in alo i blo bhi best →
  block_in alo (i + n) blo bhi (Difflib.scan_rows a b (seq i n) blo bhi best j2len).
Proof.
  revert i best j2len.
  induction n as [|n IH]; intros i best j2len Hlo Hhi Hprev Hbest; simpl.
  - by rewrite Nat.add_0_r.
  - destruct (Difflib.scan_row i blo bhi j2len _ best ∅) as [best' new] eqn:E.
    pose proof (scan_row_in alo ahi blo bhi i j2len
      (match a !! i with Some x => Difflib.b2j_get b x | None => [] end)
      best ∅) as Hrow.
    rewrite E in Hrow. simpl in Hrow.
    destruct Hrow as [Hb Hn]; [lia | lia | done | | |].
    + eapply block_in_weaken; [|exact Hbest]. lia.
    + intros j k. by rewrite lookup_empty.
    + replace (i + S n) with (S i + n) by lia. apply IH; [lia | lia | done | done].
Qed.

Lemma extend_back_in alo ahi blo bhi besti bestj bestsize :
  block_in alo ahi blo bhi (besti, bestj, bestsize) →
  block_in alo ahi blo bhi (Difflib.extend_back a b alo blo besti bestj bestsize).
Proof.
  revert bestj bestsize.
  induction besti as [|i' IH]; intros bestj bestsize Hin; simpl; [done|].
  destruct bestj as [|j']; [done|].
  destruct ((alo <? S i') && (blo <? S j') && Difflib.same_at a b i' j') eqn:E; [|done].
  apply andb_prop in E as [E _]. apply andb_prop in E as [E1 E2].
  apply Nat.ltb_lt in E1, E2.
  apply IH. unfold block_in in *; simpl in *. lia.
Qed.

Lemma extend_forward_in alo ahi blo bhi fuel besti bestj bestsize :
  block_in alo ahi blo bhi (besti, bestj, bestsize) →
  block_in alo ahi blo bhi
    (besti, bestj, Difflib.extend_forward a b fuel ahi bhi besti bestj bestsize).
Proof.
  revert bestsize.
  induction fuel as [|fuel IH]; intros bestsize Hin; simpl; [done|].
  destruct ((besti + bestsize <? ahi) && (bestj + bestsize <? bhi)
            && Difflib.same_at a b (besti + bestsize) (bestj + bestsize)) eqn:E; [|done].
  apply andb_prop in E as [E _]. apply andb_prop in E as [E1 E2].
  apply Nat.ltb_lt in E1, E2.
  apply IH. unfold block_in in *; simpl in *. lia.
Qed.

Lemma find_longest_match_in alo ahi blo bhi :
  alo ≤ ahi → blo ≤ bhi →
  block_in alo ahi blo bhi (Difflib.find_longest_match a b alo ahi blo bhi).
Proof.
  intros Ha Hb. unfold Difflib.find_longest_match.
  pose proof (scan_rows_in alo ahi blo bhi (ahi - alo) alo (alo, blo, 0) ∅) as Hrows.
  destruct (Difflib.scan_rows a b _ blo bhi (alo, blo, 0) ∅) as [[bi bj] bs].
  pose proof (extend_back_in alo ahi blo bhi bi bj bs) as Hback.
  destruct (Difflib.extend_back a b alo blo bi bj bs) as [[bi' bj'] bs'].
  apply extend_forward_in, Hback.
  replace ahi with (alo + (ahi - alo)) at 1 by lia.
  apply Hrows; [lia | lia | | ].
  - intros j k. by rewrite lookup_empty.
  - unfold block_in; simpl. lia.
Qed.

End SequenceMatcher_windows.

(** ** [difflib]: the work loop ends, and the blocks fit in both sequences *)

Section SequenceMatcher_blocks.
Context {A : Type} `{EqDecision A}.
Variables a b : list A.

Lemma sum_sizes_app l1 l2 : sum_sizes (l1 ++ l2) = sum_sizes l1 + sum_sizes l2.
Proof. induction l1 as [|x l1 IH]; simpl; [done|]. rewrite IH. lia. Qed.

Lemma blocks_loop_terminates_from fuel queue acc :
  Forall window_ok queue → steps queue ≤ fuel →
  is_Some (Difflib.blocks_loop a b fuel queue acc).
Proof.
  revert queue acc.
  induction fuel as [|fuel IH]; intros queue acc Hok Hfuel.
  - destruct queue as [|[[[alo ahi] blo] bhi] queue]; simpl in *; [done | lia].
  - destruct queue as [|[[[alo ahi] blo] bhi] queue]; simpl; [done|].
    apply Forall_cons in Hok as [[Ha Hb] Hok]. simpl in Ha, Hb, Hfuel.
    pose proof (find_longest_match_in a b alo ahi blo bhi Ha Hb) as Hin.
    destruct (Difflib.find_longest_match a b alo ahi blo bhi) as [[i j] k].
    destruct Hin as (Hi1 & Hi2 & Hj1 & Hj2). simpl in *.
    destruct (k =? 0) eqn:Ek.
    { apply IH; [done | lia]. }
    apply Nat.eqb_neq in Ek.
    apply IH.
    + destruct ((i + k <? ahi) && (j + k <? bhi)) eqn:E2;
        destruct ((alo <? i) && (blo <? j)) eqn:E1;
        push_windows.
    + destruct ((i + k <? ahi) && (j + k <? bhi)) eqn:E2;
        destruct ((alo <? i) && (blo <? j)) eqn:E1; simpl; lia.
Qed.

(** The queue empties within the steps that [matching_blocks] allows. *)
Lemma blocks_loop_terminates :
  is_Some (Difflib.blocks_loop a b (2 * length a + 1) [(0, length a, 0, length b)] []).
Proof.
  apply blocks_loop_terminates_from.
  - apply Forall_cons. split; [|done]. unfold window_ok; simpl. lia.
  - simpl. lia.
Qed.

Lemma blocks_loop_room fuel queue acc blocks :
  Forall window_ok queue →
  Difflib.blocks_loop a b fuel queue acc = Some blocks →
  sum_sizes blocks ≤ sum_sizes acc + room_a queue ∧
  sum_sizes blocks ≤ sum_sizes acc + room_b queue.
Proof.
  revert queue acc.
  induction fuel as [|fuel IH]; intros queue acc Hok Hrun.
  - destruct queue as [|[[[alo ahi] blo] bhi] queue]; simpl in *; [|done].
    injection Hrun as <-. lia.
  - destruct queue as [|[[[alo ahi] blo] bhi] queue]; simpl in Hrun.
    { injection Hrun as <-. simpl. lia. }
    apply Forall_cons in Hok as [[Ha Hb] Hok]. simpl in Ha, Hb.
    pose proof (find_longest_match_in a b alo ahi blo bhi Ha Hb) as Hin.
    destruct (Difflib.find_longest_match a b alo ahi blo bhi) as [[i j] k].
    destruct Hin as (Hi1 & Hi2 & Hj1 & Hj2). simpl in *.
    destruct (k =? 0) eqn:Ek.
    { apply IH in Hrun; [lia | done]. }
    apply IH in Hrun.
    + rewrite sum_sizes_app in Hrun. simpl in Hrun.
      destruct ((i + k <? ahi) && (j + k <? bhi)) eqn:E2;
        destruct ((alo <? i) && (blo <? j)) eqn:E1; simpl in Hrun; lia.
    + destruct ((i + k <? ahi) && (j + k <? bhi)) eqn:E2;
        destruct ((alo <? i) && (blo <? j)) eqn:E1;
        push_windows.
Qed.

(** No more matching elements than either sequence has. *)
Lemma matches_le : Difflib.matches a b ≤ length a ∧ Difflib.matches a b ≤ length b.
Proof.
  unfold Difflib.matches, Difflib.matching_blocks.
  destruct blocks_loop_terminates as [blocks Hrun]. rewrite Hrun. simpl.
  apply blocks_loop_room in Hrun.
  - simpl in Hrun. unfold sum_sizes in Hrun. lia.
  - apply Forall_cons. split; [|done]. unfold window_ok; simpl. lia.
Qed.

End SequenceMatcher_blocks.

(** ** [difflib]: a sequence matches itself entirely

    With [b = a] the longest block found by the scan lies on the diagonal, and
    the two extension loops grow it to the whole sequence, also when popular
    elements were removed from the index. *)

Section SequenceMatcher_self.
Context {A : Type} `{EqDecision A}.
Variable a : list A.

Lemma run_eq i : run a i = if indexed a i then S (run_prev a i) else 0.
Proof. by destruct i. Qed.

Lemma prev_ok_bound i j2len j :
  prev_ok a i j2len →
  Difflib.j2len_prev j2len j ≤ run_prev a i ∧ Difflib.j2len_prev j2len j ≤ run_prev a j.
Proof.
  intros [Hall _]. destruct j as [|j']; simpl; [lia|].
  destruct (j2len !! j') as [k|] eqn:E; simpl; [|lia].
  by apply Hall.
Qed.

Lemma scan_row_diag i x j2len l j0 best new :
  a !! i = Some x → Difflib.popular a x = false →
  (∃ pre, a = pre ++ l ∧ length pre = j0) →
  prev_ok a i j2len →
  row_inv a i j0 best new →
  let r := Difflib.scan_row i 0 (length a) j2len (Difflib.indices_from x j0 l) best new in
  row_inv a i (j0 + length l) r.1 r.2.
Proof.
  intros Hx Hpop. revert j0 best new.
  assert (Hi : run a i = S (run_prev a i)).
  { rewrite run_eq. unfold indexed. by rewrite Hx, Hpop. }
  induction l as [|y l IH]; intros j0 best new (pre & Ha & Hlen) Hprev Hinv; simpl.
  { by rewrite Nat.add_0_r. }
  assert (Hnext : ∃ pre', a = pre' ++ l ∧ length pre' = S j0).
  { exists (pre ++ [y]). rewrite <- app_assoc. split; [done|].
    rewrite length_app. simpl. lia. }
  assert (Hy : a !! j0 = Some y).
  { rewrite Ha. by apply list_lookup_middle. }
  replace (j0 + S (length l)) with (S j0 + length l) by lia.
  destruct Hinv as (Hdiag & Hbelow & Hat & Hnew & Hnewi).
  destruct (decide (y = x)) as [->|Hne].
  - simpl.
    assert (Hlt : j0 < length a).
    { rewrite Ha, length_app. simpl. lia. }
    apply Nat.leb_gt in Hlt as Hlt'. rewrite Hlt'.
    assert (Hj : run a j0 = S (run_prev a j0)).
    { rewrite run_eq. unfold indexed. by rewrite Hy, Hpop. }
    destruct (prev_ok_bound i j2len j0 Hprev) as [Hk1 Hk2].
    apply IH; [done | done |].
    set (k := Difflib.j2len_prev j2len j0 + 1).
    assert (Hki : k ≤ run a i) by (unfold k; lia).
    assert (Hkj : k ≤ run a j0) by (unfold k; lia).
    assert (Hkeq : j0 = i → k = run a i).
    { intros ->. unfold k. destruct Hprev as [_ ->]. lia. }
    unfold row_inv. split_and!.
    + destruct (best.2 <? k) eqn:E; [|done]. simpl.
      apply Nat.ltb_lt in E.
      destruct (decide (j0 < i)) as [Hlt0|Hge].
      { specialize (Hbelow _ Hlt0). lia. }
      destruct (decide (i < j0)) as [Hgt|Hle].
      { specialize (Hat Hgt). lia. }
      lia.
    + intros i' Hi'. destruct (best.2 <? k) eqn:E; simpl; [|by apply Hbelow].
      apply Nat.ltb_lt in E. specialize (Hbelow _ Hi'). lia.
    + intros Hi0. destruct (best.2 <? k) eqn:E; simpl.
      * apply Nat.ltb_lt in E.
        destruct (decide (j0 = i)) as [Heq|Hneq]; [rewrite (Hkeq Heq); lia|].
        assert (i < j0) as Hgt by lia. specialize (Hat Hgt). lia.
      * apply Nat.ltb_ge in E.
        destruct (decide (j0 = i)) as [Heq|Hneq]; [rewrite <- (Hkeq Heq); lia|].
        apply Hat. lia.
    + intros j k0. rewrite lookup_insert. case_decide as Hj0.
      * intros [= <-]. subst j. lia.
      * by apply Hnew.
    + intros Hi0. rewrite lookup_insert. case_decide as Hj0.
      * by rewrite (Hkeq Hj0).
      * apply Hnewi. lia.
  - apply IH; [done | done |].
    assert (j0 ≠ i) as Hji.
    { intros ->. rewrite Hx in Hy. by injection Hy as ->. }
    unfold row_inv. split_and!; [done | done | | done |].
    + intros ?. apply Hat. lia.
    + intros ?. apply Hnewi. lia.
Qed.

Lemma scan_rows_diag n i best j2len :
  i + n ≤ length a →
  best.1.1 = best.1.2 →
  (∀ i', i' < i → run a i' ≤ best.2) →
  prev_ok a i j2len →
  let r := Difflib.scan_rows a a (seq i n) 0 (length a) best j2len in
  r.1.1 = r.1.2.
Proof.
  revert i best j2len.
  induction n as [|n IH]; intros i best j2len Hlen Hdiag Hbelow Hprev; simpl; [done|].
  destruct (lookup_lt_is_Some_2 a i) as [x Hx]; [lia|].
  rewrite Hx. unfold Difflib.b2j_get.
  destruct (Difflib.popular a x) eqn:Hpop.
  - simpl. apply IH; [lia | done | |].
    + intros i' Hi'. destruct (decide (i' = i)) as [->|Hne]; [|apply Hbelow; lia].
      rewrite run_eq. unfold indexed. rewrite Hx, Hpop. simpl. lia.
    + split; [intros j k; by rewrite lookup_empty|].
      simpl. rewrite lookup_empty. simpl.
      rewrite run_eq. unfold indexed. by rewrite Hx, Hpop.
  - pose proof (scan_row_diag i x j2len a 0 best ∅ Hx Hpop) as Hrow.
    destruct (Difflib.scan_row i 0 (length a) j2len _ best ∅) as [best' new].
    simpl in Hrow.
    destruct Hrow as (Hdiag' & Hbelow' & Hat' & Hnew' & Hnewi').
    { by exists []. }
    { done. }
    { unfold row_inv. split_and!; [done | done | lia | | lia].
      intros j k. by rewrite lookup_empty. }
    apply IH; [lia | done | |].
    + intros i' Hi'. destruct (decide (i' = i)) as [->|Hne]; [|apply Hbelow'; lia].
      apply Hat'. lia.
    + split; [exact Hnew'|].
      simpl. rewrite Hnewi'; [done | lia].
Qed.

Lemma same_at_self i : i < length a → Difflib.same_at a a i i = true.
Proof.
  intros Hi. unfold Difflib.same_at.
  destruct (lookup_lt_is_Some_2 a i Hi) as [x ->]. by apply bool_decide_eq_true.
Qed.

Lemma extend_back_self d s :
  d ≤ length a → Difflib.extend_back a a 0 0 d d s = (0, 0, s + d).
Proof.
  revert s. induction d as [|d IH]; intros s Hd; simpl.
  - by rewrite Nat.add_0_r.
  - rewrite same_at_self by lia. simpl. rewrite IH by lia. f_equal. lia.
Qed.

Lemma extend_forward_self fuel s :
  s + fuel = length a →
  Difflib.extend_forward a a fuel (length a) (length a) 0 0 s = length a.
Proof.
  revert s. induction fuel as [|fuel IH]; intros s Hs; simpl; [lia|].
  assert ((s <? length a) = true) as -> by (apply Nat.ltb_lt; lia).
  rewrite same_at_self by lia. simpl. apply IH. lia.
Qed.

Lemma find_longest_match_self :
  Difflib.find_longest_match a a 0 (length a) 0 (length a) = (0, 0, length a).
Proof.
  unfold Difflib.find_longest_match.
  pose proof (scan_rows_in a a 0 (length a) 0 (length a) (length a - 0) 0 (0, 0, 0) ∅)
    as Hin.
  pose proof (scan_rows_diag (length a - 0) 0 (0, 0, 0) ∅) as Hdiag.
  destruct (Difflib.scan_rows a a _ 0 (length a) (0, 0, 0) ∅) as [[d d'] s].
  simpl in Hdiag. rewrite <- Hdiag.
  - destruct Hin as (_ & Hend & _); [lia | lia | | |].
    + intros j k. by rewrite lookup_empty.
    + unfold block_in; simpl. lia.
    + simpl in Hend. rewrite extend_back_self by lia.
      rewrite extend_forward_self; [done | lia].
  - lia.
  - done.
  - intros i' Hi'. lia.
  - split; [intros j k; by rewrite lookup_empty | done].
Qed.

Lemma matches_self : Difflib.matches a a = length a.
Proof.
  unfold Difflib.matches, Difflib.matching_blocks.
  replace (2 * length a + 1) with (S (2 * length a)) by lia.
  cbn [Difflib.blocks_loop]. rewrite find_longest_match_self.
  destruct (length a =? 0) eqn:E.
  - apply Nat.eqb_eq in E. destruct (2 * length a); simpl; lia.
  - rewrite Nat.ltb_irrefl. simpl.
    destruct (length a + (length a + 0)); simpl; lia.
Qed.

(** [SequenceMatcher(None, a, a).ratio()] is [1.0]. *)
Lemma ratio_self : (Difflib.ratio a a == 1)%Q.
Proof.
  unfold Difflib.ratio. rewrite matches_self.
  destruct (length a + length a =? 0) eqn:E; [done|].
  apply Nat.eqb_neq in E.
  unfold Qeq. simpl Qnum. simpl Qden.
  rewrite Z.mul_1_r, Z.mul_1_l.
  rewrite <- positive_nat_Z, Nat2Pos.id by done.
  f_equal. lia.
Qed.

End SequenceMatcher_self.

(** ** [difflib]: the ratio is between 0 and 1 *)

Section SequenceMatcher_ratio.
Context {A : Type} `{EqDecision A}.

Lemma ratio_bounds (a b : list A) : (0 <= Difflib.ratio a b)%Q ∧ (Difflib.ratio a b <= 1)%Q.
Proof.
  unfold Difflib.ratio.
  destruct (length a + length b =? 0) eqn:E; [done|].
  apply Nat.eqb_neq in E.
  destruct (matches_le a b) as [Ha Hb].
  unfold Qle. simpl Qnum. simpl Qden.
  rewrite <- positive_nat_Z, Nat2Pos.id by done.
  split; lia.
Qed.

End SequenceMatcher_ratio.

(** ** Truth values of strings *)

Lemma normalize_company_name_truthy name :
  str_truthy (normalize_company_name name) = true → str_truthy name = true.
Proof. unfold normalize_company_name. by destruct name. Qed.

Lemma str_truthy_false s : str_truthy s = false ↔ s = "".
Proof. by destruct s. Qed.

Lemma str_truthy_true s : str_truthy s = true ↔ s ≠ "".
Proof. by destruct s. Qed.

(** ** [extract_domain_from_url]: when the result is the empty string *)

Lemma startswith_split s p :
  PyStr.startswith s p = true → s = p +:+ PyStr.drop (String.length p) s.
Proof.
  revert s. induction p as [|a p IH]; intros s Hs; simpl in *; [reflexivity|].
  destruct s as [|b s]; simpl in *; [done|].
  destruct (Ascii.eqb a b) eqn:E; [|done].
  apply Ascii.eqb_eq in E as ->. exact (f_equal (String b) (IH s Hs)).
Qed.

Lemma append_empty_r s : s +:+ "" = s.
Proof.
  induction s as [|c s IH]; [reflexivity|].
  exact (f_equal (String c) IH).
Qed.

(** Cutting the first matching prefix leaves nothing only when the string is
    empty or is itself one of the prefixes. *)
Lemma strip_first_prefix_empty prefixes domain :
  strip_first_prefix prefixes domain = "" → domain = "" ∨ domain ∈ prefixes.
Proof.
  induction prefixes as [|p prefixes IH]; simpl; [by left|].
  destruct (PyStr.startswith domain p) eqn:E.
  - intros Hcut. right. apply startswith_split in E.
    rewrite Hcut, append_empty_r in E. subst. apply list_elem_of_here.
  - intros Hrest. destruct (IH Hrest) as [?|?]; [by left|].
    right. by apply list_elem_of_further.
Qed.

Lemma strip_first_prefix_of_prefix domain :
  domain = "" ∨ domain ∈ domain_prefixes → strip_first_prefix domain_prefixes domain = "".
Proof.
  intros [->|Hin]; [done|].
  unfold domain_prefixes in Hin.
  repeat (apply elem_of_cons in Hin as [->|Hin]; [done|]).
  by apply elem_of_nil in Hin.
Qed.

Section Extract_domain.
Variable bracketed_netloc_ok : string -> bool.

(** C7, as amended: the result is null exactly for an empty input and for a
    URL that [urlparse] rejects; otherwise it is the lower-cased network
    location without its first known prefix, and that is the empty string
    exactly when the network location is empty or is one of the prefixes. *)
Theorem extract_domain_from_url_null_or_domain url :
  match extract_domain_from_url bracketed_netloc_ok url with
  | None =>
      truthy url = false
      ∨ UrlParse.netloc bracketed_netloc_ok (add_protocol (str_of url)) = Raise ValueError
  | Some domain =>
      truthy url = true
      ∧ ∃ parsed_netloc,
          UrlParse.netloc bracketed_netloc_ok (add_protocol (str_of url)) = Ok parsed_netloc
          ∧ domain = strip_first_prefix domain_prefixes (PyStr.lower parsed_netloc)
          ∧ (domain = "" ↔
               PyStr.lower parsed_netloc = ""
               ∨ PyStr.lower parsed_netloc ∈ domain_prefixes)
  end.
Proof.
  destruct url as [|url]; [by left|].
  unfold extract_domain_from_url, truthy, str_of.
  destruct (str_truthy url) eqn:Hurl; cbn [negb]; [|by left].
  destruct (UrlParse.netloc bracketed_netloc_ok (add_protocol url)) as [n|e] eqn:Hn.
  - split; [done|]. exists n. split_and!; [done | done |].
    split; [apply strip_first_prefix_empty | apply strip_first_prefix_of_prefix].
  - right. f_equal. revert Hn. unfold UrlParse.netloc.
    repeat match goal with
           | |- context [if ?c then _ else _] => destruct c
           end; by intros [= <-].
Qed.

End Extract_domain.

(** C7 as stated fails: a URL without a host, and a host that is just a
    known prefix, both give the empty string. *)
Lemma extract_domain_from_url_empty_string :
  extract_domain_from_url any_bracketed_host (PyStr "http://") = Some ""
  ∧ extract_domain_from_url any_bracketed_host (PyStr "https://www.") = Some "".
Proof. split; vm_compute; reflexivity. Qed.

(** ** [normalize_company_name]: the shape of a normalized name *)

Lemma lower_char_lowered c : is_lowered (PyStr.lower_char c) = true.
Proof. by destruct c as [[] [] [] [] [] [] [] []]. Qed.

Lemma sub_char_word_or_space c :
  is_lowered c = true →
  is_word_or_space (if PyStr.is_alnum c || PyStr.is_space c then c else " "%char) = true.
Proof. by destruct c as [[] [] [] [] [] [] [] []]. Qed.

Lemma word_or_space_fixed c :
  is_word_or_space c = true →
  PyStr.lower_char c = c ∧ PyStr.is_alnum c || PyStr.is_space c = true.
Proof. by destruct c as [[] [] [] [] [] [] [] []]. Qed.

Lemma lower_alnum_not_space c :
  is_lower_alnum c = true → PyStr.is_space c = false ∧ is_word_or_space c = true.
Proof. by destruct c as [[] [] [] [] [] [] [] []]. Qed.

Lemma word_or_space_cases c :
  is_word_or_space c = true → PyStr.is_space c = false → is_lower_alnum c = true.
Proof. unfold is_word_or_space. by destruct (is_lower_alnum c), (PyStr.is_space c). Qed.

Lemma all_chars_cons p c s : PyStr.all_chars p (String c s) = p c && PyStr.all_chars p s.
Proof. done. Qed.

Lemma all_chars_app p s1 s2 :
  PyStr.all_chars p (s1 +:+ s2) = PyStr.all_chars p s1 && PyStr.all_chars p s2.
Proof.
  induction s1 as [|c s1 IH]; [done|].
  change (String c s1 +:+ s2) with (String c (s1 +:+ s2)).
  rewrite !all_chars_cons, IH. by rewrite andb_assoc.
Qed.

Lemma all_chars_of_list p l :
  PyStr.all_chars p (String.string_of_list_ascii l) = forallb p l.
Proof. induction l as [|c l IH]; simpl; [done|]. by rewrite IH. Qed.

Lemma all_chars_take p n s : PyStr.all_chars p s = true → PyStr.all_chars p (PyStr.take n s) = true.
Proof.
  revert n. induction s as [|c s IH]; intros [|n] Hs; simpl in *; try done.
  apply andb_prop in Hs as [-> Hs]. by apply IH.
Qed.

Lemma all_chars_lower s : PyStr.all_chars is_lowered (PyStr.lower s) = true.
Proof. induction s as [|c s IH]; simpl; [done|]. by rewrite lower_char_lowered, IH. Qed.

Lemma all_chars_sub s :
  PyStr.all_chars is_lowered s = true →
  PyStr.all_chars is_word_or_space (PyStr.sub_special_by_space s) = true.
Proof.
  induction s as [|c s IH]; simpl; [done|]. intros Hs.
  apply andb_prop in Hs as [Hc Hs]. by rewrite (sub_char_word_or_space _ Hc), IH.
Qed.

Lemma strip_first_suffix_chars p suffixes s :
  PyStr.all_chars p s = true → PyStr.all_chars p (strip_first_suffix suffixes s) = true.
Proof.
  induction suffixes as [|x suffixes IH]; simpl; [done|]. intros Hs.
  destruct (PyStr.endswith s x); [by apply all_chars_take | by apply IH].
Qed.

Lemma strip_business_suffixes_chars p s :
  PyStr.all_chars p s = true → PyStr.all_chars p (strip_business_suffixes s) = true.
Proof.
  unfold strip_business_suffixes. generalize business_suffixes. intros l. revert s.
  induction l as [|x l IH]; intros s Hs; cbn [foldl]; [done|].
  by apply IH, strip_first_suffix_chars.
Qed.

(** Strings of word characters and whitespace are fixed by [lower] and by
    the substitution of special characters. *)
Lemma lower_fixed s : PyStr.all_chars is_word_or_space s = true → PyStr.lower s = s.
Proof.
  induction s as [|c s IH]; simpl; [done|]. intros Hs.
  apply andb_prop in Hs as [Hc Hs].
  destruct (word_or_space_fixed _ Hc) as [-> _]. by rewrite IH.
Qed.

Lemma sub_fixed s :
  PyStr.all_chars is_word_or_space s = true → PyStr.sub_special_by_space s = s.
Proof.
  induction s as [|c s IH]; simpl; [done|]. intros Hs.
  apply andb_prop in Hs as [Hc Hs].
  destruct (word_or_space_fixed _ Hc) as [_ ->]. by rewrite IH.
Qed.

Lemma split_from_words cur s :
  forallb is_lower_alnum cur = true →
  PyStr.all_chars is_word_or_space s = true →
  Forall word (PyStr.split_from cur s).
Proof.
  revert cur. induction s as [|c s IH]; intros cur Hcur Hs.
  - simpl. destruct cur as [|c cur]; [done|].
    apply Forall_singleton. split.
    + simpl. destruct (rev cur); simpl; discriminate.
    + rewrite all_chars_of_list, forallb_forall. intros x Hx.
      apply in_rev in Hx. revert x Hx. by apply forallb_forall.
  - cbn [PyStr.split_from]. rewrite all_chars_cons in Hs.
    apply andb_prop in Hs as [Hc Hs].
    destruct (PyStr.is_space c) eqn:Hsp.
    + apply Forall_app. split; [|by apply IH].
      destruct cur as [|c0 cur]; [done|].
      apply Forall_singleton. split.
      * simpl. destruct (rev cur); simpl; discriminate.
      * rewrite all_chars_of_list, forallb_forall. intros x Hx.
        apply in_rev in Hx. revert x Hx. by apply forallb_forall.
    + apply IH; [|done]. simpl. by rewrite (word_or_space_cases _ Hc Hsp).
Qed.

(** [split] undoes [" ".join] on words. *)

Lemma split_from_word cur w s :
  PyStr.all_chars is_lower_alnum w = true →
  PyStr.split_from cur (w +:+ s)
  = PyStr.split_from (rev (String.list_ascii_of_string w) ++ cur) s.
Proof.
  revert cur. induction w as [|c w IH]; intros cur Hw; [done|].
  rewrite all_chars_cons in Hw. apply andb_prop in Hw as [Hc Hw].
  change (String c w +:+ s) with (String c (w +:+ s)).
  cbn [PyStr.split_from].
  destruct (lower_alnum_not_space _ Hc) as [-> _].
  rewrite IH by done. simpl. by rewrite <- app_assoc.
Qed.

Lemma flush_word w :
  w ≠ "" →
  match rev (String.list_ascii_of_string w) ++ [] with
  | [] => []
  | _ => [String.string_of_list_ascii (rev (rev (String.list_ascii_of_string w) ++ []))]
  end = [w].
Proof.
  intros Hw. rewrite app_nil_r, rev_involutive, String.string_of_list_ascii_of_string.
  destruct w as [|c w]; [done|]. simpl. by destruct (rev _ ++ [c]) eqn:E;
    [apply app_eq_nil in E as [_ [=]]|].
Qed.

Lemma split_join_words ws :
  Forall word ws → PyStr.split (PyStr.join " " ws) = ws.
Proof.
  unfold PyStr.split, PyStr.join.
  induction ws as [|w ws IH]; intros Hws; [done|].
  apply Forall_cons in Hws as [[Hne Hw] Hws].
  destruct ws as [|w' ws].
  - simpl. rewrite <- (append_empty_r w) at 1.
    rewrite split_from_word by done. simpl. by apply flush_word.
  - change (String.concat " " (w :: w' :: ws))
      with (w +:+ String " " (String.concat " " (w' :: ws))).
    rewrite split_from_word by done. cbn [PyStr.split_from].
    change (PyStr.is_space " ") with true. cbn iota.
    rewrite flush_word by done. rewrite IH by done. done.
Qed.

Lemma join_words_chars ws :
  Forall word ws → PyStr.all_chars is_word_or_space (PyStr.join " " ws) = true.
Proof.
  unfold PyStr.join. induction ws as [|w ws IH]; intros Hws; [done|].
  apply Forall_cons in Hws as [[_ Hw] Hws].
  assert (Hw' : PyStr.all_chars is_word_or_space w = true).
  { clear -Hw. induction w as [|c w IH]; [done|].
    rewrite all_chars_cons in *. apply andb_prop in Hw as [Hc Hw].
    destruct (lower_alnum_not_space _ Hc) as [_ ->]. by apply IH. }
  destruct ws as [|w' ws]; [done|].
  change (String.concat " " (w :: w' :: ws))
    with (w +:+ String " " (String.concat " " (w' :: ws))).
  rewrite all_chars_app, all_chars_cons, Hw', IH by done. done.
Qed.

(** A normalized name is a list of words joined by single spaces. *)
Lemma normalize_company_name_words name :
  ∃ ws, Forall word ws ∧ normalize_company_name name = PyStr.join " " ws.
Proof.
  unfold normalize_company_name.
  destruct (str_truthy name); cbn [negb]; [|by exists []].
  eexists. split; [|reflexivity].
  apply split_from_words; [done|].
  apply all_chars_sub, strip_business_suffixes_chars, all_chars_lower.
Qed.

(** A normalized name without a removable suffix is normalized to itself. *)
Lemma normalize_company_name_idempotent_when_stripped name :
  strip_business_suffixes (normalize_company_name name) = normalize_company_name name →
  normalize_company_name (normalize_company_name name) = normalize_company_name name.
Proof.
  destruct (normalize_company_name_words name) as (ws & Hws & ->). intros Hstrip.
  unfold normalize_company_name at 1.
  destruct (str_truthy (PyStr.join " " ws)) eqn:Ht; cbn [negb].
  - rewrite (lower_fixed _ (join_words_chars _ Hws)), Hstrip.
    rewrite (sub_fixed _ (join_words_chars _ Hws)).
    by rewrite split_join_words.
  - symmetry. by apply str_truthy_false.
Qed.

(** C3 as stated fails: "Acme Inc Inc" normalizes to "acme inc", which
    normalizes to "acme". *)
Lemma normalize_company_name_not_idempotent :
  normalize_company_name "Acme Inc Inc" = "acme inc"
  ∧ normalize_company_name (normalize_company_name "Acme Inc Inc") = "acme"
  ∧ String.eqb (normalize_company_name (normalize_company_name "Acme Inc Inc"))
               (normalize_company_name "Acme Inc Inc") = false.
Proof. split_and!; vm_compute; reflexivity. Qed.

(** ** [normalize_company_name]: a removable suffix makes the name shorter *)

Lemma length_append s1 s2 :
  String.length (s1 +:+ s2) = String.length s1 + String.length s2.
Proof.
  induction s1 as [|c s1 IH]; [reflexivity|].
  change (String c s1 +:+ s2) with (String c (s1 +:+ s2)). simpl. by rewrite IH.
Qed.

Lemma length_of_list l : String.length (String.string_of_list_ascii l) = length l.
Proof. induction l as [|c l IH]; simpl; [done|]. by rewrite IH. Qed.

Lemma length_take n s : String.length (PyStr.take n s) = n `min` String.length s.
Proof.
  revert n. induction s as [|c s IH]; intros [|n]; simpl; try done. by rewrite IH.
Qed.

Lemma length_lower s : String.length (PyStr.lower s) = String.length s.
Proof. induction s as [|c s IH]; simpl; [done|]. by rewrite IH. Qed.

Lemma length_sub s : String.length (PyStr.sub_special_by_space s) = String.length s.
Proof. induction s as [|c s IH]; simpl; [done|]. by rewrite IH. Qed.

(** Cutting a suffix off leaves the string as it is or makes it shorter. *)
Lemma strip_first_suffix_shorter suffixes s :
  Forall (λ p, 0 < String.length p) suffixes →
  strip_first_suffix suffixes s = s
  ∨ String.length (strip_first_suffix suffixes s) < String.length s.
Proof.
  induction suffixes as [|p suffixes IH]; intros Hpos; simpl; [by left|].
  apply Forall_cons in Hpos as [Hp Hpos].
  destruct (PyStr.endswith s p) eqn:E; [|by apply IH].
  right. unfold PyStr.endswith in E. apply andb_prop in E as [E _].
  apply Nat.leb_le in E. unfold PyStr.drop_last. rewrite length_take. lia.
Qed.

Lemma patterns_positive suffix : Forall (λ p, 0 < String.length p) (patterns suffix).
Proof.
  unfold patterns.
  repeat (apply List.Forall_cons; [rewrite length_append; simpl; lia|]).
  apply List.Forall_nil.
Qed.

Lemma strip_business_suffixes_shorter s :
  strip_business_suffixes s = s
  ∨ String.length (strip_business_suffixes s) < String.length s.
Proof.
  unfold strip_business_suffixes. generalize business_suffixes. intros l. revert s.
  induction l as [|x l IH]; intros s; cbn [foldl]; [by left|].
  destruct (strip_first_suffix_shorter (patterns x) s (patterns_positive x)) as [->|Hlt].
  - apply IH.
  - right. destruct (IH (strip_first_suffix (patterns x) s)) as [->|?]; lia.
Qed.

Lemma length_join_cons w ws :
  String.length (PyStr.join " " (w :: ws))
  ≤ String.length w + 1 + String.length (PyStr.join " " ws).
Proof.
  unfold PyStr.join. destruct ws as [|w' ws]; [simpl; lia|].
  change (String.concat " " (w :: w' :: ws))
    with (w +:+ String " " (String.concat " " (w' :: ws))).
  rewrite length_append. simpl. lia.
Qed.

(** Splitting and joining does not make a string longer. *)
Lemma length_join_split_from cur s :
  String.length (PyStr.join " " (PyStr.split_from cur s)) ≤ length cur + String.length s.
Proof.
  revert cur. induction s as [|c s IH]; intros cur.
  - destruct cur as [|c0 cur]; [simpl; lia|].
    cbn [PyStr.split_from PyStr.join String.concat].
    rewrite length_of_list, length_rev. simpl. lia.
  - cbn [PyStr.split_from]. destruct (PyStr.is_space c).
    + destruct cur as [|c0 cur].
      * specialize (IH []). simpl in *. lia.
      * cbn [app]. etrans; [apply length_join_cons|].
        rewrite length_of_list, length_rev. specialize (IH []). simpl in *. lia.
    + specialize (IH (c :: cur)). simpl in *. lia.
Qed.

Lemma length_normalize_company_name name :
  String.length (normalize_company_name name)
  ≤ String.length (strip_business_suffixes (PyStr.lower name)).
Proof.
  destruct name as [|c name]; [apply Nat.le_0_l|].
  unfold normalize_company_name. cbn [str_truthy negb].
  etrans; [apply length_join_split_from|]. rewrite length_sub. cbn [length]. lia.
Qed.

(** C3, as amended: normalizing a normalized name returns it unchanged
    exactly when the suffix loop leaves the normalized name as it is, that
    is, when the normalized name ends in no separator followed by a legal
    suffix that the loop would cut off. *)
Theorem normalize_company_name_idempotent_iff name :
  normalize_company_name (normalize_company_name name) = normalize_company_name name
  ↔ strip_business_suffixes (normalize_company_name name) = normalize_company_name name.
Proof.
  split; [|apply normalize_company_name_idempotent_when_stripped].
  intros Hidem.
  destruct (strip_business_suffixes_shorter (normalize_company_name name)) as [?|Hlt];
    [done|].
  pose proof (length_normalize_company_name (normalize_company_name name)) as Hlen.
  destruct (normalize_company_name_words name) as (ws & Hws & Hjoin).
  rewrite Hjoin in Hlen at 2.
  rewrite (lower_fixed _ (join_words_chars _ Hws)), <- Hjoin, Hidem in Hlen. lia.
Qed.

Lemma normalize_company_name_idempotent_iff_witness :
  normalize_company_name (normalize_company_name "Acme Rocket, Inc")
  = normalize_company_name "Acme Rocket, Inc".
Proof.
  apply (proj2 (normalize_company_name_idempotent_iff "Acme Rocket, Inc")).
  vm_compute. reflexivity.
Defined.

(** ** [compute_fuzzy_similarity]: order of the arguments, 0 and 1 *)

(** C5, as amended: the similarity is 0 when one of the two strings
    normalizes to the empty string, and 1 when both normalize to the same
    non-empty string. *)
Theorem compute_fuzzy_similarity_zero_and_one str1 str2 :
  (normalize_company_name str1 = "" ∨ normalize_company_name str2 = "" →
   (compute_fuzzy_similarity str1 str2 == 0)%Q)
  ∧ (normalize_company_name str1 = normalize_company_name str2 →
     normalize_company_name str1 ≠ "" →
     (compute_fuzzy_similarity str1 str2 == 1)%Q).
Proof.
  unfold compute_fuzzy_similarity. split.
  - intros Hempty.
    destruct (negb (str_truthy str1) || negb (str_truthy str2)); [done|].
    assert (negb (str_truthy (normalize_company_name str1))
            || negb (str_truthy (normalize_company_name str2)) = true) as ->; [|done].
    destruct Hempty as [-> | ->]; simpl; [done|]. apply orb_true_r.
  - intros Hsame Hne. apply str_truthy_true in Hne as Ht1.
    assert (Ht2 : str_truthy (normalize_company_name str2) = true) by by rewrite <- Hsame.
    rewrite (normalize_company_name_truthy _ Ht1), (normalize_company_name_truthy _ Ht2).
    rewrite Ht1, Ht2. simpl. rewrite Hsame. apply ratio_self.
Qed.

Lemma compute_fuzzy_similarity_zero_and_one_witness :
  (compute_fuzzy_similarity "Acme" "!!!" == 0)%Q
  ∧ (compute_fuzzy_similarity "Acme Corp" "ACME, corp" == 1)%Q.
Proof.
  split.
  - apply (proj1 (compute_fuzzy_similarity_zero_and_one "Acme" "!!!")).
    right. vm_compute. reflexivity.
  - apply (proj2 (compute_fuzzy_similarity_zero_and_one "Acme Corp" "ACME, corp")).
    + vm_compute. reflexivity.
    + vm_compute. discriminate.
Defined.

(** C5 as stated fails: the two orders of "tide" and "diet" give 0.25 and
    0.5. *)
Lemma compute_fuzzy_similarity_not_symmetric :
  Qeq_bool (compute_fuzzy_similarity "tide" "diet")
           (compute_fuzzy_similarity "diet" "tide") = false
  ∧ (compute_fuzzy_similarity "tide" "diet" == 1 # 4)%Q
  ∧ (compute_fuzzy_similarity "diet" "tide" == 1 # 2)%Q.
Proof. split_and!; vm_compute; reflexivity. Qed.

(** ** The three signals are percentages *)

Section Signal_bounds.
Variable bracketed_netloc_ok : string -> bool.

Lemma compute_fuzzy_similarity_bounds str1 str2 :
  (0 <= compute_fuzzy_similarity str1 str2)%Q
  ∧ (compute_fuzzy_similarity str1 str2 <= 1)%Q.
Proof.
  unfold compute_fuzzy_similarity.
  destruct (negb (str_truthy str1) || negb (str_truthy str2)); [done|].
  destruct (negb (str_truthy (normalize_company_name str1))
            || negb (str_truthy (normalize_company_name str2))); [done|].
  apply ratio_bounds.
Qed.

Lemma percent_bounds (similarity : Q) :
  (0 <= similarity)%Q ∧ (similarity <= 1)%Q →
  (0 <= similarity * 100)%Q ∧ (similarity * 100 <= 100)%Q.
Proof. intros [? ?]. split; lra. Qed.

Lemma compute_website_match_bounds customer_website shell_zi_website :
  (0 <= (compute_website_match bracketed_netloc_ok customer_website shell_zi_website).1)%Q
  ∧ ((compute_website_match bracketed_netloc_ok customer_website shell_zi_website).1 <= 100)%Q.
Proof.
  unfold compute_website_match.
  repeat match goal with
         | |- context [if ?c then _ else _] => destruct c; [done|]
         | |- context [match nonempty ?x with _ => _ end] => destruct (nonempty x); [|done]
         | |- context [match nonempty ?x with _ => _ end] => destruct (nonempty x); try done
         end.
  simpl. apply percent_bounds, compute_fuzzy_similarity_bounds.
Qed.

Lemma compute_name_match_bounds customer_name shell_zi_name :
  (0 <= (compute_name_match customer_name shell_zi_name).1)%Q
  ∧ ((compute_name_match customer_name shell_zi_name).1 <= 100)%Q.
Proof.
  unfold compute_name_match.
  destruct customer_name as [|cn], shell_zi_name as [|sn]; try done;
    repeat match goal with
           | |- context [if ?c then _ else _] => destruct c; [done|]
           end; try done.
  simpl. apply percent_bounds, compute_fuzzy_similarity_bounds.
Qed.

Lemma compare_field_score label points cv sv (t : tally) :
  (0 <= points)%Q →
  (t.1.1 <= (compare_field label points cv sv t).1.1)%Q
  ∧ ((compare_field label points cv sv t).1.1 <= t.1.1 + points)%Q.
Proof.
  intros Hp. destruct t as [[score matches] mismatches]. unfold compare_field.
  destruct (str_truthy cv && str_truthy sv); [|simpl; split; lra].
  destruct (String.eqb cv sv); simpl; split; lra.
Qed.

Lemma compare_postal_score cp sp (t : tally) :
  (t.1.1 <= (compare_postal cp sp t).1.1)%Q
  ∧ ((compare_postal cp sp t).1.1 <= t.1.1 + 10)%Q.
Proof.
  destruct t as [[score matches] mismatches]. unfold compare_postal.
  destruct (str_truthy cp && str_truthy sp); [|simpl; split; lra].
  destruct (String.eqb cp sp); simpl; split; lra.
Qed.

Local Arguments compare_field : simpl never.
Local Arguments compare_postal : simpl never.

Lemma address_tally_bounds customer_data shell_data t :
  address_tally customer_data shell_data = Ok t →
  (0 <= t.1.1)%Q ∧ (t.1.1 <= 100)%Q.
Proof.
  unfold address_tally. intros Hrun.
  repeat match type of Hrun with
         | context [strip_lower ?f] =>
             destruct (strip_lower f) as [?v|]; simpl in Hrun; [|done]
         end.
  injection Hrun as <-.
  pose proof (compare_field_score "Country" 30 v v0 (0%Q, [], [])) as H1.
  remember (compare_field "Country" 30 v v0 (0%Q, [], [])) as t1 eqn:E1 in *.
  pose proof (compare_field_score "State" 30 v1 v2 t1) as H2.
  remember (compare_field "State" 30 v1 v2 t1) as t2 eqn:E2 in *.
  pose proof (compare_field_score "City" 30 v3 v4 t2) as H3.
  remember (compare_field "City" 30 v3 v4 t2) as t3 eqn:E3 in *.
  pose proof (compare_postal_score v5 v6 t3) as H4.
  clear E1 E2 E3. simpl in H1.
  destruct H1 as [? ?]; [lra|]. destruct H2 as [? ?]; [lra|].
  destruct H3 as [? ?]; [lra|]. destruct H4 as [? ?].
  split; lra.
Qed.

Lemma compute_address_consistency_score_bounds customer_data shell_data score explanation :
  compute_address_consistency_score customer_data shell_data = Ok (score, explanation) →
  (0 <= score)%Q ∧ (score <= 100)%Q.
Proof.
  unfold compute_address_consistency_score. intros Hrun.
  destruct (address_tally customer_data shell_data) as [[[s m] mm]|] eqn:E; [|done].
  simpl in Hrun. injection Hrun as <- _.
  by apply (address_tally_bounds _ _ _ E).
Qed.

End Signal_bounds.

(** ** The combination rule of [compute_overall_similarity] *)

Section Overall_similarity.
Variable bracketed_netloc_ok : string -> bool.

(** The parts of a result of [compute_overall_similarity]. *)
Lemma compute_overall_similarity_parts customer shell r :
  compute_overall_similarity bracketed_netloc_ok customer shell = Ok r →
  Scores.website_match r =
    (compute_website_match bracketed_netloc_ok
       (dict_get (Customer.Website customer) (PyStr ""))
       (dict_get (Shell.ZI_Website__c shell) (PyStr ""))).1
  ∧ Scores.name_match r =
      (compute_name_match (PyStr (Customer.Name customer))
         (dict_get (Shell.ZI_Company_Name__c shell) (PyStr ""))).1
  ∧ (∃ explanation, compute_address_consistency_score customer shell
                     = Ok (Scores.address_consistency r, explanation))
  ∧ Scores.overall_score r =
      Qmin ((if truthy (dict_get (Customer.Website customer) PyNone)
                && truthy (dict_get (Shell.ZI_Website__c shell) PyNone)
             then Scores.website_match r * (6 # 10) + Scores.name_match r * (3 # 10)
             else if str_truthy (Customer.Name customer)
                     && truthy (dict_get (Shell.ZI_Company_Name__c shell) PyNone)
             then Scores.name_match r * (6 # 10) + 0
             else Scores.address_consistency r * (6 # 10) / 100 + 0)
            + Scores.address_consistency r * (1 # 10) / 100) 100.
Proof.
  unfold compute_overall_similarity. intros Hrun.
  destruct (compute_website_match _ _ _) as [ws we].
  destruct (compute_name_match _ _) as [ns ne].
  destruct (compute_address_consistency_score customer shell) as [[ascore ae]|];
    simpl in Hrun; [|done].
  destruct (truthy (dict_get (Customer.Website customer) PyNone)
            && truthy (dict_get (Shell.ZI_Website__c shell) PyNone));
    [|destruct (str_truthy (Customer.Name customer)
                && truthy (dict_get (Shell.ZI_Company_Name__c shell) PyNone))];
    injection Hrun as <-; simpl; split_and!; eauto.
Qed.

(** The three signals of a result are percentages. *)
Lemma compute_overall_similarity_signals customer shell r :
  compute_overall_similarity bracketed_netloc_ok customer shell = Ok r →
  ((0 <= Scores.website_match r)%Q ∧ (Scores.website_match r <= 100)%Q)
  ∧ ((0 <= Scores.name_match r)%Q ∧ (Scores.name_match r <= 100)%Q)
  ∧ ((0 <= Scores.address_consistency r)%Q ∧ (Scores.address_consistency r <= 100)%Q).
Proof.
  intros Hrun.
  destruct (compute_overall_similarity_parts _ _ _ Hrun) as (-> & -> & [e He] & _).
  split_and!; try apply compute_website_match_bounds;
    try apply compute_name_match_bounds;
    by apply (compute_address_consistency_score_bounds _ _ _ _ He).
Qed.

(** C4: the overall score follows the three-branch rule in strict precedence:
    with a website on both sides it is 0.6 x website + 0.3 x name, else with a
    name on both sides 0.6 x name, else 0.6 x (address / 100); the geography
    term 0.1 x (address / 100) is added in every branch and the sum is capped
    at 100.  When both sides have a website, whatever the two names are
    changed to, the website branch is the one used. *)
Theorem overall_similarity_precedence_rule customer shell r :
  compute_overall_similarity bracketed_netloc_ok customer shell = Ok r →
  let has_websites :=
    truthy (dict_get (Customer.Website customer) PyNone)
    && truthy (dict_get (Shell.ZI_Website__c shell) PyNone) in
  let has_names :=
    str_truthy (Customer.Name customer)
    && truthy (dict_get (Shell.ZI_Company_Name__c shell) PyNone) in
  let geography (s : Scores.t) := ((1 # 10) * (Scores.address_consistency s / 100))%Q in
  (Scores.overall_score r ==
     Qmin ((if has_websites
            then (6 # 10) * Scores.website_match r + (3 # 10) * Scores.name_match r
            else if has_names then (6 # 10) * Scores.name_match r
            else (6 # 10) * (Scores.address_consistency r / 100))
           + geography r) 100)%Q
  ∧ (has_websites = true →
     ∀ name company_name r',
       compute_overall_similarity bracketed_netloc_ok
         (with_name customer name) (with_company_name shell company_name) = Ok r' →
       Scores.website_match r' = Scores.website_match r
       ∧ (Scores.overall_score r' ==
            Qmin ((6 # 10) * Scores.website_match r' + (3 # 10) * Scores.name_match r'
                  + geography r') 100)%Q).
Proof.
  intros Hrun has_websites has_names geography.
  destruct (compute_overall_similarity_parts _ _ _ Hrun) as (Hw & _ & _ & ->).
  fold has_websites has_names. split.
  - apply Q.min_compat; [|reflexivity]. unfold geography.
    destruct has_websites; [|destruct has_names]; field.
  - intros Hweb name company_name r' Hrun'.
    destruct (compute_overall_similarity_parts _ _ _ Hrun') as (Hw' & _ & _ & ->).
    simpl in *. fold has_websites. rewrite Hweb. split; [by rewrite Hw, Hw'|].
    apply Q.min_compat; [|reflexivity]. unfold geography. field.
Qed.

(** C6: the website, name and address scores of a result, and its overall
    score, all lie between 0 and 100. *)
Theorem overall_similarity_scores_bounded customer shell r :
  compute_overall_similarity bracketed_netloc_ok customer shell = Ok r →
  ((0 <= Scores.website_match r)%Q ∧ (Scores.website_match r <= 100)%Q)
  ∧ ((0 <= Scores.name_match r)%Q ∧ (Scores.name_match r <= 100)%Q)
  ∧ ((0 <= Scores.address_consistency r)%Q ∧ (Scores.address_consistency r <= 100)%Q)
  ∧ ((0 <= Scores.overall_score r)%Q ∧ (Scores.overall_score r <= 100)%Q).
Proof.
  intros Hrun.
  destruct (compute_overall_similarity_signals _ _ _ Hrun)
    as ([Hw0 Hw1] & [Hn0 Hn1] & [Ha0 Ha1]).
  split_and!; try done.
  - destruct (compute_overall_similarity_parts _ _ _ Hrun) as (_ & _ & _ & ->).
    apply Q.min_glb; [|done].
    destruct (_ && _); [|destruct (_ && _)]; percent_as_product; lra.
  - destruct (compute_overall_similarity_parts _ _ _ Hrun) as (_ & _ & _ & ->).
    apply Q.le_min_r.
Qed.

(** C10: the overall score is at most 90.1 = 0.6 x 100 + 0.3 x 100 + 0.1, so
    it is below 100 and equal to the sum before the cap: the cap never lowers
    it. *)
Theorem overall_score_at_most_90_1 customer shell r :
  compute_overall_similarity bracketed_netloc_ok customer shell = Ok r →
  (Scores.overall_score r <= 901 # 10)%Q
  ∧ (Scores.overall_score r < 100)%Q
  ∧ (Scores.overall_score r ==
       (if truthy (dict_get (Customer.Website customer) PyNone)
           && truthy (dict_get (Shell.ZI_Website__c shell) PyNone)
        then (6 # 10) * Scores.website_match r + (3 # 10) * Scores.name_match r
        else if str_truthy (Customer.Name customer)
                && truthy (dict_get (Shell.ZI_Company_Name__c shell) PyNone)
        then (6 # 10) * Scores.name_match r
        else (6 # 10) * (Scores.address_consistency r / 100))
       + (1 # 10) * (Scores.address_consistency r / 100))%Q.
Proof.
  intros Hrun.
  destruct (compute_overall_similarity_signals _ _ _ Hrun)
    as ([Hw0 Hw1] & [Hn0 Hn1] & [Ha0 Ha1]).
  destruct (compute_overall_similarity_parts _ _ _ Hrun) as (_ & _ & _ & ->).
  set (sum := ((if _ && _ then _ else _) + _)%Q).
  assert (Hsum : (sum <= 901 # 10)%Q).
  { unfold sum. destruct (_ && _); [|destruct (_ && _)]; percent_as_product; lra. }
  assert (Hmin : (Qmin sum 100 == sum)%Q) by (apply Q.min_l; lra).
  rewrite Hmin. split_and!; [done | lra |].
  unfold sum. destruct (_ && _); [|destruct (_ && _)]; field.
Qed.

End Overall_similarity.

Lemma overall_similarity_precedence_rule_witness :
  ∃ r, compute_overall_similarity any_bracketed_host acme_customer acme_shell_78702 = Ok r
       ∧ (Scores.overall_score r ==
            Qmin ((6 # 10) * Scores.website_match r + (3 # 10) * Scores.name_match r
                  + (1 # 10) * (Scores.address_consistency r / 100)) 100)%Q.
Proof.
  eexists. split; [vm_compute; reflexivity|].
  refine (proj1 (overall_similarity_precedence_rule any_bracketed_host
                   acme_customer acme_shell_78702 _ _)).
  vm_compute. reflexivity.
Defined.

Lemma overall_similarity_scores_bounded_witness :
  ∃ r, compute_overall_similarity any_bracketed_host acme_customer acme_shell_78702 = Ok r
       ∧ (0 <= Scores.overall_score r)%Q ∧ (Scores.overall_score r <= 100)%Q.
Proof.
  eexists. split; [vm_compute; reflexivity|].
  refine (proj2 (proj2 (proj2 (overall_similarity_scores_bounded any_bracketed_host
                   acme_customer acme_shell_78702 _ _)))).
  vm_compute. reflexivity.
Defined.

Lemma overall_score_at_most_90_1_witness :
  ∃ r, compute_overall_similarity any_bracketed_host acme_customer acme_shell = Ok r
       ∧ (Scores.overall_score r <= 901 # 10)%Q.
Proof.
  eexists. split; [vm_compute; reflexivity|].
  refine (proj1 (overall_score_at_most_90_1 any_bracketed_host
                   acme_customer acme_shell _ _)).
  vm_compute. reflexivity.
Defined.

(** ** The address score: what is listed as a mismatch *)

Section Address_mismatches.

(** Country, state and city: a field that is empty on one side or on both
    changes nothing. *)
Lemma compare_field_one_sided label points customer_value shell_value t :
  str_truthy customer_value && str_truthy shell_value = false →
  compare_field label points customer_value shell_value t = t.
Proof. intros Hone. destruct t as [[? ?] ?]. unfold compare_field. by rewrite Hone. Qed.

(** Country, state and city: two different non-empty values are listed as one
    mismatch and add no points. *)
Lemma compare_field_differ label points customer_value shell_value score matches mismatches :
  str_truthy customer_value && str_truthy shell_value = true →
  String.eqb customer_value shell_value = false →
  compare_field label points customer_value shell_value (score, matches, mismatches)
  = (score, matches,
     mismatches ++ [label +:+ ": " +:+ customer_value +:+ " ≠ " +:+ shell_value]).
Proof. intros Hboth Hne. unfold compare_field. by rewrite Hboth, Hne. Qed.

(** Postal code: two different non-empty values are not listed. *)
Lemma compare_postal_differ customer_postal shell_postal t :
  str_truthy customer_postal && str_truthy shell_postal = true →
  String.eqb customer_postal shell_postal = false →
  compare_postal customer_postal shell_postal t = t.
Proof. intros Hboth Hne. destruct t as [[? ?] ?]. unfold compare_postal. by rewrite Hboth, Hne. Qed.

(** Postal code: a value that is empty on one side or on both is listed as a
    mismatch. *)
Lemma compare_postal_one_sided customer_postal shell_postal score matches mismatches :
  str_truthy customer_postal && str_truthy shell_postal = false →
  compare_postal customer_postal shell_postal (score, matches, mismatches)
  = (score, matches,
     mismatches ++ ["Postal: " +:+ customer_postal +:+ " ≠ " +:+ shell_postal]).
Proof. intros Hone. unfold compare_postal. by rewrite Hone. Qed.

(** C2, at its own example: for the Austin customer against the same shell
    address with postal code 78702 the score is 90 and the explanation lists
    the three matches and no mismatch at all: the postal codes that differ are
    not listed. *)
Theorem address_score_78702_lists_no_mismatch :
  compute_address_consistency_score acme_customer acme_shell_78702
  = Ok (90%Q, "Matches: Country: usa, State: tx, City: austin")
  ∧ address_tally acme_customer acme_shell_78702
    = Ok (90%Q, ["Country: usa"; "State: tx"; "City: austin"], []).
Proof. split; vm_compute; reflexivity. Qed.

(** A postal code on the customer's side only is listed as a mismatch. *)
Lemma address_score_one_sided_postal_listed :
  compute_address_consistency_score acme_customer unrelated_shell
  = Ok (0%Q, "Mismatches: Postal: 78701 ≠ ").
Proof. vm_compute. reflexivity. Qed.

End Address_mismatches.

(** ** [fast_filter_candidates]: which shells are returned *)

Lemma elem_of_add_ids id bucket (candidates : gset string) :
  id ∈ add_ids bucket candidates ↔
  id ∈ candidates ∨ ∃ shell, shell ∈ bucket ∧ Shell.Id shell = id.
Proof.
  unfold add_ids. revert candidates.
  induction bucket as [|sh bucket IH]; intros candidates; simpl.
  - split; [by left|]. intros [?|(? & Hin & _)]; [done|]. by apply elem_of_nil in Hin.
  - rewrite IH, elem_of_union, elem_of_singleton. split.
    + intros [[->|?]|(sh' & Hin & Hid)].
      * right. exists sh. split; [apply list_elem_of_here | done].
      * by left.
      * right. exists sh'. split; [by apply list_elem_of_further | done].
    + intros [?|(sh' & Hin & Hid)]; [by left; right|].
      apply elem_of_cons in Hin as [->|Hin]; [by left; left|].
      right. by exists sh'.
Qed.

Lemma bucket_get_concat key d bucket shell :
  bucket_get key d = Some bucket → shell ∈ bucket → shell ∈ concat (map snd d).
Proof.
  induction d as [|[k l] d IH]; simpl; [done|]. intros Hget Hin.
  apply elem_of_app. destruct (String.eqb k key).
  - injection Hget as ->. by left.
  - right. by apply IH.
Qed.

Lemma elem_of_name_tokens hb id tokens (candidates : gset string) :
  id ∈ foldl (λ c token,
               if 2 <? String.length token then
                 match bucket_get token (name_buckets hb) with
                 | Some bucket => add_ids bucket c
                 | None => c
                 end
               else c) candidates tokens
  ↔ id ∈ candidates ∨ ∃ token, token ∈ tokens ∧ token_ids hb token id.
Proof.
  revert candidates. induction tokens as [|t tokens IH]; intros candidates; simpl.
  - split; [by left|]. intros [?|(? & Hin & _)]; [done|]. by apply elem_of_nil in Hin.
  - rewrite IH. split.
    + intros [Hin|(t' & Hin & Hids)].
      * destruct (2 <? String.length t) eqn:Hlen; [|by left].
        destruct (bucket_get t (name_buckets hb)) as [bucket|] eqn:Hget; [|by left].
        apply elem_of_add_ids in Hin as [?|(sh & Hsh & Hid)]; [by left|].
        right. exists t. split; [apply list_elem_of_here|].
        split; [by apply Nat.ltb_lt|]. by exists bucket, sh.
      * right. exists t'. split; [by apply list_elem_of_further | done].
    + intros [Hin|(t' & Hin & Hids)].
      * left. destruct (2 <? String.length t); [|done].
        destruct (bucket_get t (name_buckets hb)); [|done].
        apply elem_of_add_ids. by left.
      * apply elem_of_cons in Hin as [->|Hin]; [|right; by exists t'].
        left. destruct Hids as (Hlen & bucket & sh & Hget & Hsh & Hid).
        apply Nat.ltb_lt in Hlen. rewrite Hlen, Hget.
        apply elem_of_add_ids. right. by exists sh.
Qed.

Lemma collect_candidates_spec (candidates : gset string) all_shells (seen_ids : gset string) :
  NoDup (map Shell.Id (collect_candidates candidates seen_ids all_shells))
  ∧ (∀ shell, shell ∈ collect_candidates candidates seen_ids all_shells →
       shell ∈ all_shells)
  ∧ ∀ id, id ∈ map Shell.Id (collect_candidates candidates seen_ids all_shells) ↔
          id ∈ candidates ∧ (id ∉ seen_ids)
          ∧ ∃ shell, shell ∈ all_shells ∧ Shell.Id shell = id.
Proof.
  revert seen_ids. induction all_shells as [|sh l IH]; intros seen_ids; simpl.
  - split_and!; [constructor | done |].
    intros id. split; [by intros ?%elem_of_nil|].
    intros (_ & _ & ? & ?%elem_of_nil & _). done.
  - destruct (bool_decide (Shell.Id sh ∈ candidates)
              && negb (bool_decide (Shell.Id sh ∈ seen_ids))) eqn:Hsel.
    + apply andb_prop in Hsel as [Hc Hs].
      apply bool_decide_eq_true in Hc. apply negb_true_iff, bool_decide_eq_false in Hs.
      destruct (IH ({[Shell.Id sh]} ∪ seen_ids)) as (Hnd & Hsub & Hiff).
      split_and!.
      * simpl. apply NoDup_cons. split; [|done].
        intros Hin. apply Hiff in Hin as (_ & Hnot & _).
        apply Hnot, elem_of_union. left. by apply elem_of_singleton.
      * intros shell [->|Hin]%elem_of_cons; [apply list_elem_of_here|].
        apply list_elem_of_further. by apply Hsub.
      * intros id. simpl. rewrite elem_of_cons, Hiff. split.
        -- intros [->|(? & Hnot & shell & ? & ?)].
           ++ split_and!; [done | done |]. exists sh. split; [apply list_elem_of_here|done].
           ++ split_and!; [done | |].
              { intros ?. apply Hnot, elem_of_union. by right. }
              exists shell. split; [by apply list_elem_of_further | done].
        -- intros (? & ? & shell & Hin & Hid).
           destruct (decide (id = Shell.Id sh)) as [?|Hne]; [by left|]. right.
           split_and!; [done | |].
           { by intros [?%elem_of_singleton|?]%elem_of_union. }
           apply elem_of_cons in Hin as [->|Hin]; [done|]. by exists shell.
    + destruct (IH seen_ids) as (Hnd & Hsub & Hiff).
      split_and!; [done | |].
      * intros shell Hin. apply list_elem_of_further. by apply Hsub.
      * intros id. rewrite Hiff. split.
        -- intros (? & ? & shell & ? & ?). split_and!; [done | done |].
           exists shell. split; [by apply list_elem_of_further | done].
        -- intros (Hc & Hs & shell & Hin & Hid). split_and!; [done | done |].
           apply elem_of_cons in Hin as [->|Hin]; [|by exists shell].
           subst id. apply andb_false_iff in Hsel as [Hsel|Hsel].
           ++ by apply bool_decide_eq_false in Hsel.
           ++ by apply negb_false_iff, bool_decide_eq_true in Hsel.
Qed.

Section Fast_filter.
Variable bracketed_netloc_ok : string -> bool.

Lemma elem_of_website_candidates customer hb id :
  id ∈ website_candidates bracketed_netloc_ok customer hb ↔
  ∃ key bucket shell,
    domain_company_of bracketed_netloc_ok
      (dict_get (Customer.Website customer) (PyStr "")) = Some key
    ∧ bucket_get key (website_buckets hb) = Some bucket
    ∧ shell ∈ bucket ∧ Shell.Id shell = id.
Proof.
  unfold website_candidates.
  destruct (domain_company_of _ _) as [key|].
  - destruct (bucket_get key (website_buckets hb)) as [bucket|] eqn:Hget.
    + rewrite elem_of_add_ids. split.
      * intros [?%elem_of_empty|(sh & ? & ?)]; [done|]. by exists key, bucket, sh.
      * intros (key' & bucket' & sh & [= <-] & Hget' & ? & ?).
        rewrite Hget in Hget'. injection Hget' as <-. right. by exists sh.
    + split; [by intros ?%elem_of_empty|].
      intros (? & ? & ? & [= <-] & ? & _). congruence.
  - split; [by intros ?%elem_of_empty|]. by intros (? & ? & ? & ? & _).
Qed.

Lemma elem_of_name_candidates customer hb (candidates : gset string) id :
  id ∈ name_candidates customer hb candidates ↔
  id ∈ candidates
  ∨ (size candidates < 10
     ∧ ∃ token, token ∈ PyStr.split (normalize_company_name (Customer.Name customer))
                ∧ token_ids hb token id).
Proof.
  unfold name_candidates.
  destruct (str_truthy (Customer.Name customer)) eqn:Hname; simpl.
  - destruct (size candidates <? 10) eqn:Hsize.
    + apply Nat.ltb_lt in Hsize.
      destruct (str_truthy (normalize_company_name (Customer.Name customer))) eqn:Hnorm.
      * rewrite elem_of_name_tokens. split.
        -- intros [?|?]; [by left | by right].
        -- intros [?|[_ ?]]; [by left | by right].
      * apply str_truthy_false in Hnorm. rewrite Hnorm. simpl.
        split; [by left|]. intros [?|(_ & ? & ?%elem_of_nil & _)]; done.
    + apply Nat.ltb_ge in Hsize. split; [by left|]. intros [?|[? _]]; [done | lia].
  - apply str_truthy_false in Hname. rewrite Hname. simpl.
    split; [by left|]. intros [?|(_ & ? & ?%elem_of_nil & _)]; done.
Qed.

(** C8: the candidates are first the identifiers in the bucket of the
    customer's website; the name buckets add to them only when fewer than 10
    were collected, and then they add every shell of every bucket whose key is
    a token, longer than 2 characters, of the customer's normalized name; the
    result holds exactly the selected identifiers, each once, with a shell of
    the index for each. *)
Theorem fast_filter_candidates_selection customer hb :
  let website_ids := website_candidates bracketed_netloc_ok customer hb in
  let selected := name_candidates customer hb website_ids in
  let result := fast_filter_candidates bracketed_netloc_ok customer hb in
  (∀ id, id ∈ website_ids ↔
     ∃ key bucket shell,
       domain_company_of bracketed_netloc_ok
         (dict_get (Customer.Website customer) (PyStr "")) = Some key
       ∧ bucket_get key (website_buckets hb) = Some bucket
       ∧ shell ∈ bucket ∧ Shell.Id shell = id)
  ∧ (∀ id, id ∈ selected ↔
       id ∈ website_ids
       ∨ (size website_ids < 10
          ∧ ∃ token bucket shell,
              token ∈ PyStr.split (normalize_company_name (Customer.Name customer))
              ∧ 2 < String.length token
              ∧ bucket_get token (name_buckets hb) = Some bucket
              ∧ shell ∈ bucket ∧ Shell.Id shell = id))
  ∧ (10 ≤ size website_ids → selected = website_ids)
  ∧ (∀ id, id ∈ map Shell.Id result ↔ id ∈ selected)
  ∧ NoDup (map Shell.Id result)
  ∧ (∀ shell, shell ∈ result →
       shell ∈ concat (map snd (website_buckets hb))
       ∨ shell ∈ concat (map snd (name_buckets hb))).
Proof.
  intros website_ids selected result.
  destruct (collect_candidates_spec selected
              (concat (map snd (website_buckets hb)) ++ concat (map snd (name_buckets hb)))
              ∅) as (Hnd & Hsub & Hiff).
  split_and!.
  - intros id. apply elem_of_website_candidates.
  - intros id. unfold selected. rewrite elem_of_name_candidates.
    unfold token_ids. split.
    + intros [?|(? & token & ? & ? & bucket & sh & ? & ? & ?)]; [by left|].
      right. split; [done|]. by exists token, bucket, sh.
    + intros [?|(? & token & bucket & sh & ? & ? & ? & ? & ?)]; [by left|].
      right. split; [done|]. exists token. split_and!; [done | done |].
      by exists bucket, sh.
  - intros Hsize. unfold selected, name_candidates.
    assert ((size website_ids <? 10) = false) as -> by (apply Nat.ltb_ge; lia).
    by rewrite andb_false_r.
  - intros id. unfold result, fast_filter_candidates. fold website_ids. fold selected.
    rewrite Hiff. split; [by intros (? & _)|]. intros Hsel.
    split_and!; [done | by intros ?%elem_of_empty |].
    unfold selected in Hsel. apply elem_of_name_candidates in Hsel
      as [Hweb|(_ & token & _ & _ & bucket & sh & Hget & Hsh & Hid)].
    + apply elem_of_website_candidates in Hweb as (key & bucket & sh & _ & Hget & Hsh & Hid).
      exists sh. split; [|done]. apply elem_of_app. left.
      by eapply bucket_get_concat.
    + exists sh. split; [|done]. apply elem_of_app. right.
      by eapply bucket_get_concat.
  - exact Hnd.
  - intros shell Hin. apply elem_of_app. by apply Hsub.
Qed.

End Fast_filter.

(** ** [create_matching_results_export]: one row for each customer, sorted *)

Section Stable_sort.
Context {A : Type}.
Variable before : A -> A -> bool.
Hypothesis before_total : ∀ x y, before x y = true ∨ before y x = true.
Hypothesis before_trans : ∀ x y z, before x y = true → before y z = true → before x z = true.

Lemma insert_sorted_perm x l : Permutation (insert_sorted before x l) (x :: l).
Proof.
  induction l as [|y l IH]; simpl; [done|].
  destruct (before x y); [done|].
  rewrite IH. apply perm_swap.
Qed.

Lemma stable_sort_perm l : Permutation (stable_sort before l) l.
Proof.
  induction l as [|x l IH]; simpl; [done|].
  unfold stable_sort in *. simpl. rewrite insert_sorted_perm. by constructor.
Qed.

Lemma insert_sorted_sorted x l :
  StronglySorted (λ a b, before a b = true) l →
  StronglySorted (λ a b, before a b = true) (insert_sorted before x l).
Proof.
  induction l as [|y l IH]; intros Hl; simpl.
  - repeat constructor.
  - apply StronglySorted_inv in Hl as [Hl Hy].
    destruct (before x y) eqn:E.
    + constructor; [by constructor|].
      constructor; [done|].
      eapply Forall_impl; [exact Hy|]. intros z Hz. by eapply before_trans.
    + constructor; [by apply IH|].
      rewrite insert_sorted_perm. constructor; [|done].
      destruct (before_total x y) as [Hxy|Hyx]; [congruence | done].
Qed.

Lemma stable_sort_sorted l :
  StronglySorted (λ a b, before a b = true) (stable_sort before l).
Proof.
  induction l as [|x l IH]; simpl; [constructor|].
  by apply insert_sorted_sorted.
Qed.

End Stable_sort.

Lemma string_leb_trans (x y z : string) :
  String.leb x y = true → String.leb y z = true → String.leb x z = true.
Proof.
  unfold String.leb.
  destruct (String.compare x y) eqn:Exy; [| |done]; intros _.
  - apply String.compare_eq_iff in Exy as ->. done.
  - destruct (String.compare y z) eqn:Eyz; [| |done]; intros _.
    + apply String.compare_eq_iff in Eyz as <-. by rewrite Exy.
    + assert (String.compare x z = Lt) as ->; [|done].
      apply OrderedTypeEx.String_as_OT.cmp_lt.
      eapply OrderedTypeEx.String_as_OT.lt_trans;
        by apply OrderedTypeEx.String_as_OT.cmp_lt.
Qed.

(** C9: the rows are the rows of the matched, unmatched, flagged and invalid
    customers, one for each entry of the four inputs; every row has the status
    of the input it comes from; and the rows are in the order of the
    customers' names. *)
Theorem export_rows_one_per_customer_sorted
    (matched_pairs : list MatchedPair.t) (unmatched_customers : list Unmatched.t)
    (flagged_customers : list Flagged.t) (invalid_customers : list string) :
  let rows := create_matching_results_export matched_pairs unmatched_customers
                flagged_customers invalid_customers in
  Permutation rows
    (map matched_row matched_pairs ++ map unmatched_row unmatched_customers
     ++ map flagged_row flagged_customers ++ map invalid_row invalid_customers)
  ∧ length rows = length matched_pairs + length unmatched_customers
                  + length flagged_customers + length invalid_customers
  ∧ (∀ row, row ∈ rows →
       (ResultRow.status row = MATCHED ∧ ∃ pair, pair ∈ matched_pairs
          ∧ ResultRow.customer row = MatchedPair.customer_account pair)
       ∨ (ResultRow.status row = UNMATCHED ∧ ∃ unmatched, unmatched ∈ unmatched_customers
            ∧ ResultRow.customer row = Unmatched.customer_account unmatched)
       ∨ (ResultRow.status row = FLAGGED ∧ ∃ flagged, flagged ∈ flagged_customers
            ∧ ResultRow.customer row = Flagged.account flagged)
       ∨ (ResultRow.status row = INVALID ∧ ∃ invalid_id, invalid_id ∈ invalid_customers
            ∧ Customer.Id (ResultRow.customer row) = invalid_id))
  ∧ StronglySorted (λ x y, String.leb (row_name x) (row_name y) = true) rows.
Proof.
  intros rows.
  assert (Hperm : Permutation rows
    (map matched_row matched_pairs ++ map unmatched_row unmatched_customers
     ++ map flagged_row flagged_customers ++ map invalid_row invalid_customers)).
  { apply stable_sort_perm. }
  split_and!.
  - done.
  - rewrite (Permutation_length Hperm), !length_app, !length_map. lia.
  - intros row Hrow. rewrite Hperm in Hrow.
    rewrite !elem_of_app, !list_elem_of_fmap in Hrow.
    destruct Hrow as [(x & -> & Hx) | [(x & -> & Hx) | [(x & -> & Hx) | (x & -> & Hx)]]];
      [left | right; left | right; right; left | right; right; right];
      (split; [done|]); by exists x.
  - apply stable_sort_sorted.
    + intros x y. apply String.leb_total.
    + intros x y z. apply string_leb_trans.
Qed.

(** ** Blank address columns: when the scoring raises *)

Lemma strip_lower_cases f :
  (not_null f = true ∧ ∃ s, strip_lower f = Ok s)
  ∨ (not_null f = false ∧ strip_lower f = Raise AttributeError).
Proof. destruct f; simpl; [left | right | left]; eauto. Qed.

(** The address score raises [AttributeError] exactly when one of the eight
    address columns is [None]. *)
Lemma address_tally_cases customer shell :
  (customer_address_not_null customer && shell_address_not_null shell = true
   ∧ ∃ t, address_tally customer shell = Ok t)
  ∨ (customer_address_not_null customer && shell_address_not_null shell = false
     ∧ address_tally customer shell = Raise AttributeError).
Proof.
  unfold address_tally, customer_address_not_null, shell_address_not_null.
  repeat match goal with
         | |- context [strip_lower ?f] =>
             destruct (strip_lower_cases f) as [[-> [? ->]]|[-> ->]];
             cbn [mbind py_bind andb];
             [|right; split; [by rewrite ?andb_false_r | done]]
         end.
  left. split; [done|]. eauto.
Qed.

Section Blank_address.
Variable bracketed_netloc_ok : string -> bool.

Lemma compute_overall_similarity_cases customer shell :
  (customer_address_not_null customer && shell_address_not_null shell = true
   ∧ ∃ r, compute_overall_similarity bracketed_netloc_ok customer shell = Ok r)
  ∨ (customer_address_not_null customer && shell_address_not_null shell = false
     ∧ compute_overall_similarity bracketed_netloc_ok customer shell
       = Raise AttributeError).
Proof.
  unfold compute_overall_similarity, compute_address_consistency_score.
  destruct (compute_website_match _ _ _) as [ws we].
  destruct (compute_name_match _ _) as [ns ne].
  destruct (address_tally_cases customer shell) as [[-> [[[s m] mm] ->]]|[-> ->]];
    cbn [mbind py_bind mret py_ret]; [left | right]; split; try done.
  destruct (_ && _); [|destruct (_ && _)]; eauto.
Qed.

Lemma score_candidates_raises customer shell candidates :
  customer_address_not_null customer = false →
  score_candidates bracketed_netloc_ok customer (shell :: candidates)
  = Raise AttributeError.
Proof.
  intros Hnull. cbn [score_candidates].
  destruct (compute_overall_similarity_cases customer shell) as [[Hok _]|[_ ->]]; [|done].
  by rewrite Hnull in Hok.
Qed.

(** C1, in general: for a customer with a blank address column and any
    non-empty list of shells, [find_best_shell_match] raises
    [AttributeError]; it returns no result. *)
Theorem find_best_shell_match_blank_address_raises customer shell_accounts :
  customer_address_not_null customer = false →
  shell_accounts ≠ [] →
  find_best_shell_match bracketed_netloc_ok customer shell_accounts
  = Raise AttributeError.
Proof.
  intros Hnull Hne. unfold find_best_shell_match.
  destruct shell_accounts as [|shell rest]; [done|].
  unfold rank_shell_candidates.
  destruct (fast_filter_candidates _ _ _) as [|candidate candidates];
    by rewrite score_candidates_raises.
Qed.

Lemma score_candidates_total customer candidates :
  customer_address_not_null customer = true →
  forallb shell_address_not_null candidates = true →
  ∃ scored,
    score_candidates bracketed_netloc_ok customer candidates = Ok scored
    ∧ map Ranked.shell_account scored = candidates
    ∧ Forall (λ x, compute_overall_similarity bracketed_netloc_ok customer
                     (Ranked.shell_account x) = Ok (Ranked.scores x)
                   ∧ Ranked.rank_score x = Scores.overall_score (Ranked.scores x))
             scored.
Proof.
  intros Hc. induction candidates as [|shell candidates IH]; intros Hs.
  - by exists [].
  - cbn [forallb] in Hs. apply andb_prop in Hs as [Hshell Hs].
    destruct (IH Hs) as (scored & Hrun & Hmap & Hall).
    destruct (compute_overall_similarity_cases customer shell) as [[_ [r Hr]]|[Hnull _]].
    + exists ({| Ranked.shell_account := shell; Ranked.scores := r;
                 Ranked.rank_score := Scores.overall_score r |} :: scored).
      cbn [score_candidates]. rewrite Hr, Hrun. cbn [mbind py_bind mret py_ret].
      split_and!; [done | by rewrite <- Hmap |].
      by constructor.
    + by rewrite Hc, Hshell in Hnull.
Qed.

End Blank_address.

Lemma find_best_shell_match_blank_address_raises_witness :
  find_best_shell_match any_bracketed_host blank_state_customer [acme_shell]
  = Raise AttributeError.
Proof.
  apply find_best_shell_match_blank_address_raises; [vm_compute; reflexivity | done].
Defined.

(** The address score of this account raises [AttributeError]: [None] has no
    [strip]. *)
Example address_score_blank_state_raises :
  compute_address_consistency_score blank_state_customer acme_shell
  = Raise AttributeError.
Proof. vm_compute. reflexivity. Qed.

(** ** When [compute_overall_similarity] returns *)

Section Overall_similarity_returns.
Variable bracketed_netloc_ok : string -> bool.

(** [compute_overall_similarity] raises [AttributeError] exactly when one of
    the eight address columns of the customer and the shell is [None]; it
    returns a result otherwise. *)
Theorem compute_overall_similarity_raises_iff customer shell :
  (compute_overall_similarity bracketed_netloc_ok customer shell = Raise AttributeError
   ↔ customer_address_not_null customer && shell_address_not_null shell = false)
  ∧ ((∃ r, compute_overall_similarity bracketed_netloc_ok customer shell = Ok r)
     ↔ customer_address_not_null customer && shell_address_not_null shell = true).
Proof.
  destruct (compute_overall_similarity_cases bracketed_netloc_ok customer shell)
    as [[Hok [r Hr]]|[Hnull Hraise]].
  - rewrite Hok, Hr. split; split; try done. by exists r.
  - rewrite Hnull, Hraise. split; split; try done. by intros [? ?].
Qed.

End Overall_similarity_returns.

(** ** The fallback: a best match for every customer *)

Lemma bucket_append_elem key shell d x :
  x ∈ concat (map snd (bucket_append key shell d)) →
  x = shell ∨ x ∈ concat (map snd d).
Proof.
  induction d as [|[k l] d IH]; simpl.
  - intros [->|?%elem_of_nil]%elem_of_cons; [by left | done].
  - destruct (String.eqb k key); simpl; rewrite !elem_of_app.
    + intros [[?|Hx]|?]; [by right; left | | by right; right].
      apply list_elem_of_singleton in Hx. by left.
    + intros [?|Hx]; [by right; left|].
      destruct (IH Hx) as [?|?]; [by left | by right; right].
Qed.

Lemma name_tokens_elem shell tokens nb x :
  x ∈ concat (map snd
        (foldl (λ nb token,
                  if 2 <? String.length token then bucket_append token shell nb else nb)
               nb tokens)) →
  x = shell ∨ x ∈ concat (map snd nb).
Proof.
  revert nb. induction tokens as [|t tokens IH]; intros nb; simpl; [by right|].
  intros Hx. destruct (IH _ Hx) as [?|Hx']; [by left|].
  destruct (2 <? String.length t); [|by right].
  by apply bucket_append_elem in Hx'.
Qed.

Section Fallback.
Variable bracketed_netloc_ok : string -> bool.

Lemma add_shell_elem hb shell x :
  x ∈ concat (map snd (website_buckets (add_shell bracketed_netloc_ok hb shell)))
  ∨ x ∈ concat (map snd (name_buckets (add_shell bracketed_netloc_ok hb shell))) →
  x = shell
  ∨ x ∈ concat (map snd (website_buckets hb))
  ∨ x ∈ concat (map snd (name_buckets hb)).
Proof.
  unfold add_shell. cbn [website_buckets name_buckets]. intros [Hx|Hx].
  - destruct (domain_company_of _ _); [|by right; left].
    apply bucket_append_elem in Hx as [?|?]; [by left | by right; left].
  - destruct (dict_get (Shell.ZI_Company_Name__c shell) (PyStr "")) as [|zi_name];
      [by right; right|].
    destruct (str_truthy zi_name && _); [|by right; right].
    apply name_tokens_elem in Hx as [?|?]; [by left | by right; right].
Qed.

Lemma create_hash_buckets_from hb shell_accounts x :
  x ∈ concat (map snd (website_buckets (foldl (add_shell bracketed_netloc_ok) hb shell_accounts)))
  ∨ x ∈ concat (map snd (name_buckets (foldl (add_shell bracketed_netloc_ok) hb shell_accounts))) →
  x ∈ shell_accounts
  ∨ x ∈ concat (map snd (website_buckets hb))
  ∨ x ∈ concat (map snd (name_buckets hb)).
Proof.
  revert hb. induction shell_accounts as [|shell rest IH]; intros hb; simpl.
  - intros [?|?]; [by right; left | by right; right].
  - intros Hx. destruct (IH _ Hx) as [?|Hx'].
    + left. by apply list_elem_of_further.
    + apply add_shell_elem in Hx' as [->|?]; [|by right].
      left. apply list_elem_of_here.
Qed.

(** The index holds shells of the collection only. *)
Lemma create_hash_buckets_elem shell_accounts x :
  x ∈ concat (map snd (website_buckets (create_hash_buckets bracketed_netloc_ok shell_accounts)))
  ∨ x ∈ concat (map snd (name_buckets (create_hash_buckets bracketed_netloc_ok shell_accounts))) →
  x ∈ shell_accounts.
Proof.
  intros Hx. apply create_hash_buckets_from in Hx as [?|[Hx|Hx]]; [done | |];
    by apply elem_of_nil in Hx.
Qed.

Lemma fast_filter_candidates_elem customer shell_accounts x :
  x ∈ fast_filter_candidates bracketed_netloc_ok customer
        (create_hash_buckets bracketed_netloc_ok shell_accounts) →
  x ∈ shell_accounts.
Proof.
  intros Hx. apply create_hash_buckets_elem.
  unfold fast_filter_candidates in Hx.
  apply collect_candidates_spec in Hx. by apply elem_of_app in Hx.
Qed.

Lemma scored_candidates_elem customer shell_accounts x :
  x ∈ scored_candidates bracketed_netloc_ok customer shell_accounts → x ∈ shell_accounts.
Proof.
  unfold scored_candidates.
  destruct (fast_filter_candidates _ _ _) as [|c l] eqn:E; [done|].
  rewrite <- E. apply fast_filter_candidates_elem.
Qed.

Lemma scored_candidates_nonempty customer shell_accounts :
  shell_accounts ≠ [] → scored_candidates bracketed_netloc_ok customer shell_accounts ≠ [].
Proof.
  unfold scored_candidates. by destruct (fast_filter_candidates _ _ _).
Qed.

(** The fallback guarantee: when no address column is blank, a customer and a
    non-empty collection of shells always give a success result; its best
    match is one of the scored candidates, the whole collection when the fast
    filter finds none, and no candidate has a higher overall score. *)
Theorem find_best_shell_match_fallback customer shell_accounts :
  shell_accounts ≠ [] →
  customer_address_not_null customer = true →
  forallb shell_address_not_null shell_accounts = true →
  ∃ result best,
    find_best_shell_match bracketed_netloc_ok customer shell_accounts = Ok result
    ∧ success result = true
    ∧ best_match result = Some best
    ∧ result_message result = Found_best_match (BestMatch.confidence_score best)
    ∧ total_shells result = Some (length shell_accounts)
    ∧ candidate_count result = Some (length (scored_candidates bracketed_netloc_ok customer shell_accounts))
    ∧ BestMatch.shell_account best ∈ scored_candidates bracketed_netloc_ok customer shell_accounts
    ∧ BestMatch.shell_id best = Shell.Id (BestMatch.shell_account best)
    ∧ ∀ shell, shell ∈ scored_candidates bracketed_netloc_ok customer shell_accounts →
        ∃ r, compute_overall_similarity bracketed_netloc_ok customer shell = Ok r
             ∧ (Scores.overall_score r <= BestMatch.confidence_score best)%Q.
Proof.
  intros Hne Hc Hs.
  pose proof (scored_candidates_nonempty customer _ Hne) as Hcand.
  assert (Hok : forallb shell_address_not_null (scored_candidates bracketed_netloc_ok customer shell_accounts)
                = true).
  { apply forallb_forall. intros x Hx%list_elem_of_In%scored_candidates_elem.
    revert x Hx. intros x Hx%list_elem_of_In. revert x Hx. by apply forallb_forall. }
  destruct (score_candidates_total bracketed_netloc_ok customer _ Hc Hok)
    as (scored & Hrun & Hmap & Hall).
  set (before := λ x y : Ranked.t, Qleb (Ranked.rank_score y) (Ranked.rank_score x)).
  assert (Hsorted : StronglySorted (λ x y, before x y = true) (stable_sort before scored)).
  { apply stable_sort_sorted; unfold before, Qleb.
    - intros x y. rewrite !Qle_bool_iff.
      destruct (Qlt_le_dec (Ranked.rank_score x) (Ranked.rank_score y));
        [right; by apply Qlt_le_weak | by left].
    - intros x y z. rewrite !Qle_bool_iff. intros ? ?. by eapply Qle_trans. }
  pose proof (stable_sort_perm before scored) as Hperm.
  unfold find_best_shell_match, rank_shell_candidates.
  destruct shell_accounts as [|shell0 rest]; [done|].
  cbv zeta. fold (scored_candidates bracketed_netloc_ok customer (shell0 :: rest)).
  rewrite Hrun. cbn [mbind py_bind mret py_ret]. fold before.
  destruct (stable_sort before scored) as [|best sorted] eqn:Esort.
  { apply Permutation_nil in Hperm. subst scored. by destruct (scored_candidates bracketed_netloc_ok _ _). }
  eexists _, _. split; [reflexivity|]. cbn.
  assert (Hbest : best ∈ scored).
  { rewrite <- Hperm. apply list_elem_of_here. }
  split_and!; try done.
  - simpl. rewrite <- Hmap. by apply list_elem_of_fmap_2.
  - simpl. intros shell Hshell. rewrite <- Hmap in Hshell.
    apply list_elem_of_fmap in Hshell as (x & -> & Hx).
    apply (proj1 (Forall_forall _ _) Hall) in Hx as Hx'. destruct Hx' as [Hr Hrank].
    exists (Ranked.scores x). split; [done|]. rewrite <- Hrank.
    rewrite <- Hperm in Hx. apply StronglySorted_inv in Hsorted as [_ Hfirst].
    apply elem_of_cons in Hx as [->|Hx]; [apply Qle_refl|].
    apply (proj1 (Forall_forall _ _) Hfirst) in Hx.
    by apply Qle_bool_iff in Hx.
Qed.

End Fallback.

Lemma find_best_shell_match_fallback_witness :
  ∃ result best,
    find_best_shell_match any_bracketed_host acme_customer [unrelated_shell; acme_shell]
    = Ok result
    ∧ success result = true
    ∧ best_match result = Some best.
Proof.
  destruct (find_best_shell_match_fallback any_bracketed_host acme_customer
              [unrelated_shell; acme_shell])
    as (result & best & Hrun & Hsuccess & Hbest & _);
    [discriminate | reflexivity | reflexivity |].
  exists result, best. split_and!; assumption.
Defined.

(** ** The examples of the specification *)

(** Address scoring example: the four fields match without regard to case. *)
Example address_score_full_match :
  compute_address_consistency_score acme_customer acme_shell
  = Ok (100%Q, "Matches: Country: usa, State: tx, City: austin, Postal: 78701").
Proof. vm_compute. reflexivity. Qed.

(** Domain match example: both websites give the company name "acme". *)
Example website_match_same_company :
  extract_company_name_from_domain "acme.com" = Some "acme"
  ∧ extract_company_name_from_domain "acme.io" = Some "acme"
  ∧ ((compute_website_match any_bracketed_host
        (PyStr "https://www.acme.com") (PyStr "https://acme.io")).1 == 100)%Q.
Proof. split_and!; vm_compute; reflexivity. Qed.

(** Index fallback example: no shell shares a token with the customer, the
    fast filter returns nothing, and all the shells are scored. *)
Example find_best_shell_match_scores_all_shells :
  fast_filter_candidates any_bracketed_host acme_customer
    (create_hash_buckets any_bracketed_host
       [unrelated_shell; unrelated_shell; unrelated_shell]) = []
  ∧ ∃ result,
      find_best_shell_match any_bracketed_host acme_customer
        [unrelated_shell; unrelated_shell; unrelated_shell] = Ok result
      ∧ success result = true
      ∧ candidate_count result = Some 3.
Proof. split; [vm_compute; reflexivity|]. eexists. vm_compute. done. Qed.

(** End-to-end example: the first shell is the best match, with an overall
    score of at least 90. *)
Example find_best_shell_match_end_to_end :
  ∃ result best,
    find_best_shell_match any_bracketed_host acme_customer [acme_shell; unrelated_shell]
    = Ok result
    ∧ best_match result = Some best
    ∧ BestMatch.shell_id best = "001S"
    ∧ (90 <= BestMatch.confidence_score best)%Q.
Proof. eexists _, _. vm_compute. split_and!; try reflexivity. discriminate. Qed.

(** ** The sort keeps the order of equal elements *)

Section Stable_sort_classes.
Context {A : Type} (before : A → A → bool).
Variable same : A → bool.
Hypothesis same_before : ∀ x y, same x = true → same y = true → before x y = true.

Lemma insert_sorted_filter x l :
  filter (λ y, same y = true) (insert_sorted before x l)
  = filter (λ y, same y = true) (x :: l).
Proof.
  induction l as [|y l IH]; [done|]. simpl.
  destruct (before x y) eqn:E; [done|].
  rewrite (filter_cons _ y), IH, !(filter_cons _ x), (filter_cons _ y).
  destruct (decide (same x = true)) as [Hx|Hx], (decide (same y = true)) as [Hy|Hy];
    try done.
  rewrite (same_before x y Hx Hy) in E. done.
Qed.

Lemma stable_sort_filter l :
  filter (λ y, same y = true) (stable_sort before l) = filter (λ y, same y = true) l.
Proof.
  induction l as [|x l IH]; [done|].
  change (stable_sort before (x :: l)) with (insert_sorted before x (stable_sort before l)).
  by rewrite insert_sorted_filter, !(filter_cons _ x), IH.
Qed.

End Stable_sort_classes.

(** ** [rank_shell_candidates]: every candidate, best score first *)

Section Ranking.
Variable bracketed_netloc_ok : string -> bool.

Lemma score_candidates_shells customer candidates scored :
  score_candidates bracketed_netloc_ok customer candidates = Ok scored →
  map Ranked.shell_account scored = candidates
  ∧ Forall (λ x, compute_overall_similarity bracketed_netloc_ok customer
                   (Ranked.shell_account x) = Ok (Ranked.scores x)
                 ∧ Ranked.rank_score x = Scores.overall_score (Ranked.scores x))
           scored.
Proof.
  revert scored. induction candidates as [|shell rest IH]; intros scored; simpl.
  { intros [= <-]. done. }
  destruct (compute_overall_similarity _ customer shell) as [r|e] eqn:Er; [|done].
  cbn [mbind py_bind].
  destruct (score_candidates _ customer rest) as [scored'|e]; [|done].
  cbn [mbind py_bind mret py_ret]. intros [= <-].
  destruct (IH scored' eq_refl) as [Hmap Hall]. split.
  - simpl. by rewrite Hmap.
  - apply Forall_cons. split; [|done]. by simpl.
Qed.

Lemma rank_shell_candidates_scored customer candidates ranked :
  rank_shell_candidates bracketed_netloc_ok customer candidates = Ok ranked →
  ∃ scored,
    score_candidates bracketed_netloc_ok customer candidates = Ok scored
    ∧ ranked = stable_sort (λ x y, Qleb (Ranked.rank_score y) (Ranked.rank_score x)) scored.
Proof.
  unfold rank_shell_candidates.
  destruct (score_candidates _ customer candidates) as [scored|e]; [|done].
  cbn [mbind py_bind mret py_ret]. intros [= <-]. by exists scored.
Qed.

Lemma rank_shell_candidates_length customer candidates ranked :
  rank_shell_candidates bracketed_netloc_ok customer candidates = Ok ranked →
  length ranked = length candidates.
Proof.
  intros (scored & Hscored & ->)%rank_shell_candidates_scored.
  apply score_candidates_shells in Hscored as [<- _].
  rewrite length_map. apply Permutation_length, stable_sort_perm.
Qed.

(** The ranking holds every candidate once, each with the scores of
    [compute_overall_similarity] and its overall score as rank score; the
    rank scores are in descending order, and the candidates that have the
    same rank score stay in the order of the input. *)
Theorem rank_shell_candidates_sorted customer candidates ranked :
  rank_shell_candidates bracketed_netloc_ok customer candidates = Ok ranked →
  Permutation (map Ranked.shell_account ranked) candidates
  ∧ Forall (λ x, compute_overall_similarity bracketed_netloc_ok customer
                   (Ranked.shell_account x) = Ok (Ranked.scores x)
                 ∧ Ranked.rank_score x = Scores.overall_score (Ranked.scores x))
           ranked
  ∧ StronglySorted (λ x y, (Ranked.rank_score y <= Ranked.rank_score x)%Q) ranked
  ∧ ∀ score,
      map Ranked.shell_account
          (filter (λ x, Qeq_bool (Ranked.rank_score x) score = true) ranked)
      `sublist_of` candidates.
Proof.
  intros (scored & Hscored & ->)%rank_shell_candidates_scored.
  apply score_candidates_shells in Hscored as [Hmap Hall].
  set (before := λ x y : Ranked.t, Qleb (Ranked.rank_score y) (Ranked.rank_score x)).
  pose proof (stable_sort_perm before scored) as Hperm.
  split_and!.
  - rewrite <- Hmap. by apply Permutation_map.
  - by rewrite Hperm.
  - assert (Hsorted : StronglySorted (λ x y, before x y = true) (stable_sort before scored)).
    { apply stable_sort_sorted; unfold before, Qleb.
      - intros x y. rewrite !Qle_bool_iff.
        destruct (Qlt_le_dec (Ranked.rank_score x) (Ranked.rank_score y));
          [right; by apply Qlt_le_weak | by left].
      - intros x y z. rewrite !Qle_bool_iff. intros ? ?. by eapply Qle_trans. }
    clear Hperm. induction Hsorted as [|x l Hl IH Hx]; constructor; [done|].
    eapply Forall_impl; [exact Hx|]. intros y Hy. by apply Qle_bool_iff in Hy.
  - intros score.
    rewrite (stable_sort_filter before (λ x, Qeq_bool (Ranked.rank_score x) score)).
    + rewrite <- Hmap. apply (fmap_sublist Ranked.shell_account), sublist_filter.
    + intros x y Hx%Qeq_bool_iff Hy%Qeq_bool_iff. unfold before, Qleb.
      apply Qle_bool_iff. rewrite Hx, Hy. apply Qle_refl.
Qed.

(** ** [find_best_shell_match]: the three outcomes *)

Lemma find_best_shell_match_cases customer shell_accounts result :
  find_best_shell_match bracketed_netloc_ok customer shell_accounts = Ok result →
  (shell_accounts = []
   ∧ success result = false
   ∧ result_message result = No_shell_accounts_provided
   ∧ best_match result = None)
  ∨ (shell_accounts ≠ []
     ∧ success result = true
     ∧ ∃ best, best_match result = Some best
               ∧ result_message result = Found_best_match (BestMatch.confidence_score best)).
Proof.
  unfold find_best_shell_match.
  destruct shell_accounts as [|shell0 rest].
  { intros [= <-]. by left. }
  cbv zeta.
  set (candidates := match fast_filter_candidates _ _ _ with [] => _ | _ :: _ => _ end).
  assert (Hne : candidates ≠ []).
  { unfold candidates. by destruct (fast_filter_candidates _ _ _). }
  destruct (rank_shell_candidates _ customer candidates) as [ranked|e] eqn:Er; [|done].
  cbn [mbind py_bind mret py_ret].
  apply rank_shell_candidates_length in Er.
  destruct ranked as [|best ranked].
  { destruct candidates; [done | discriminate Er]. }
  intros [= <-]. right. split_and!; [done | done |].
  eexists. by split.
Qed.

Lemma compute_overall_similarity_exn customer shell e :
  compute_overall_similarity bracketed_netloc_ok customer shell = Raise e →
  e = AttributeError.
Proof.
  destruct (compute_overall_similarity_cases bracketed_netloc_ok customer shell)
    as [[_ [r Hr]]|[_ Hraise]]; rewrite ?Hr, ?Hraise; [done | by intros [= <-]].
Qed.

Lemma score_candidates_exn customer candidates e :
  score_candidates bracketed_netloc_ok customer candidates = Raise e →
  e = AttributeError.
Proof.
  induction candidates as [|shell rest IH]; simpl; [done|].
  destruct (compute_overall_similarity _ customer shell) as [r|e'] eqn:Er.
  - cbn [mbind py_bind].
    destruct (score_candidates _ customer rest) as [scored'|e'']; [done|].
    cbn [mbind py_bind]. intros [= ->]. by apply IH.
  - cbn [mbind py_bind]. intros [= <-]. by eapply compute_overall_similarity_exn.
Qed.

Lemma find_best_shell_match_exn customer shell_accounts e :
  find_best_shell_match bracketed_netloc_ok customer shell_accounts = Raise e →
  e = AttributeError.
Proof.
  unfold find_best_shell_match, rank_shell_candidates.
  destruct shell_accounts as [|shell0 rest]; [done|].
  cbv zeta.
  set (candidates := match fast_filter_candidates _ _ _ with [] => _ | _ :: _ => _ end).
  destruct (score_candidates _ customer candidates) as [scored|e'] eqn:Es.
  - cbn [mbind py_bind mret py_ret]. by destruct (stable_sort _ scored).
  - cbn [mbind py_bind]. intros [= <-]. by eapply score_candidates_exn.
Qed.

(** A result without success is returned only for an empty collection of
    shells, with the message "No shell accounts provided"; for a non-empty
    collection the result, when there is one, is a success with a best match.
    The message "No viable shell candidates found" is never returned, and the
    only exception is [AttributeError]. *)
Theorem find_best_shell_match_outcomes customer shell_accounts :
  (∀ result,
     find_best_shell_match bracketed_netloc_ok customer shell_accounts = Ok result →
     (result_message result = No_viable_shell_candidates_found → False)
     ∧ (success result = false ↔ shell_accounts = [])
     ∧ (success result = false →
        result_message result = No_shell_accounts_provided ∧ best_match result = None)
     ∧ (success result = true →
        ∃ best, best_match result = Some best
                ∧ result_message result
                  = Found_best_match (BestMatch.confidence_score best)))
  ∧ (∀ e, find_best_shell_match bracketed_netloc_ok customer shell_accounts = Raise e →
          e = AttributeError)
  ∧ (shell_accounts = [] →
     ∃ result, find_best_shell_match bracketed_netloc_ok customer shell_accounts
               = Ok result).
Proof.
  split_and!.
  - intros result [(-> & Hs & Hm & Hb)|(Hne & Hs & best & Hb & Hm)]%find_best_shell_match_cases.
    + rewrite Hs, Hm, Hb. split_and!; done.
    + rewrite Hs, Hm, Hb. split_and!; try done. by exists best.
  - apply find_best_shell_match_exn.
  - intros ->. by eexists.
Qed.

End Ranking.

Lemma rank_shell_candidates_sorted_witness :
  ∃ ranked,
    rank_shell_candidates any_bracketed_host acme_customer [unrelated_shell; acme_shell]
    = Ok ranked
    ∧ Permutation (map Ranked.shell_account ranked) [unrelated_shell; acme_shell].
Proof.
  destruct (rank_shell_candidates any_bracketed_host acme_customer
              [unrelated_shell; acme_shell]) as [ranked|e] eqn:E.
  - exists ranked. split; [reflexivity|].
    exact (proj1 (rank_shell_candidates_sorted any_bracketed_host _ _ _ E)).
  - vm_compute in E. discriminate E.
Defined.

(** ** [create_hash_buckets]: what each bucket holds *)

Lemma bucket_get_append key key' shell d :
  bucket_get key (bucket_append key' shell d)
  = if String.eqb key' key then Some (default [] (bucket_get key d) ++ [shell])
    else bucket_get key d.
Proof.
  induction d as [|[k l] d IH]; simpl.
  - by destruct (String.eqb key' key).
  - destruct (String.eqb k key') eqn:Ek'; simpl.
    + apply String.eqb_eq in Ek' as ->.
      by destruct (String.eqb key' key).
    + destruct (String.eqb k key) eqn:Ek; [|done].
      apply String.eqb_eq in Ek as ->.
      destruct (String.eqb key' key) eqn:E; [|done].
      apply String.eqb_eq in E as ->. by rewrite String.eqb_refl in Ek'.
Qed.

Lemma name_tokens_bucket shell tokens nb key x :
  x ∈ default [] (bucket_get key
        (foldl (λ nb token,
                  if 2 <? String.length token then bucket_append token shell nb else nb)
               nb tokens))
  ↔ x ∈ default [] (bucket_get key nb)
    ∨ (x = shell ∧ key ∈ tokens ∧ 2 < String.length key).
Proof.
  revert nb. induction tokens as [|token tokens IH]; intros nb; simpl.
  { split; [by left|]. intros [?|(_ & []%elem_of_nil & _)]. done. }
  rewrite IH. destruct (2 <? String.length token) eqn:E.
  - apply Nat.ltb_lt in E. rewrite bucket_get_append.
    destruct (String.eqb token key) eqn:Ek.
    + apply String.eqb_eq in Ek as ->. simpl. rewrite elem_of_app, list_elem_of_singleton.
      split.
      * intros [[?| ->]|(-> & ? & ?)]; [by left | right | right];
          split_and!; try done; by (left + right).
      * intros [?|(-> & _ & ?)]; [by left; left | by left; right].
    + apply String.eqb_neq in Ek. split.
      * intros [?|(-> & ? & ?)]; [by left|]. right. split_and!; try done. by right.
      * intros [?|(-> & [?|?]%elem_of_cons & ?)]; [by left | done |]. by right.
  - apply Nat.ltb_ge in E. split.
    + intros [?|(-> & ? & ?)]; [by left|]. right. split_and!; try done. by right.
    + intros [?|(-> & [->|?]%elem_of_cons & ?)]; [by left | lia |]. by right.
Qed.

Section Index_contents.
Variable bracketed_netloc_ok : string -> bool.

Lemma website_buckets_add_shell hb shell :
  website_buckets (add_shell bracketed_netloc_ok hb shell)
  = match website_key bracketed_netloc_ok shell with
    | Some key => bucket_append key shell (website_buckets hb)
    | None => website_buckets hb
    end.
Proof. done. Qed.

Lemma name_buckets_add_shell hb shell key x :
  x ∈ default [] (bucket_get key (name_buckets (add_shell bracketed_netloc_ok hb shell)))
  ↔ x ∈ default [] (bucket_get key (name_buckets hb))
    ∨ (x = shell ∧ key ∈ name_tokens shell ∧ 2 < String.length key).
Proof.
  unfold add_shell, name_tokens. cbn [name_buckets].
  destruct (dict_get (Shell.ZI_Company_Name__c shell) (PyStr "")) as [|zi_name].
  { split; [by left|]. intros [?|(_ & []%elem_of_nil & _)]. done. }
  destruct (str_truthy zi_name && str_truthy (normalize_company_name zi_name)) eqn:E.
  - apply name_tokens_bucket.
  - assert (normalize_company_name zi_name = "") as ->.
    { apply andb_false_iff in E as [E|E].
      - unfold normalize_company_name. by rewrite E.
      - by apply str_truthy_false. }
    split; [by left|]. intros [?|(_ & []%elem_of_nil & _)]. done.
Qed.

Lemma website_buckets_from hb shell_accounts key :
  default [] (bucket_get key
     (website_buckets (foldl (add_shell bracketed_netloc_ok) hb shell_accounts)))
  = default [] (bucket_get key (website_buckets hb))
    ++ filter (λ shell, website_key bracketed_netloc_ok shell = Some key) shell_accounts.
Proof.
  revert hb. induction shell_accounts as [|shell rest IH]; intros hb.
  { simpl. by rewrite app_nil_r. }
  cbn [foldl]. rewrite IH, website_buckets_add_shell, filter_cons.
  destruct (website_key bracketed_netloc_ok shell) as [key'|] eqn:Ekey.
  - rewrite bucket_get_append. destruct (String.eqb key' key) eqn:Ek.
    + apply String.eqb_eq in Ek as ->. rewrite decide_True by done.
      simpl. by rewrite <- app_assoc.
    + apply String.eqb_neq in Ek. rewrite decide_False; [done|]. by intros [= ?].
  - by rewrite decide_False.
Qed.

Lemma website_buckets_nonempty hb shell_accounts key bucket :
  (∀ key bucket, bucket_get key (website_buckets hb) = Some bucket → bucket ≠ []) →
  bucket_get key (website_buckets (foldl (add_shell bracketed_netloc_ok) hb shell_accounts))
  = Some bucket →
  bucket ≠ [].
Proof.
  revert hb. induction shell_accounts as [|shell rest IH]; intros hb Hhb; [by apply Hhb|].
  cbn [foldl]. apply IH. intros key' bucket'. rewrite website_buckets_add_shell.
  destruct (website_key bracketed_netloc_ok shell) as [k|]; [|by apply Hhb].
  rewrite bucket_get_append. destruct (String.eqb k key'); [|by apply Hhb].
  intros [= <-]. by destruct (default [] _).
Qed.

Lemma name_buckets_from hb shell_accounts key x :
  x ∈ default [] (bucket_get key
        (name_buckets (foldl (add_shell bracketed_netloc_ok) hb shell_accounts)))
  ↔ x ∈ default [] (bucket_get key (name_buckets hb))
    ∨ (x ∈ shell_accounts ∧ key ∈ name_tokens x ∧ 2 < String.length key).
Proof.
  revert hb. induction shell_accounts as [|shell rest IH]; intros hb.
  { simpl. split; [by left|]. intros [?|([]%elem_of_nil & _)]. done. }
  cbn [foldl]. rewrite IH, name_buckets_add_shell. split.
  - intros [[?|(-> & ? & ?)]|(? & ? & ?)]; [by left | right | right];
      split_and!; try done; by (left + right).
  - intros [?|([->|?]%elem_of_cons & ? & ?)]; [by left; left | by left; right | by right].
Qed.

Lemma website_buckets_lookup shell_accounts key :
  bucket_get key (website_buckets (create_hash_buckets bracketed_netloc_ok shell_accounts))
  = match filter (λ shell, website_key bracketed_netloc_ok shell = Some key)
                 shell_accounts with
    | [] => None
    | bucket => Some bucket
    end.
Proof.
  pose proof (website_buckets_from {| website_buckets := []; name_buckets := [] |}
                shell_accounts key) as Hget.
  pose proof (website_buckets_nonempty {| website_buckets := []; name_buckets := [] |}
                shell_accounts key) as Hne.
  unfold create_hash_buckets. simpl in Hget.
  destruct (bucket_get key _) as [bucket|]; simpl in Hget; rewrite <- Hget.
  - specialize (Hne bucket). destruct bucket; [|done].
    by destruct Hne.
  - done.
Qed.

Lemma name_buckets_lookup shell_accounts token shell :
  (∃ bucket,
     bucket_get token (name_buckets (create_hash_buckets bracketed_netloc_ok shell_accounts))
     = Some bucket ∧ shell ∈ bucket)
  ↔ shell ∈ shell_accounts ∧ token ∈ name_tokens shell ∧ 2 < String.length token.
Proof.
  pose proof (name_buckets_from {| website_buckets := []; name_buckets := [] |}
                shell_accounts token shell) as Hget.
  unfold create_hash_buckets. simpl in Hget. split.
  - intros (bucket & Hbucket & Hin). rewrite Hbucket in Hget.
    apply Hget in Hin as [[]%elem_of_nil|?]. done.
  - intros Hin. apply (λ H, proj2 Hget (or_intror H)) in Hin.
    destruct (bucket_get token _) as [bucket|]; [by exists bucket|].
    by apply elem_of_nil in Hin.
Qed.

(** The index of [create_hash_buckets]: the website bucket of a key holds the
    shells whose website gives that key, in the order of the input, and there
    is no bucket for a key that no shell gives; a name bucket holds a shell
    exactly when its key is a token, longer than 2 characters, of the shell's
    normalized company name. *)
Theorem create_hash_buckets_contents shell_accounts :
  let hb := create_hash_buckets bracketed_netloc_ok shell_accounts in
  (∀ key,
     bucket_get key (website_buckets hb)
     = match filter (λ shell, website_key bracketed_netloc_ok shell = Some key)
                    shell_accounts with
       | [] => None
       | bucket => Some bucket
       end)
  ∧ (∀ token shell,
       (∃ bucket, bucket_get token (name_buckets hb) = Some bucket ∧ shell ∈ bucket)
       ↔ shell ∈ shell_accounts ∧ token ∈ name_tokens shell ∧ 2 < String.length token).
Proof.
  split.
  - apply website_buckets_lookup.
  - apply name_buckets_lookup.
Qed.

(** ** [fast_filter_candidates]: the shells that are never missed *)

(** A shell of the collection is among the candidates, by its identifier,
    when its website gives the same key as the customer's website; and also,
    if the website gave fewer than 10 candidates, when its normalized company
    name shares a token longer than 2 characters with the customer's
    normalized name. *)
Theorem fast_filter_candidates_complete customer shell_accounts shell :
  shell ∈ shell_accounts →
  let hb := create_hash_buckets bracketed_netloc_ok shell_accounts in
  (∃ key,
     domain_company_of bracketed_netloc_ok
       (dict_get (Customer.Website customer) (PyStr "")) = Some key
     ∧ website_key bracketed_netloc_ok shell = Some key)
  ∨ (size (website_candidates bracketed_netloc_ok customer hb) < 10
     ∧ ∃ token,
         token ∈ PyStr.split (normalize_company_name (Customer.Name customer))
         ∧ token ∈ name_tokens shell
         ∧ 2 < String.length token) →
  Shell.Id shell ∈ map Shell.Id (fast_filter_candidates bracketed_netloc_ok customer hb).
Proof.
  intros Hin hb Hshared. unfold fast_filter_candidates.
  apply collect_candidates_spec.
  assert (Hcases :
    (∃ key bucket,
       domain_company_of bracketed_netloc_ok
         (dict_get (Customer.Website customer) (PyStr "")) = Some key
       ∧ bucket_get key (website_buckets hb) = Some bucket ∧ shell ∈ bucket)
    ∨ (size (website_candidates bracketed_netloc_ok customer hb) < 10
       ∧ ∃ token bucket,
           token ∈ PyStr.split (normalize_company_name (Customer.Name customer))
           ∧ 2 < String.length token
           ∧ bucket_get token (name_buckets hb) = Some bucket ∧ shell ∈ bucket)).
  { destruct Hshared as [(key & Hcustomer & Hshell)|(Hsize & token & Htoken & Hname & Hlen)].
    - left. exists key. unfold hb. rewrite website_buckets_lookup.
      assert (Hf : shell ∈ filter (λ shell, website_key bracketed_netloc_ok shell = Some key)
                                  shell_accounts) by by apply list_elem_of_filter.
      destruct (filter _ shell_accounts) as [|x l] eqn:E; [by apply elem_of_nil in Hf|].
      by exists (x :: l).
    - right. split; [done|].
      destruct (proj2 (name_buckets_lookup shell_accounts token shell)) as (bucket & ? & ?);
        [done|].
      by exists token, bucket. }
  split_and!.
  - apply elem_of_name_candidates.
    destruct Hcases as [(key & bucket & ? & ? & ?)|(? & token & bucket & ? & ? & ? & ?)].
    + left. apply elem_of_website_candidates. by exists key, bucket, shell.
    + right. split; [done|]. exists token. split; [done|]. split; [done|].
      by exists bucket, shell.
  - apply not_elem_of_empty.
  - exists shell. split; [|done]. apply elem_of_app.
    destruct Hcases as [(key & bucket & ? & ? & ?)|(? & token & bucket & ? & ? & ? & ?)];
      [left | right]; by eapply bucket_get_concat.
Qed.

End Index_contents.

Lemma fast_filter_candidates_complete_witness :
  Shell.Id acme_shell
  ∈ map Shell.Id
      (fast_filter_candidates any_bracketed_host acme_customer
         (create_hash_buckets any_bracketed_host [unrelated_shell; acme_shell])).
Proof.
  apply (fast_filter_candidates_complete any_bracketed_host acme_customer
           [unrelated_shell; acme_shell] acme_shell).
  - apply elem_of_cons. right. apply list_elem_of_here.
  - left. exists "acme". split; vm_compute; reflexivity.
Defined.

(** ** [extract_company_name_from_domain]: the company name is one word *)

Lemma all_chars_drop p n s : PyStr.all_chars p s = true → PyStr.all_chars p (PyStr.drop n s) = true.
Proof.
  revert s. induction n as [|n IH]; intros [|c s]; simpl; try done.
  intros [_ ?]%andb_prop. by apply IH.
Qed.

Lemma all_chars_impl (p q : ascii → bool) s :
  (∀ c, p c = true → q c = true) → PyStr.all_chars p s = true → PyStr.all_chars q s = true.
Proof.
  intros Hpq. induction s as [|c s IH]; simpl; [done|].
  intros [?%Hpq ?%IH]%andb_prop. by apply andb_true_intro.
Qed.

(** A string does not end with a suffix that has a character of another
    class. *)
Lemma endswith_chars p s suffix :
  PyStr.all_chars p s = true → PyStr.all_chars p suffix = false →
  PyStr.endswith s suffix = false.
Proof.
  intros Hs Hsuffix. unfold PyStr.endswith.
  destruct (String.length suffix <=? String.length s); [|done]. simpl.
  apply String.eqb_neq. intros Heq.
  apply (all_chars_drop p (String.length s - String.length suffix)) in Hs.
  by rewrite Heq, Hsuffix in Hs.
Qed.

Lemma strip_first_suffix_fixed p suffixes s :
  Forall (λ suffix, PyStr.all_chars p suffix = false) suffixes →
  PyStr.all_chars p s = true → strip_first_suffix suffixes s = s.
Proof.
  intros Hsuffixes Hs. induction Hsuffixes as [|suffix suffixes Hsuffix _ IH]; [done|].
  simpl. by rewrite (endswith_chars p s suffix Hs Hsuffix).
Qed.

Lemma strip_business_suffixes_fixed s :
  PyStr.all_chars is_lower_alnum s = true → strip_business_suffixes s = s.
Proof.
  intros Hs. unfold strip_business_suffixes.
  assert (Hall : Forall (λ suffix, Forall (λ pattern,
                   PyStr.all_chars is_lower_alnum pattern = false) (patterns suffix))
                   business_suffixes).
  { unfold business_suffixes. repeat (apply Forall_cons; split; [by repeat constructor|]).
    constructor. }
  induction Hall as [|suffix suffixes Hsuffix _ IH]; [done|].
  cbn [foldl]. by rewrite (strip_first_suffix_fixed is_lower_alnum _ s Hsuffix Hs).
Qed.

Lemma remove_non_alnum_chars s : PyStr.all_chars PyStr.is_alnum (PyStr.remove_non_alnum s) = true.
Proof.
  induction s as [|c s IH]; simpl; [done|].
  destruct (PyStr.is_alnum c) eqn:E; [|done]. simpl. by rewrite E.
Qed.

Lemma lower_char_alnum c : PyStr.is_alnum c = true → is_lower_alnum (PyStr.lower_char c) = true.
Proof. destruct c as [[] [] [] [] [] [] [] []]; vm_compute; congruence. Qed.

Lemma lower_alnum_chars s :
  PyStr.all_chars PyStr.is_alnum s = true → PyStr.all_chars is_lower_alnum (PyStr.lower s) = true.
Proof.
  induction s as [|c s IH]; simpl; [done|].
  intros [?%lower_char_alnum ?%IH]%andb_prop. by apply andb_true_intro.
Qed.

Lemma length_remove_non_alnum s :
  String.length (PyStr.remove_non_alnum s) ≤ String.length s.
Proof.
  induction s as [|c s IH]; simpl; [done|].
  destruct (PyStr.is_alnum c); simpl; lia.
Qed.

Lemma strip_first_suffix_length suffixes s :
  String.length (strip_first_suffix suffixes s) ≤ String.length s.
Proof.
  induction suffixes as [|suffix suffixes IH]; simpl; [done|].
  destruct (PyStr.endswith s suffix); [|done].
  unfold PyStr.drop_last. rewrite length_take. lia.
Qed.

Lemma extract_company_name_from_domain_some domain company :
  extract_company_name_from_domain domain = Some company →
  word company ∧ String.length company ≤ String.length domain.
Proof.
  unfold extract_company_name_from_domain.
  pose proof (strip_first_suffix_length domain_suffixes domain) as Hlen.
  remember (strip_first_suffix domain_suffixes domain) as stripped eqn:Hstripped.
  clear Hstripped.
  destruct (str_truthy domain); cbn [negb]; [|done].
  destruct (str_truthy (PyStr.remove_non_alnum stripped)) eqn:E; [|done].
  intros [= <-]. unfold word. split_and!.
  - intros Hempty. destruct (PyStr.remove_non_alnum stripped); [done | discriminate Hempty].
  - apply lower_alnum_chars, remove_non_alnum_chars.
  - rewrite length_lower.
    pose proof (length_remove_non_alnum stripped). lia.
Qed.

Lemma word_chars w : word w → PyStr.all_chars is_word_or_space w = true.
Proof.
  intros [_ Hw]. eapply all_chars_impl; [|exact Hw].
  intros c Hc. by apply lower_alnum_not_space.
Qed.

Lemma remove_non_alnum_fixed s :
  PyStr.all_chars is_lower_alnum s = true → PyStr.remove_non_alnum s = s.
Proof.
  induction s as [|c s IH]; simpl; [done|].
  intros [Hc ?%IH]%andb_prop.
  assert (PyStr.is_alnum c = true) as ->.
  { revert Hc. destruct c as [[] [] [] [] [] [] [] []]; vm_compute; congruence. }
  by f_equal.
Qed.

(** A word is its own normalized name. *)
Lemma normalize_company_name_word w : word w → normalize_company_name w = w.
Proof.
  intros Hw. pose proof (word_chars w Hw) as Hchars. destruct Hw as [Hne Hw].
  unfold normalize_company_name.
  apply str_truthy_true in Hne as Ht. rewrite Ht. cbn [negb].
  rewrite (lower_fixed w Hchars), (strip_business_suffixes_fixed w Hw), (sub_fixed w Hchars).
  change w with (PyStr.join " " [w]) at 1.
  rewrite split_join_words; [done|]. by apply Forall_singleton.
Qed.


(** ** [compute_website_match]: the same company on both sides *)

Section Same_company.
Variable bracketed_netloc_ok : string -> bool.

Lemma compute_fuzzy_similarity_word w : word w → (compute_fuzzy_similarity w w == 1)%Q.
Proof.
  intros Hw. unfold compute_fuzzy_similarity.
  rewrite (normalize_company_name_word w Hw).
  destruct Hw as [Hne%str_truthy_true _]. rewrite Hne. cbn [negb orb].
  apply ratio_self.
Qed.

Lemma domain_company_of_some website key :
  domain_company_of bracketed_netloc_ok website = Some key →
  truthy website = true
  ∧ ∃ domain,
      nonempty (extract_domain_from_url bracketed_netloc_ok website) = Some domain
      ∧ nonempty (extract_company_name_from_domain domain) = Some key
      ∧ word key.
Proof.
  unfold domain_company_of. destruct (truthy website); [|done].
  destruct (nonempty (extract_domain_from_url _ website)) as [domain|]; [|done].
  intros Hkey. split; [done|]. exists domain. split_and!; [done | done |].
  destruct (extract_company_name_from_domain domain) as [company|] eqn:E; [|done].
  simpl in Hkey. destruct (str_truthy company); [|done].
  injection Hkey as <-. by apply extract_company_name_from_domain_some in E as [? _].
Qed.

Lemma compute_website_match_same_key customer_website shell_zi_website key :
  domain_company_of bracketed_netloc_ok customer_website = Some key →
  domain_company_of bracketed_netloc_ok shell_zi_website = Some key →
  ((compute_website_match bracketed_netloc_ok customer_website shell_zi_website).1 == 100)%Q.
Proof.
  intros (Hc & dc & Hdc & Hkc & Hw)%domain_company_of_some
         (Hs & ds & Hds & Hks & _)%domain_company_of_some.
  unfold compute_website_match. rewrite Hc, Hs. cbn [negb].
  rewrite Hdc, Hds, Hkc, Hks. cbn [fst].
  rewrite (compute_fuzzy_similarity_word key Hw). done.
Qed.

(** Two websites whose domains give the same company name have a website
    score of 100, whatever their schemes, prefixes, suffixes and paths. *)
Theorem compute_website_match_same_company customer_website shell_zi_website key :
  domain_company_of bracketed_netloc_ok customer_website = Some key →
  domain_company_of bracketed_netloc_ok shell_zi_website = Some key →
  ((compute_website_match bracketed_netloc_ok customer_website shell_zi_website).1 == 100)%Q.
Proof. apply compute_website_match_same_key. Qed.

End Same_company.

Lemma compute_website_match_same_company_witness :
  ((compute_website_match any_bracketed_host
      (PyStr "https://www.acme.com/about") (PyStr "ACME.io")).1 == 100)%Q.
Proof.
  apply (compute_website_match_same_company any_bracketed_host _ _ "acme");
    vm_compute; reflexivity.
Defined.

(** ** [normalize_company_name]: case, characters and length *)

Lemma lower_char_idempotent c : PyStr.lower_char (PyStr.lower_char c) = PyStr.lower_char c.
Proof. destruct c as [[] [] [] [] [] [] [] []]; vm_compute; reflexivity. Qed.

Lemma lower_idempotent s : PyStr.lower (PyStr.lower s) = PyStr.lower s.
Proof.
  induction s as [|c s IH]; simpl; [done|]. by rewrite lower_char_idempotent, IH.
Qed.

Lemma str_truthy_lower s : str_truthy (PyStr.lower s) = str_truthy s.
Proof. by destruct s. Qed.




(** ** [extract_domain_from_url]: the scheme of the URL *)

Lemma append_assoc (s1 s2 s3 : string) : (s1 +:+ s2) +:+ s3 = s1 +:+ (s2 +:+ s3).
Proof.
  induction s1 as [|c s1 IH]; [reflexivity|].
  exact (f_equal (String c) IH).
Qed.

Lemma append_cons c (s1 s2 : string) : String c s1 +:+ s2 = String c (s1 +:+ s2).
Proof. reflexivity. Qed.

Lemma append_nil (s : string) : "" +:+ s = s.
Proof. reflexivity. Qed.

(** A string does not start with a prefix that has a character of another
    class. *)
Lemma startswith_chars p s pre :
  PyStr.all_chars p s = true → PyStr.all_chars p pre = false →
  PyStr.startswith s pre = false.
Proof.
  revert s. induction pre as [|a pre IH]; intros [|b s]; simpl; try done.
  intros [Hb Hs]%andb_prop. destruct (Ascii.eqb a b) eqn:E; [|done].
  apply Ascii.eqb_eq in E as ->. rewrite Hb. simpl. by apply IH.
Qed.

Lemma strip_first_prefix_fixed p prefixes s :
  Forall (λ pre, PyStr.all_chars p pre = false) prefixes →
  PyStr.all_chars p s = true → strip_first_prefix prefixes s = s.
Proof.
  intros Hprefixes Hs. induction Hprefixes as [|pre prefixes Hpre _ IH]; [done|].
  simpl. by rewrite (startswith_chars p s pre Hs Hpre).
Qed.

(** The name of a scheme: letters and digits. *)
Lemma startswith_scheme scheme scheme' rest :
  PyStr.all_chars PyStr.is_alnum scheme = true →
  PyStr.all_chars PyStr.is_alnum scheme' = true →
  PyStr.startswith (scheme +:+ "://" +:+ rest) (scheme' +:+ "://") = true →
  scheme = scheme'.
Proof.
  revert scheme'. induction scheme as [|c scheme IH]; intros [|c' scheme'].
  - done.
  - rewrite all_chars_cons. intros _ [Hc _]%andb_prop.
    change (PyStr.startswith ("" +:+ "://" +:+ rest) (String c' scheme' +:+ "://"))
      with (if Ascii.eqb c' ":" then PyStr.startswith ("//" +:+ rest) (scheme' +:+ "://")
            else false).
    destruct (Ascii.eqb c' ":") eqn:E; [|done].
    apply Ascii.eqb_eq in E as ->. done.
  - rewrite all_chars_cons. intros [Hc _]%andb_prop _.
    change (PyStr.startswith (String c scheme +:+ "://" +:+ rest) ("" +:+ "://"))
      with (if Ascii.eqb ":" c then PyStr.startswith (scheme +:+ "://" +:+ rest) "//"
            else false).
    destruct (Ascii.eqb ":" c) eqn:E; [|done].
    apply Ascii.eqb_eq in E as <-. done.
  - rewrite !all_chars_cons. intros [Hc Hs]%andb_prop [Hc' Hs']%andb_prop.
    change (PyStr.startswith (String c scheme +:+ "://" +:+ rest)
                             (String c' scheme' +:+ "://"))
      with (if Ascii.eqb c' c
            then PyStr.startswith (scheme +:+ "://" +:+ rest) (scheme' +:+ "://")
            else false).
    destruct (Ascii.eqb c' c) eqn:E; [|done].
    apply Ascii.eqb_eq in E as ->. intros ?. f_equal. by apply IH.
Qed.

Lemma remove_char_app c s1 s2 :
  PyStr.remove_char c (s1 +:+ s2) = PyStr.remove_char c s1 +:+ PyStr.remove_char c s2.
Proof.
  induction s1 as [|a s1 IH]; [reflexivity|].
  rewrite append_cons. simpl. destruct (Ascii.eqb a c); [done|].
  rewrite append_cons. by f_equal.
Qed.

Lemma remove_unsafe_app s1 s2 :
  UrlParse.remove_unsafe (s1 +:+ s2)
  = UrlParse.remove_unsafe s1 +:+ UrlParse.remove_unsafe s2.
Proof. unfold UrlParse.remove_unsafe. by rewrite !remove_char_app. Qed.

Lemma remove_char_fixed p c s :
  p c = false → PyStr.all_chars p s = true → PyStr.remove_char c s = s.
Proof.
  intros Hc. induction s as [|a s IH]; simpl; [done|].
  intros [Ha ?%IH]%andb_prop. destruct (Ascii.eqb a c) eqn:E.
  - apply Ascii.eqb_eq in E as ->. congruence.
  - by f_equal.
Qed.

Lemma remove_unsafe_alnum s :
  PyStr.all_chars PyStr.is_alnum s = true → UrlParse.remove_unsafe s = s.
Proof.
  intros Hs. unfold UrlParse.remove_unsafe.
  rewrite (remove_char_fixed PyStr.is_alnum "009" s) by first [reflexivity | assumption].
  rewrite (remove_char_fixed PyStr.is_alnum "013" s) by first [reflexivity | assumption].
  by rewrite (remove_char_fixed PyStr.is_alnum "010" s) by first [reflexivity | assumption].
Qed.

Lemma find_colon_alnum scheme rest :
  PyStr.all_chars PyStr.is_alnum scheme = true →
  UrlParse.find ":" (scheme +:+ ":" +:+ rest) = Some (String.length scheme).
Proof.
  induction scheme as [|c scheme IH]; [done|].
  intros [Hc Hs]%andb_prop. rewrite append_cons. simpl.
  destruct (Ascii.eqb c ":") eqn:E.
  - apply Ascii.eqb_eq in E as ->. done.
  - by rewrite (IH Hs).
Qed.

Lemma take_app_length (s1 s2 : string) : PyStr.take (String.length s1) (s1 +:+ s2) = s1.
Proof.
  induction s1 as [|c s1 IH]; [by destruct s2|].
  rewrite append_cons. simpl. by rewrite IH.
Qed.

Lemma drop_app_length (s1 s2 : string) : PyStr.drop (String.length s1) (s1 +:+ s2) = s2.
Proof.
  induction s1 as [|c s1 IH]; [by destruct s2|].
  rewrite append_cons. simpl. by rewrite IH.
Qed.

Lemma until_delim_alnum scheme rest :
  PyStr.all_chars PyStr.is_alnum scheme = true →
  UrlParse.until_delim (scheme +:+ "://" +:+ rest) = scheme +:+ ":".
Proof.
  induction scheme as [|c scheme IH]; [reflexivity|].
  rewrite all_chars_cons. intros [Hc Hs]%andb_prop.
  change (String c scheme +:+ "://" +:+ rest) with (String c (scheme +:+ "://" +:+ rest)).
  change (String c scheme +:+ ":") with (String c (scheme +:+ ":")).
  cbn [UrlParse.until_delim].
  assert (PyStr.contains c "/?#" = false) as ->.
  { revert Hc. destruct c as [[] [] [] [] [] [] [] []]; vm_compute; congruence. }
  by rewrite (IH Hs).
Qed.

Lemma lower_app s1 s2 : PyStr.lower (s1 +:+ s2) = PyStr.lower s1 +:+ PyStr.lower s2.
Proof.
  induction s1 as [|c s1 IH]; [reflexivity|].
  rewrite append_cons. simpl. rewrite append_cons. by f_equal.
Qed.

Lemma remove_non_alnum_app s1 s2 :
  PyStr.remove_non_alnum (s1 +:+ s2)
  = PyStr.remove_non_alnum s1 +:+ PyStr.remove_non_alnum s2.
Proof.
  induction s1 as [|c s1 IH]; [reflexivity|].
  rewrite append_cons. simpl. destruct (PyStr.is_alnum c); [|done].
  rewrite append_cons. by f_equal.
Qed.

Lemma contains_app c s1 s2 :
  PyStr.contains c (s1 +:+ s2) = PyStr.contains c s1 || PyStr.contains c s2.
Proof.
  induction s1 as [|a s1 IH]; [reflexivity|].
  rewrite append_cons. simpl. by rewrite IH, orb_assoc.
Qed.

Lemma contains_chars p c s :
  p c = false → PyStr.all_chars p s = true → PyStr.contains c s = false.
Proof.
  intros Hc. induction s as [|a s IH]; simpl; [done|].
  intros [Ha ?%IH]%andb_prop. destruct (Ascii.eqb a c) eqn:E; [|done].
  apply Ascii.eqb_eq in E as ->. congruence.
Qed.

Lemma startswith_app pre rest : PyStr.startswith (pre +:+ rest) pre = true.
Proof.
  induction pre as [|c pre IH]; [by destruct rest|].
  rewrite append_cons. simpl. by rewrite Ascii.eqb_refl.
Qed.

Lemma add_protocol_http rest : add_protocol ("http://" +:+ rest) = "http://" +:+ rest.
Proof. unfold add_protocol. by rewrite startswith_app. Qed.

Lemma add_protocol_https rest : add_protocol ("https://" +:+ rest) = "https://" +:+ rest.
Proof. unfold add_protocol. by rewrite (startswith_app "https://"), orb_true_r. Qed.

Section Schemes.
Variable bracketed_netloc_ok : string -> bool.

Lemma netloc_http rest :
  UrlParse.netloc bracketed_netloc_ok ("http://" +:+ rest)
  = UrlParse.netloc bracketed_netloc_ok ("https://" +:+ rest).
Proof. reflexivity. Qed.

(** The scheme [http://] gives the same domain as [https://], and so does a
    URL that starts with neither, to which [https://] is added. *)
Theorem extract_domain_from_url_http_https rest :
  extract_domain_from_url bracketed_netloc_ok (PyStr ("http://" +:+ rest))
  = extract_domain_from_url bracketed_netloc_ok (PyStr ("https://" +:+ rest))
  ∧ (rest ≠ "" →
     PyStr.startswith rest "http://" || PyStr.startswith rest "https://" = false →
     extract_domain_from_url bracketed_netloc_ok (PyStr rest)
     = extract_domain_from_url bracketed_netloc_ok (PyStr ("https://" +:+ rest))).
Proof.
  split.
  - unfold extract_domain_from_url.
    change (str_truthy ("http://" +:+ rest)) with true.
    change (str_truthy ("https://" +:+ rest)) with true.
    rewrite add_protocol_http, add_protocol_https.
    cbn [negb]. by rewrite netloc_http.
  - intros Hne%str_truthy_true Hstart. unfold extract_domain_from_url.
    change (str_truthy ("https://" +:+ rest)) with true.
    rewrite add_protocol_https, Hne. unfold add_protocol. by rewrite Hstart.
Qed.

Lemma netloc_other_scheme scheme rest :
  scheme ≠ "" → PyStr.all_chars PyStr.is_alnum scheme = true →
  UrlParse.netloc bracketed_netloc_ok ("https://" +:+ scheme +:+ "://" +:+ rest)
  = Ok (scheme +:+ ":").
Proof.
  intros Hne Hs. unfold UrlParse.netloc.
  change (UrlParse.lstrip_c0 ("https://" +:+ scheme +:+ "://" +:+ rest))
    with ("https://" +:+ scheme +:+ "://" +:+ rest).
  rewrite !remove_unsafe_app, (remove_unsafe_alnum scheme Hs).
  change (UrlParse.remove_unsafe "https://") with "https://".
  change (UrlParse.remove_unsafe "://") with "://".
  change (UrlParse.strip_scheme
            ("https://" +:+ scheme +:+ "://" +:+ UrlParse.remove_unsafe rest))
    with ("//" +:+ scheme +:+ "://" +:+ UrlParse.remove_unsafe rest).
  rewrite (startswith_app "//").
  change (PyStr.drop 2 ("//" +:+ scheme +:+ "://" +:+ UrlParse.remove_unsafe rest))
    with (scheme +:+ "://" +:+ UrlParse.remove_unsafe rest).
  cbv zeta. rewrite (until_delim_alnum scheme _ Hs), !contains_app.
  rewrite !(contains_chars PyStr.is_alnum _ scheme) by done. done.
Qed.

(** A URL with another scheme than lower-case [http] and [https] gets
    [https://] in front, and its domain is the name of its own scheme with a
    colon; the company name of that domain is the name of the scheme, so two
    such URLs with the same scheme have a website score of 100 whatever their
    hosts. *)
Theorem extract_domain_from_url_other_scheme scheme rest rest' :
  scheme ≠ "" → PyStr.all_chars PyStr.is_alnum scheme = true →
  scheme ≠ "http" → scheme ≠ "https" →
  extract_domain_from_url bracketed_netloc_ok (PyStr (scheme +:+ "://" +:+ rest))
  = Some (PyStr.lower scheme +:+ ":")
  ∧ domain_company_of bracketed_netloc_ok (PyStr (scheme +:+ "://" +:+ rest))
    = Some (PyStr.lower scheme)
  ∧ ((compute_website_match bracketed_netloc_ok
        (PyStr (scheme +:+ "://" +:+ rest)) (PyStr (scheme +:+ "://" +:+ rest'))).1
     == 100)%Q.
Proof.
  intros Hne Hs Hhttp Hhttps.
  assert (Hdomain : ∀ rest,
    extract_domain_from_url bracketed_netloc_ok (PyStr (scheme +:+ "://" +:+ rest))
    = Some (PyStr.lower scheme +:+ ":")).
  { clear rest rest'. intros rest. unfold extract_domain_from_url.
    assert (str_truthy (scheme +:+ "://" +:+ rest) = true) as ->.
    { by destruct scheme. }
    cbn [negb]. unfold add_protocol.
    assert (PyStr.startswith (scheme +:+ "://" +:+ rest) "http://" = false) as ->.
    { apply not_true_is_false. intros H.
      by apply (startswith_scheme scheme "http" rest Hs eq_refl) in H. }
    assert (PyStr.startswith (scheme +:+ "://" +:+ rest) "https://" = false) as ->.
    { apply not_true_is_false. intros H.
      by apply (startswith_scheme scheme "https" rest Hs eq_refl) in H. }
    cbn [orb]. rewrite (netloc_other_scheme scheme rest Hne Hs), lower_app.
    change (PyStr.lower ":") with ":". f_equal.
    apply (strip_first_prefix_fixed (λ c, negb (Ascii.eqb c "."))).
    - by repeat constructor.
    - rewrite all_chars_app, andb_true_r.
      eapply all_chars_impl; [|apply (lower_alnum_chars scheme Hs)].
      intros c. destruct c as [[] [] [] [] [] [] [] []]; vm_compute; congruence. }
  assert (Hlower : PyStr.all_chars is_lower_alnum (PyStr.lower scheme) = true)
    by by apply lower_alnum_chars.
  assert (Hlne : str_truthy (PyStr.lower scheme) = true).
  { rewrite str_truthy_lower. by apply str_truthy_true. }
  assert (Hcompany : ∀ rest,
    domain_company_of bracketed_netloc_ok (PyStr (scheme +:+ "://" +:+ rest))
    = Some (PyStr.lower scheme)).
  { clear rest rest'. intros rest. unfold domain_company_of.
    assert (truthy (PyStr (scheme +:+ "://" +:+ rest)) = true) as ->.
    { by destruct scheme. }
    rewrite Hdomain.
    assert (str_truthy (PyStr.lower scheme +:+ ":") = true) as Ht.
    { by destruct (PyStr.lower scheme). }
    unfold nonempty at 1. rewrite Ht.
    unfold extract_company_name_from_domain. rewrite Ht. cbn [negb].
    rewrite (strip_first_suffix_fixed (λ c, negb (Ascii.eqb c "."))).
    - rewrite remove_non_alnum_app, (remove_non_alnum_fixed _ Hlower).
      change (PyStr.remove_non_alnum ":") with "". rewrite append_empty_r, Hlne.
      rewrite lower_idempotent. simpl. by rewrite Hlne.
    - by repeat constructor.
    - rewrite all_chars_app, andb_true_r.
      eapply all_chars_impl; [|exact Hlower].
      intros c. destruct c as [[] [] [] [] [] [] [] []]; vm_compute; congruence. }
  split_and!; [apply Hdomain | apply Hcompany |].
  apply (compute_website_match_same_key bracketed_netloc_ok _ _ (PyStr.lower scheme));
    apply Hcompany.
Qed.

End Schemes.

Lemma extract_domain_from_url_http_https_witness :
  extract_domain_from_url any_bracketed_host (PyStr "acme.com/about")
  = extract_domain_from_url any_bracketed_host (PyStr "https://acme.com/about").
Proof.
  apply (proj2 (extract_domain_from_url_http_https any_bracketed_host "acme.com/about"));
    [discriminate | reflexivity].
Defined.

Lemma extract_domain_from_url_other_scheme_witness :
  extract_domain_from_url any_bracketed_host (PyStr "HTTP://acme.com") = Some "http:"
  ∧ ((compute_website_match any_bracketed_host
        (PyStr "ftp://acme.com") (PyStr "ftp://unrelated.org")).1 == 100)%Q.
Proof.
  split.
  - apply (extract_domain_from_url_other_scheme any_bracketed_host "HTTP" "acme.com" "");
      [discriminate | reflexivity | discriminate | discriminate].
  - apply (extract_domain_from_url_other_scheme any_bracketed_host "ftp"
             "acme.com" "unrelated.org");
      [discriminate | reflexivity | discriminate | discriminate].
Defined.

(** ** The address score: a sum of points *)

Section Address_points.
Local Arguments compare_field : simpl never.
Local Arguments compare_postal : simpl never.

Lemma address_tally_compared customer shell t :
  address_tally customer shell = Ok t →
  t = compare_postal (compared (Customer.BillingPostalCode customer))
                     (compared (Shell.ZI_Company_Postal_Code__c shell))
        (compare_field "City" 30%Q (compared (Customer.BillingCity customer))
                       (compared (Shell.ZI_Company_City__c shell))
           (compare_field "State" 30%Q (compared (Customer.BillingState customer))
                          (compared (Shell.ZI_Company_State__c shell))
              (compare_field "Country" 30%Q (compared (Customer.BillingCountry customer))
                             (compared (Shell.ZI_Company_Country__c shell))
                 (0%Q, [], [])))).
Proof.
  unfold address_tally, compared.
  repeat match goal with
         | |- context [strip_lower ?f] =>
             destruct (strip_lower f) as [?|?]; cbn [mbind py_bind mret py_ret];
             [|discriminate]
         end.
  by intros [= <-].
Qed.

Lemma compare_field_tally label points customer_value shell_value (t : tally) :
  compare_field label points customer_value shell_value t
  = if str_truthy customer_value && str_truthy shell_value
    then if String.eqb customer_value shell_value
         then ((t.1.1 + points)%Q, t.1.2 ++ [label +:+ ": " +:+ customer_value], t.2)
         else (t.1.1, t.1.2,
               t.2 ++ [label +:+ ": " +:+ customer_value +:+ " ≠ " +:+ shell_value])
    else t.
Proof. by destruct t as [[score matches] mismatches]. Qed.

Lemma compare_postal_tally customer_postal shell_postal (t : tally) :
  compare_postal customer_postal shell_postal t
  = if str_truthy customer_postal && str_truthy shell_postal
    then if String.eqb customer_postal shell_postal
         then ((t.1.1 + 10)%Q, t.1.2 ++ ["Postal: " +:+ customer_postal], t.2)
         else t
    else (t.1.1, t.1.2,
          t.2 ++ ["Postal: " +:+ customer_postal +:+ " ≠ " +:+ shell_postal]).
Proof. by destruct t as [[score matches] mismatches]. Qed.

Lemma compare_field_points label points customer_value shell_value (t : tally) :
  ((compare_field label points customer_value shell_value t).1.1
   == t.1.1 + points_if (same_value customer_value shell_value) points)%Q.
Proof.
  rewrite compare_field_tally. unfold same_value, points_if.
  destruct (str_truthy customer_value && str_truthy shell_value),
           (String.eqb customer_value shell_value); simpl; lra.
Qed.

Lemma compare_postal_points customer_postal shell_postal (t : tally) :
  ((compare_postal customer_postal shell_postal t).1.1
   == t.1.1 + points_if (same_value customer_postal shell_postal) 10)%Q.
Proof.
  rewrite compare_postal_tally. unfold same_value, points_if.
  destruct (str_truthy customer_postal && str_truthy shell_postal),
           (String.eqb customer_postal shell_postal); simpl; lra.
Qed.

Lemma compute_address_consistency_score_tally customer shell score explanation :
  compute_address_consistency_score customer shell = Ok (score, explanation) →
  ∃ matches mismatches,
    address_tally customer shell = Ok (score, matches, mismatches)
    ∧ explanation
      = match explanation_part "Matches" matches
              ++ explanation_part "Mismatches" mismatches with
        | [] => "No address data to compare"
        | _ :: _ => PyStr.join "; " (explanation_part "Matches" matches
                                     ++ explanation_part "Mismatches" mismatches)
        end.
Proof.
  unfold compute_address_consistency_score.
  destruct (address_tally customer shell) as [[[s matches] mismatches]|e]; [|done].
  cbn [mbind py_bind mret py_ret]. intros [= <- <-].
  exists matches, mismatches. split; reflexivity.
Qed.

(** The address score is 30 points for each of country, state and city, and
    10 points for the postal code, counted when the two values, stripped and
    lower-cased, are non-empty and equal; differing values take nothing
    away.  So the score is symmetric in the two accounts, and is one of 0,
    10, 30, 40, 60, 70, 90 and 100. *)
Theorem address_score_points customer shell score explanation :
  compute_address_consistency_score customer shell = Ok (score, explanation) →
  let country := same_value (compared (Customer.BillingCountry customer))
                            (compared (Shell.ZI_Company_Country__c shell)) in
  let state := same_value (compared (Customer.BillingState customer))
                          (compared (Shell.ZI_Company_State__c shell)) in
  let city := same_value (compared (Customer.BillingCity customer))
                         (compared (Shell.ZI_Company_City__c shell)) in
  let postal := same_value (compared (Customer.BillingPostalCode customer))
                           (compared (Shell.ZI_Company_Postal_Code__c shell)) in
  (score == points_if country 30 + points_if state 30 + points_if city 30
            + points_if postal 10)%Q
  ∧ (∀ a b, same_value a b = same_value b a)
  ∧ Exists (λ value, (score == value)%Q)
           [0%Q; 10%Q; 30%Q; 40%Q; 60%Q; 70%Q; 90%Q; 100%Q].
Proof.
  intros (matches & mismatches & Htally & _)%compute_address_consistency_score_tally.
  apply address_tally_compared in Htally.
  intros country state city postal.
  assert (Hscore : (score == points_if country 30 + points_if state 30
                             + points_if city 30 + points_if postal 10)%Q).
  { apply (f_equal (λ t : tally, t.1.1)) in Htally. simpl in Htally. rewrite Htally.
    rewrite compare_postal_points, !compare_field_points. fold country state city postal.
    simpl. lra. }
  split_and!.
  - exact Hscore.
  - intros a b. unfold same_value.
    rewrite (andb_comm (str_truthy a)). f_equal. apply String.eqb_sym.
  - clearbody country state city postal. unfold points_if in Hscore.
    destruct country, state, city, postal;
      repeat first [ apply Exists_cons_hd; lra | apply Exists_cons_tl ].
Qed.

(** ** The address explanation: the postal code and "no address data" *)

Lemma explanation_part_nil label items : explanation_part label items = [] → items = [].
Proof. by destruct items. Qed.

Lemma explanation_part_first r items part parts :
  explanation_part (String "M" r) items = part :: parts → ∃ r', part = String "M" r'.
Proof.
  unfold explanation_part. destruct items; [done|]. intros [= <- _].
  eexists. reflexivity.
Qed.

Lemma join_first sep c r rest : ∃ r', PyStr.join sep (String c r :: rest) = String c r'.
Proof. destruct rest; [by exists r|]. eexists. reflexivity. Qed.

Lemma app_nil_singleton {A} (l : list A) x : l ++ [x] = [] → False.
Proof. by destruct l. Qed.

Lemma join_snoc sep l x : ∃ pre, PyStr.join sep (l ++ [x]) = pre +:+ x.
Proof.
  induction l as [|y l [pre IH]]; [by exists ""|].
  destruct l as [|z l].
  - exists (y +:+ sep). simpl. by rewrite append_assoc.
  - exists (y +:+ sep +:+ pre).
    change (PyStr.join sep ((y :: z :: l) ++ [x]))
      with (y +:+ sep +:+ PyStr.join sep ((z :: l) ++ [x])).
    by rewrite IH, !append_assoc.
Qed.

Lemma compare_field_not_listed label points customer_value shell_value (t : tally) :
  (compare_field label points customer_value shell_value t).1.2 = [] →
  (compare_field label points customer_value shell_value t).2 = [] →
  str_truthy customer_value && str_truthy shell_value = false
  ∧ compare_field label points customer_value shell_value t = t.
Proof.
  rewrite compare_field_tally.
  destruct (str_truthy customer_value && str_truthy shell_value); [|done].
  destruct (String.eqb customer_value shell_value); simpl.
  - by intros ?%app_nil_singleton.
  - by intros _ ?%app_nil_singleton.
Qed.

(** When one of the two postal codes is blank, the explanation ends with a
    postal mismatch.  The explanation "No address data to compare" is
    returned only for two accounts that both have a postal code, with
    different values, and that have no country, no state and no city on both
    sides, and then the score is 0; two accounts without any address data get
    a postal mismatch instead. *)
Theorem address_explanation_postal customer shell score explanation :
  compute_address_consistency_score customer shell = Ok (score, explanation) →
  let customer_postal := compared (Customer.BillingPostalCode customer) in
  let shell_postal := compared (Shell.ZI_Company_Postal_Code__c shell) in
  (str_truthy customer_postal && str_truthy shell_postal = false →
   ∃ listed,
     explanation
     = listed +:+ ("Postal: " +:+ customer_postal +:+ " ≠ " +:+ shell_postal))
  ∧ (explanation = "No address data to compare" →
     str_truthy customer_postal && str_truthy shell_postal = true
     ∧ String.eqb customer_postal shell_postal = false
     ∧ (score == 0)%Q
     ∧ str_truthy (compared (Customer.BillingCountry customer))
       && str_truthy (compared (Shell.ZI_Company_Country__c shell)) = false
     ∧ str_truthy (compared (Customer.BillingState customer))
       && str_truthy (compared (Shell.ZI_Company_State__c shell)) = false
     ∧ str_truthy (compared (Customer.BillingCity customer))
       && str_truthy (compared (Shell.ZI_Company_City__c shell)) = false).
Proof.
  intros (matches & mismatches & Htally & Hexplanation)%compute_address_consistency_score_tally.
  apply address_tally_compared in Htally.
  intros customer_postal shell_postal. fold customer_postal shell_postal in Htally.
  revert Htally. rewrite compare_postal_tally.
  set (t := compare_field "City" _ _ _ _). intros Htally. split.
  - intros Hblank. rewrite Hblank in Htally. injection Htally as _ _ ->.
    destruct (join_snoc ", " t.2
                ("Postal: " +:+ customer_postal +:+ " ≠ " +:+ shell_postal)) as [pre Hpre].
    assert (Hpart : explanation_part "Mismatches"
                      (t.2 ++ ["Postal: " +:+ customer_postal +:+ " ≠ " +:+ shell_postal])
                    = ["Mismatches: " +:+ pre
                       +:+ ("Postal: " +:+ customer_postal +:+ " ≠ " +:+ shell_postal)]).
    { unfold explanation_part. rewrite Hpre.
      destruct (t.2 ++ _) eqn:E; [by apply app_nil_singleton in E|].
      by rewrite <- !append_assoc. }
    rewrite Hpart in Hexplanation.
    destruct (explanation_part "Matches" matches) as [|part parts] eqn:Ematches.
    + exists ("Mismatches: " +:+ pre). by rewrite Hexplanation.
    + destruct (join_snoc "; " (part :: parts)
                  ("Mismatches: " +:+ pre
                   +:+ ("Postal: " +:+ customer_postal +:+ " ≠ " +:+ shell_postal)))
        as [pre' Hpre'].
      exists (pre' +:+ "Mismatches: " +:+ pre).
      rewrite !append_assoc, <- Hpre', Hexplanation. reflexivity.
  - intros Hnone. rewrite Hnone in Hexplanation.
    assert (Hparts : explanation_part "Matches" matches
                     ++ explanation_part "Mismatches" mismatches = []).
    { destruct (explanation_part "Matches" matches ++ _) as [|part parts] eqn:Eparts;
        [done|].
      exfalso.
      assert (∃ r, part = String "M" r) as [r ->].
      { destruct (explanation_part "Matches" matches) as [|part' parts'] eqn:Ematches.
        - by apply explanation_part_first in Eparts.
        - injection Eparts as -> _. by apply explanation_part_first in Ematches. }
      destruct (join_first "; " "M" r parts) as [r' Hr'].
      cbv beta iota in Hexplanation. by rewrite Hr' in Hexplanation. }
    apply app_eq_nil in Hparts as [->%explanation_part_nil ->%explanation_part_nil].
    destruct (str_truthy customer_postal && str_truthy shell_postal) eqn:Hboth.
    2: { injection Htally as _ _ Hmis. by apply eq_sym, app_nil_singleton in Hmis. }
    destruct (String.eqb customer_postal shell_postal) eqn:Hsame.
    { injection Htally as _ Hm _. by apply eq_sym, app_nil_singleton in Hm. }
    split; [done|]. split; [done|].
    unfold t in Htally. clear t.
    destruct (compare_field_not_listed "City" 30%Q
                (compared (Customer.BillingCity customer))
                (compared (Shell.ZI_Company_City__c shell))
                (compare_field "State" 30%Q (compared (Customer.BillingState customer))
                   (compared (Shell.ZI_Company_State__c shell))
                   (compare_field "Country" 30%Q
                      (compared (Customer.BillingCountry customer))
                      (compared (Shell.ZI_Company_Country__c shell)) (0%Q, [], []))))
      as [Hcity Hcity']; [by rewrite <- Htally | by rewrite <- Htally |].
    rewrite Hcity' in Htally.
    destruct (compare_field_not_listed "State" 30%Q
                (compared (Customer.BillingState customer))
                (compared (Shell.ZI_Company_State__c shell))
                (compare_field "Country" 30%Q
                   (compared (Customer.BillingCountry customer))
                   (compared (Shell.ZI_Company_Country__c shell)) (0%Q, [], [])))
      as [Hstate Hstate']; [by rewrite <- Htally | by rewrite <- Htally |].
    rewrite Hstate' in Htally.
    destruct (compare_field_not_listed "Country" 30%Q
                (compared (Customer.BillingCountry customer))
                (compared (Shell.ZI_Company_Country__c shell)) (0%Q, [], []))
      as [Hcountry Hcountry']; [by rewrite <- Htally | by rewrite <- Htally |].
    rewrite Hcountry' in Htally. injection Htally as ->. done.
Qed.

End Address_points.

Lemma address_score_points_witness :
  ∃ score explanation,
    compute_address_consistency_score acme_customer acme_shell_78702
    = Ok (score, explanation)
    ∧ (score == 90)%Q.
Proof.
  destruct (compute_address_consistency_score acme_customer acme_shell_78702)
    as [[score explanation]|e] eqn:E.
  - exists score, explanation. split; [reflexivity|].
    rewrite (proj1 (address_score_points _ _ _ _ E)). vm_compute. reflexivity.
  - vm_compute in E. discriminate E.
Defined.

Lemma address_explanation_postal_witness :
  ∃ score explanation listed,
    compute_address_consistency_score acme_customer unrelated_shell
    = Ok (score, explanation)
    ∧ explanation = listed +:+ "Postal: 78701 ≠ ".
Proof.
  destruct (compute_address_consistency_score acme_customer unrelated_shell)
    as [[score explanation]|e] eqn:E.
  - destruct (proj1 (address_explanation_postal _ _ _ _ E)) as [listed Hlisted];
      [reflexivity|].
    exists score, explanation, listed. split; [reflexivity | exact Hlisted].
  - vm_compute in E. discriminate E.
Defined.

(** ** Account identifiers: the suffix of the 18-character form *)

Lemma add_upper_bits_value j chunk chunk_value :
  add_upper_bits j chunk chunk_value
  = chunk_value + 2 ^ j * bits_value (upper_pattern chunk).
Proof.
  revert j chunk_value. induction chunk as [|char rest IH]; intros j chunk_value.
  { simpl. lia. }
  cbn [add_upper_bits]. rewrite IH.
  change (upper_pattern (String char rest))
    with (PyStr.is_upper char :: upper_pattern rest).
  cbn [bits_value]. rewrite Nat.pow_succ_r'.
  destruct (PyStr.is_upper char); lia.
Qed.

Lemma bits_value_bound bits : bits_value bits < 2 ^ length bits.
Proof.
  induction bits as [|b bits IH]; simpl; [lia|].
  destruct b; lia.
Qed.


Lemma length_upper_pattern s : length (upper_pattern s) = String.length s.
Proof.
  unfold upper_pattern. rewrite length_map.
  induction s as [|c s IH]; simpl; [done|]. by rewrite IH.
Qed.

Lemma length_drop n s : String.length (PyStr.drop n s) = String.length s - n.
Proof.
  revert s. induction n as [|n IH]; intros [|c s]; simpl; try done; lia.
Qed.

Lemma length_slice i j s :
  String.length (PyStr.slice i j s) = (j - i) `min` (String.length s - i).
Proof. unfold PyStr.slice. by rewrite length_take, length_drop. Qed.

(** The value of a chunk of at most 5 characters is below 32. *)
Lemma chunk_value_bound chunk :
  String.length chunk ≤ 5 → add_upper_bits 0 chunk 0 < 32.
Proof.
  intros Hlen. rewrite add_upper_bits_value. simpl.
  pose proof (bits_value_bound (upper_pattern chunk)) as Hbound.
  rewrite length_upper_pattern in Hbound.
  assert (2 ^ String.length chunk ≤ 2 ^ 5) by (apply Nat.pow_le_mono_r; lia).
  simpl in *. lia.
Qed.

Lemma base32_char_single chunk_value :
  chunk_value < 32 →
  ∃ c, base32_char chunk_value = String c ""
       ∧ PyStr.is_alnum_char c = true
       ∧ PyStr.is_space c = false.
Proof.
  intros Hlt.
  assert (Hall : forallb (λ v, match base32_char v with
                               | String c EmptyString =>
                                   PyStr.is_alnum_char c && negb (PyStr.is_space c)
                               | _ => false
                               end) (seq 0 32) = true) by (vm_compute; reflexivity).
  assert (Hin : In chunk_value (seq 0 32)) by (apply in_seq; lia).
  apply (proj1 (forallb_forall _ _) Hall) in Hin.
  destruct (base32_char chunk_value) as [|c [|]]; try discriminate Hin.
  exists c. by apply andb_prop in Hin as [Ha Hs%negb_true_iff].
Qed.




Lemma convert_15_to_18_suffix id_15 :
  String.length id_15 = 15 →
  _convert_15_to_18_char_id id_15
  = id_15
    +:+ ((base32_char (add_upper_bits 0 (PyStr.slice 0 5 id_15) 0)
          +:+ base32_char (add_upper_bits 0 (PyStr.slice 5 10 id_15) 0))
         +:+ base32_char (add_upper_bits 0 (PyStr.slice 10 15 id_15) 0)).
Proof.
  intros Hlen. unfold _convert_15_to_18_char_id. by rewrite Hlen.
Qed.

Lemma convert_15_to_18_chars id_15 :
  String.length id_15 = 15 →
  ∃ c1 c2 c3,
    _convert_15_to_18_char_id id_15 = id_15 +:+ String c1 (String c2 (String c3 ""))
    ∧ base32_char (add_upper_bits 0 (PyStr.slice 0 5 id_15) 0) = String c1 ""
    ∧ base32_char (add_upper_bits 0 (PyStr.slice 5 10 id_15) 0) = String c2 ""
    ∧ base32_char (add_upper_bits 0 (PyStr.slice 10 15 id_15) 0) = String c3 ""
    ∧ Forall (λ c, PyStr.is_alnum_char c = true ∧ PyStr.is_space c = false) [c1; c2; c3].
Proof.
  intros Hlen. rewrite (convert_15_to_18_suffix id_15 Hlen).
  destruct (base32_char_single (add_upper_bits 0 (PyStr.slice 0 5 id_15) 0))
    as (c1 & Hc1 & Ha1 & Hs1); [apply chunk_value_bound; rewrite length_slice; lia|].
  destruct (base32_char_single (add_upper_bits 0 (PyStr.slice 5 10 id_15) 0))
    as (c2 & Hc2 & Ha2 & Hs2); [apply chunk_value_bound; rewrite length_slice; lia|].
  destruct (base32_char_single (add_upper_bits 0 (PyStr.slice 10 15 id_15) 0))
    as (c3 & Hc3 & Ha3 & Hs3); [apply chunk_value_bound; rewrite length_slice; lia|].
  exists c1, c2, c3. rewrite Hc1, Hc2, Hc3. split_and!; try done.
  by repeat constructor.
Qed.

(** An identifier of 15 characters gets a suffix of 3 characters, and the
    conversion back cuts it off; any other identifier is returned unchanged.
    So converting to the 18-character form and back is the same as
    converting back. *)
Theorem convert_15_to_18_round_trip id :
  (String.length id = 15 →
   String.length (_convert_15_to_18_char_id id) = 18
   ∧ PyStr.take 15 (_convert_15_to_18_char_id id) = id
   ∧ _convert_18_to_15_char_id (_convert_15_to_18_char_id id) = id)
  ∧ (String.length id ≠ 15 → _convert_15_to_18_char_id id = id)
  ∧ _convert_18_to_15_char_id (_convert_15_to_18_char_id id)
    = _convert_18_to_15_char_id id.
Proof.
  assert (Hother : String.length id ≠ 15 → _convert_15_to_18_char_id id = id).
  { intros Hlen%Nat.eqb_neq. unfold _convert_15_to_18_char_id. by rewrite Hlen. }
  assert (H15 : String.length id = 15 →
                String.length (_convert_15_to_18_char_id id) = 18
                ∧ PyStr.take 15 (_convert_15_to_18_char_id id) = id
                ∧ _convert_18_to_15_char_id (_convert_15_to_18_char_id id) = id).
  { intros Hlen. destruct (convert_15_to_18_chars id Hlen) as (c1 & c2 & c3 & -> & _).
    assert (Hlen18 : String.length (id +:+ String c1 (String c2 (String c3 ""))) = 18).
    { rewrite length_append, Hlen. done. }
    assert (Htake : PyStr.take 15 (id +:+ String c1 (String c2 (String c3 ""))) = id).
    { rewrite <- Hlen. apply take_app_length. }
    split_and!; [done | done |].
    unfold _convert_18_to_15_char_id. by rewrite Hlen18. }
  split_and!; [done | done |].
  destruct (decide (String.length id = 15)) as [Hlen|Hlen].
  - destruct (H15 Hlen) as (_ & _ & ->).
    unfold _convert_18_to_15_char_id. by rewrite Hlen.
  - by rewrite Hother.
Qed.




Lemma convert_15_to_18_round_trip_witness :
  _convert_15_to_18_char_id "001A000001aBcDe" = "001A000001aBcDeIAK"
  ∧ _convert_18_to_15_char_id (_convert_15_to_18_char_id "001A000001aBcDe")
    = "001A000001aBcDe".
Proof.
  split; [reflexivity|].
  apply (proj1 (convert_15_to_18_round_trip "001A000001aBcDe")). reflexivity.
Defined.


(** ** Account identifiers: the format check and the comparison *)

Lemma length_lstrip s :
  String.length (PyStr.lstrip s) ≤ String.length s
  ∧ (String.length (PyStr.lstrip s) = String.length s → PyStr.lstrip s = s).
Proof.
  induction s as [|c s [IHle IHeq]]; [done|]. simpl.
  destruct (PyStr.is_space c); simpl; [|done]. split; lia.
Qed.

Lemma length_rstrip s :
  String.length (PyStr.rstrip s) ≤ String.length s
  ∧ (String.length (PyStr.rstrip s) = String.length s → PyStr.rstrip s = s).
Proof.
  induction s as [|c s [IHle IHeq]]; [done|]. simpl.
  destruct (PyStr.rstrip s) as [|c' r] eqn:E.
  - destruct (PyStr.is_space c); simpl in *; [split; lia|].
    split; [lia|]. intros Hlen. destruct s; [done | discriminate Hlen].
  - simpl in *. split; [lia|]. intros [= Hlen]. by rewrite IHeq.
Qed.

Lemma length_strip s :
  String.length (PyStr.strip s) ≤ String.length s
  ∧ (String.length (PyStr.strip s) = String.length s → PyStr.strip s = s).
Proof.
  unfold PyStr.strip.
  destruct (length_rstrip s) as [Hr Hr'], (length_lstrip (PyStr.rstrip s)) as [Hl Hl'].
  split; [lia|]. intros Hlen. rewrite Hl' by lia. apply Hr'. lia.
Qed.

Lemma lstrip_fixed s :
  PyStr.all_chars (λ c, negb (PyStr.is_space c)) s = true → PyStr.lstrip s = s.
Proof.
  destruct s as [|c s]; [done|]. simpl.
  by intros [->%negb_true_iff _]%andb_prop.
Qed.

Lemma rstrip_fixed s :
  PyStr.all_chars (λ c, negb (PyStr.is_space c)) s = true → PyStr.rstrip s = s.
Proof.
  induction s as [|c s IH]; [done|]. simpl.
  intros [Hc%negb_true_iff Hs]%andb_prop. rewrite (IH Hs), Hc. by destruct s.
Qed.

Lemma strip_fixed s :
  PyStr.all_chars (λ c, negb (PyStr.is_space c)) s = true → PyStr.strip s = s.
Proof. intros Hs. unfold PyStr.strip. by rewrite (rstrip_fixed s Hs), lstrip_fixed. Qed.

Lemma alnum_char_not_space c :
  PyStr.is_alnum_char c = true → negb (PyStr.is_space c) = true.
Proof. destruct c as [[] [] [] [] [] [] [] []]; vm_compute; congruence. Qed.

Lemma isalnum_chars s :
  PyStr.isalnum s = true ↔ s ≠ "" ∧ PyStr.all_chars PyStr.is_alnum_char s = true.
Proof. destruct s; [split; [done | by intros [? _]]|]. by split; [|intros [_ ?]]. Qed.

Lemma startswith_app_l s t pre :
  PyStr.startswith s pre = true → PyStr.startswith (s +:+ t) pre = true.
Proof.
  intros Hs%startswith_split. rewrite Hs, append_assoc. apply startswith_app.
Qed.

(** What the format check accepts. *)
Lemma is_valid_salesforce_id_format_true account_id :
  _is_valid_salesforce_id_format account_id = true ↔
  account_id ≠ ""
  ∧ (String.length (PyStr.strip account_id) = 15
     ∨ String.length (PyStr.strip account_id) = 18)
  ∧ PyStr.all_chars PyStr.is_alnum_char (PyStr.strip account_id) = true
  ∧ PyStr.startswith (PyStr.strip account_id) "001" = true.
Proof.
  unfold _is_valid_salesforce_id_format. rewrite <- str_truthy_true.
  destruct (str_truthy account_id); cbn [negb]; [|by split; [|intros [? _]]].
  destruct (String.length (PyStr.strip account_id) =? 15) eqn:E15;
    [apply Nat.eqb_eq in E15 | apply Nat.eqb_neq in E15];
    (destruct (String.length (PyStr.strip account_id) =? 18) eqn:E18;
     [apply Nat.eqb_eq in E18 | apply Nat.eqb_neq in E18]); cbn [orb negb];
    try (split; [done | intros (_ & [?|?] & _); done]).
  all: destruct (PyStr.isalnum (PyStr.strip account_id)) eqn:Ealnum; cbn [negb];
    [apply isalnum_chars in Ealnum as [_ Ealnum]
    |assert (PyStr.all_chars PyStr.is_alnum_char (PyStr.strip account_id) = false)
       by (destruct (PyStr.strip account_id); [done | exact Ealnum])];
    destruct (PyStr.startswith (PyStr.strip account_id) "001"); cbn [negb];
    split; try done; try (intros (_ & _ & ? & ?); congruence);
    intros _; split_and!; try done; by (left + right).
Qed.

(** An identifier that passes the format check still passes it in its
    18-character form, and the two forms are the same account.  The
    comparison of accounts is reflexive on non-empty identifiers, symmetric
    and transitive. *)
Theorem valid_id_converted account_id :
  (_is_valid_salesforce_id_format account_id = true →
   _is_valid_salesforce_id_format (_convert_15_to_18_char_id account_id) = true
   ∧ _are_same_account_id account_id (_convert_15_to_18_char_id account_id) = true)
  ∧ (account_id ≠ "" → _are_same_account_id account_id account_id = true)
  ∧ (∀ id2, _are_same_account_id account_id id2 = _are_same_account_id id2 account_id)
  ∧ (∀ id2 id3,
       _are_same_account_id account_id id2 = true →
       _are_same_account_id id2 id3 = true →
       _are_same_account_id account_id id3 = true).
Proof.
  assert (Hrefl : account_id ≠ "" → _are_same_account_id account_id account_id = true).
  { intros Hne%str_truthy_true. unfold _are_same_account_id. rewrite Hne.
    cbn [negb orb]. apply String.eqb_refl. }
  split_and!.
  - intros Hvalid.
    destruct (decide (String.length account_id = 15)) as [Hlen|Hlen].
    2: { apply Nat.eqb_neq in Hlen. unfold _convert_15_to_18_char_id.
         rewrite Hlen. cbn [negb]. split; [done|]. apply Hrefl.
         by apply is_valid_salesforce_id_format_true in Hvalid as [? _]. }
    apply is_valid_salesforce_id_format_true in Hvalid
      as (Hne & Hstrip & Halnum & Hstart).
    destruct (length_strip account_id) as [Hle Hfixed].
    assert (Hsame : PyStr.strip account_id = account_id) by (apply Hfixed; lia).
    rewrite Hsame in Hstrip, Halnum, Hstart. clear Hle Hfixed.
    destruct (convert_15_to_18_chars account_id Hlen)
      as (c1 & c2 & c3 & Hid & _ & _ & _ & Hchars).
    assert (Halnum18 : PyStr.all_chars PyStr.is_alnum_char
                         (_convert_15_to_18_char_id account_id) = true).
    { rewrite Hid, all_chars_app, Halnum. simpl.
      apply Forall_cons in Hchars as [[-> _] Hchars].
      apply Forall_cons in Hchars as [[-> _] Hchars].
      by apply Forall_cons in Hchars as [[-> _] _]. }
    assert (Hstrip18 : PyStr.strip (_convert_15_to_18_char_id account_id)
                       = _convert_15_to_18_char_id account_id).
    { apply strip_fixed. eapply all_chars_impl; [|exact Halnum18].
      apply alnum_char_not_space. }
    assert (Hlen18 : String.length (_convert_15_to_18_char_id account_id) = 18).
    { rewrite Hid, length_append, Hlen. done. }
    split.
    + apply is_valid_salesforce_id_format_true. rewrite Hstrip18. split_and!.
      * rewrite Hid. by destruct account_id.
      * by right.
      * done.
      * rewrite Hid. by apply startswith_app_l.
    + unfold _are_same_account_id.
      apply str_truthy_true in Hne as ->.
      assert (str_truthy (_convert_15_to_18_char_id account_id) = true) as ->.
      { rewrite Hid. by destruct account_id. }
      cbn [negb orb]. rewrite Hsame, Hstrip18.
      unfold _convert_18_to_15_char_id. rewrite Hlen, Hlen18.
      change (15 =? 15) with true. change (18 =? 15) with false.
      change (18 =? 18) with true. cbv iota.
      pose proof (take_app_length account_id (String c1 (String c2 (String c3 ""))))
        as Htake.
      rewrite Hlen in Htake. rewrite Hid, Htake. apply String.eqb_refl.
  - exact Hrefl.
  - intros id2. unfold _are_same_account_id.
    rewrite (orb_comm (negb (str_truthy account_id))).
    destruct (negb (str_truthy id2) || negb (str_truthy account_id)); [done|].
    apply String.eqb_sym.
  - intros id2 id3. unfold _are_same_account_id.
    destruct (str_truthy account_id), (str_truthy id2), (str_truthy id3);
      cbn [negb orb]; try done.
    intros H12%String.eqb_eq H23%String.eqb_eq. apply String.eqb_eq. congruence.
Qed.

Lemma valid_id_converted_witness :
  _is_valid_salesforce_id_format (_convert_15_to_18_char_id "001A000001aBcDe") = true
  ∧ _are_same_account_id "001A000001aBcDe" (_convert_15_to_18_char_id "001A000001aBcDe")
    = true.
Proof.
  apply (proj1 (valid_id_converted "001A000001aBcDe")). reflexivity.
Defined.

(** ** [validate_customer_account_ids]: every identifier is counted *)

Lemma split_by_format_from valid invalid account_ids :
  foldl (λ '(format_valid_ids, format_invalid_ids) original_id,
           let original_id_str := PyStr.strip original_id in
           if _is_valid_salesforce_id_format original_id_str
           then (format_valid_ids ++ [original_id_str], format_invalid_ids)
           else (format_valid_ids, format_invalid_ids ++ [original_id_str]))
        (valid, invalid) account_ids
  = (valid ++ filter (λ id, _is_valid_salesforce_id_format id = true)
                     (map PyStr.strip account_ids),
     invalid ++ filter (λ id, _is_valid_salesforce_id_format id ≠ true)
                       (map PyStr.strip account_ids)).
Proof.
  revert valid invalid. induction account_ids as [|id ids IH]; intros valid invalid.
  { simpl. by rewrite !app_nil_r. }
  cbn [foldl map]. rewrite !filter_cons.
  destruct (_is_valid_salesforce_id_format (PyStr.strip id)) eqn:E.
  - rewrite IH, decide_True, decide_False by first [done | by intros H; apply H].
    by rewrite <- app_assoc.
  - rewrite IH, decide_False, decide_True by done. by rewrite <- app_assoc.
Qed.

Lemma split_by_format_filter account_ids :
  split_by_format account_ids
  = (filter (λ id, _is_valid_salesforce_id_format id = true) (map PyStr.strip account_ids),
     filter (λ id, _is_valid_salesforce_id_format id ≠ true) (map PyStr.strip account_ids)).
Proof. apply split_by_format_from. Qed.

Lemma query_ids_and_mapping_from query_account_ids (id_mapping : gmap string string)
    format_valid_ids :
  let r := foldl add_query_id (query_account_ids, id_mapping) format_valid_ids in
  r.1 = query_account_ids ++ map query_id_of format_valid_ids
  ∧ (∀ query_id original_id,
       r.2 !! query_id = Some original_id →
       id_mapping !! query_id = Some original_id
       ∨ (original_id ∈ format_valid_ids ∧ query_id_of original_id = query_id))
  ∧ (∀ query_id, is_Some (id_mapping !! query_id) → is_Some (r.2 !! query_id))
  ∧ (∀ original_id, original_id ∈ format_valid_ids →
       is_Some (r.2 !! query_id_of original_id))
  ∧ (NoDup (map query_id_of format_valid_ids) →
     ∀ original_id, original_id ∈ format_valid_ids →
       r.2 !! query_id_of original_id = Some original_id).
Proof.
  revert query_account_ids id_mapping.
  induction format_valid_ids as [|id ids IH]; intros query_account_ids id_mapping.
  { simpl. rewrite app_nil_r. split_and!; try done.
    - by left.
    - by intros ? ?%elem_of_nil.
    - by intros _ ? ?%elem_of_nil. }
  cbn [foldl].
  change (add_query_id (query_account_ids, id_mapping) id)
    with (query_account_ids ++ [query_id_of id], <[query_id_of id := id]> id_mapping).
  cbv zeta.
  destruct (IH (query_account_ids ++ [query_id_of id])
               (<[query_id_of id := id]> id_mapping)) as (Hq & Hsome & Hkeep & Hin & Hnodup).
  split_and!.
  - rewrite Hq. cbn [map]. by rewrite <- app_assoc.
  - intros query_id original_id Hlookup.
    apply Hsome in Hlookup as [Hlookup|[? ?]].
    + rewrite lookup_insert in Hlookup. case_decide as Hkey.
      * injection Hlookup as <-. right. split; [apply list_elem_of_here | done].
      * by left.
    + right. split; [by apply list_elem_of_further | done].
  - intros query_id Hmapped. apply Hkeep. rewrite lookup_insert.
    case_decide; [by eexists | done].
  - intros original_id [->|Hrest]%elem_of_cons; [|by apply Hin].
    apply Hkeep. rewrite lookup_insert_eq. by eexists.
  - intros Hnd original_id Horiginal. apply NoDup_cons in Hnd as [Hfresh Hnd].
    apply elem_of_cons in Horiginal as [->|Hrest]; [|by apply Hnodup].
    destruct (Hkeep (query_id_of id)) as [x Hx]; [rewrite lookup_insert_eq; by eexists|].
    rewrite Hx. apply Hsome in Hx as [Hx|[Hx Hx']].
    + rewrite lookup_insert_eq in Hx. done.
    + exfalso. apply Hfresh. rewrite <- Hx'. by apply list_elem_of_fmap_2.
Qed.

Lemma length_filter_both {A} (P : A → Prop) `{∀ x, Decision (P x)} (l : list A) :
  length (filter P l) + length (filter (λ x, ¬ P x) l) = length l.
Proof.
  induction l as [|x l IH]; [done|]. rewrite !filter_cons.
  destruct (decide (P x)).
  - rewrite decide_False by tauto. simpl. lia.
  - rewrite decide_True by done. simpl. lia.
Qed.

Lemma filter_both_permutation {A} (P : A → Prop) `{∀ x, Decision (P x)} (l : list A) :
  filter P l ++ filter (λ x, ¬ P x) l ≡ₚ l.
Proof.
  induction l as [|x l IH]; [done|]. rewrite !filter_cons.
  destruct (decide (P x)).
  - rewrite decide_False by tauto. simpl. by rewrite IH.
  - rewrite decide_True by done. rewrite <- Permutation_middle. by rewrite IH.
Qed.

Lemma Forall_filter_keep {A} (P Q : A → Prop) `{∀ x, Decision (Q x)} (l : list A) :
  Forall P l → Forall P (filter Q l).
Proof.
  rewrite !Forall_forall. intros Hall x [_ ?]%list_elem_of_filter. by apply Hall.
Qed.

Lemma mapM_lookup_total (id_mapping : gmap string string) query_ids :
  Forall (λ query_id, is_Some (id_mapping !! query_id)) query_ids →
  ∃ originals,
    mapM (λ query_id, id_mapping !! query_id) query_ids = Some originals
    ∧ Forall2 (λ query_id original_id, id_mapping !! query_id = Some original_id)
              query_ids originals.
Proof.
  intros Hall. apply mapM_is_Some_2 in Hall as [originals Heq].
  exists originals. split; [done|]. by apply mapM_Some_1.
Qed.

Section Validate_counts.
Variable query : list string → option (list string).

(** When the connection is there and the query returns, a non-empty list of
    identifiers always gets a result, and every identifier is counted once:
    the valid and the invalid counts add up to the number requested.  An
    identifier that fails the format check is among the invalid ones; a valid
    one is a stripped input identifier that passes it.  When no two
    identifiers have the same 18-character form, the two lists together are
    the stripped input identifiers. *)
Theorem validate_customer_account_ids_counts account_ids :
  account_ids ≠ [] →
  (∀ query_account_ids, is_Some (query query_account_ids)) →
  ∃ r message,
    validate_customer_account_ids query true account_ids = (Some r, message)
    ∧ Validation.total_requested r = Some (length account_ids)
    ∧ Validation.valid_count r = Some (length (Validation.valid_account_ids r))
    ∧ Validation.invalid_count r = Some (length (Validation.invalid_account_ids r))
    ∧ length (Validation.valid_account_ids r)
      + length (Validation.invalid_account_ids r) = length account_ids
    ∧ (∀ id, id ∈ account_ids →
         _is_valid_salesforce_id_format (PyStr.strip id) = false →
         PyStr.strip id ∈ Validation.invalid_account_ids r)
    ∧ (∀ id, id ∈ Validation.valid_account_ids r →
         _is_valid_salesforce_id_format id = true
         ∧ ∃ original_id, original_id ∈ account_ids ∧ id = PyStr.strip original_id)
    ∧ (NoDup (map query_id_of
                (filter (λ id, _is_valid_salesforce_id_format id = true)
                        (map PyStr.strip account_ids))) →
       Validation.valid_account_ids r ++ Validation.invalid_account_ids r
       ≡ₚ map PyStr.strip account_ids).
Proof.
  intros Hne Hquery. unfold validate_customer_account_ids. cbn [negb].
  destruct account_ids as [|id0 ids0] eqn:Eids; [done|]. rewrite <- Eids. clear Hne.
  rewrite split_by_format_filter.
  set (stripped := map PyStr.strip account_ids).
  set (format_valid := filter (λ id, _is_valid_salesforce_id_format id = true) stripped).
  set (format_invalid := filter (λ id, _is_valid_salesforce_id_format id ≠ true) stripped).
  pose proof (query_ids_and_mapping_from [] ∅ format_valid) as Hmapping.
  unfold query_ids_and_mapping.
  destruct (foldl _ ([], ∅) format_valid) as [query_account_ids id_mapping].
  cbv zeta in Hmapping. cbn [fst snd] in Hmapping.
  destruct Hmapping as (Hq & Hsome & _ & Hin & Hnodup). cbn [app] in Hq.
  assert (Hkeys : Forall (λ query_id, is_Some (id_mapping !! query_id)) query_account_ids).
  { rewrite Hq. apply Forall_fmap, Forall_forall. intros original_id ?. by apply Hin. }
  assert (Hfound : ∃ (found_ids : gset string) valid missing,
            found_and_missing query query_account_ids id_mapping = Some (valid, missing)
            ∧ Forall2 (λ query_id original_id, id_mapping !! query_id = Some original_id)
                      (filter (λ query_id, query_id ∈ found_ids) query_account_ids) valid
            ∧ Forall2 (λ query_id original_id, id_mapping !! query_id = Some original_id)
                      (filter (λ query_id, query_id ∉ found_ids) query_account_ids)
                      missing).
  { unfold found_and_missing. destruct query_account_ids as [|q qs] eqn:Eq.
    - exists ∅, [], []. split_and!; [done | constructor | constructor].
    - rewrite <- Eq in *. destruct (Hquery query_account_ids) as [records ->].
      cbn [mbind option_bind].
      set (found_ids := list_to_set records : gset string).
      destruct (mapM_lookup_total id_mapping
                  (filter (λ query_id, query_id ∈ found_ids) query_account_ids))
        as (valid & -> & Hvalid); [by apply Forall_filter_keep|].
      destruct (mapM_lookup_total id_mapping
                  (filter (λ query_id, query_id ∉ found_ids) query_account_ids))
        as (missing & -> & Hmissing); [by apply Forall_filter_keep|].
      by exists found_ids, valid, missing. }
  destruct Hfound as (found_ids & valid & missing & -> & Hvalid & Hmissing).
  eexists _, _. split; [reflexivity|]. cbn.
  assert (Hlen : length valid + length missing = length format_valid).
  { rewrite <- (Forall2_length _ _ _ Hvalid), <- (Forall2_length _ _ _ Hmissing).
    rewrite (length_filter_both (λ query_id, query_id ∈ found_ids)), Hq.
    by rewrite length_map. }
  assert (Hall : length format_valid + length format_invalid = length account_ids).
  { unfold format_valid, format_invalid.
    rewrite (length_filter_both (λ id, _is_valid_salesforce_id_format id = true)).
    unfold stripped. by rewrite length_map. }
  split_and!; try done.
  - rewrite length_app. lia.
  - intros id Hid Hformat. apply elem_of_app. left.
    apply list_elem_of_filter. split; [by rewrite Hformat|].
    by apply list_elem_of_fmap_2.
  - intros id Hid.
    apply list_elem_of_lookup in Hid as [i Hi].
    destruct (Forall2_lookup_r _ _ _ _ _ Hvalid Hi) as (query_id & _ & Hlookup).
    apply Hsome in Hlookup as [Hlookup|[Horiginal _]]; [by rewrite lookup_empty in Hlookup|].
    apply list_elem_of_filter in Horiginal as [Hformat Hstripped].
    split; [done|]. apply list_elem_of_fmap in Hstripped as (original_id & -> & ?).
    by exists original_id.
  - intros Hnd. specialize (Hnodup Hnd).
    assert (Hsame : ∀ (P : string → Prop) `{∀ x, Decision (P x)} originals,
              Forall2 (λ query_id original_id, id_mapping !! query_id = Some original_id)
                      (filter P query_account_ids) originals →
              originals = filter (λ id, P (query_id_of id)) format_valid).
    { intros P HP. rewrite Hq. clear Hq Hkeys Hvalid Hmissing Hlen Hall Hnd Hsome Hin.
      revert Hnodup. generalize format_valid.
      induction format_valid0 as [|id ids IH]; intros Hnodup originals.
      { by intros ->%Forall2_nil_inv_l. }
      cbn [map]. rewrite !filter_cons. destruct (decide (P (query_id_of id))).
      - intros (original & originals' & Hhead & Htail & ->)%Forall2_cons_inv_l.
        rewrite (Hnodup id) in Hhead by apply list_elem_of_here.
        injection Hhead as <-. f_equal. apply IH; [|done].
        intros ? ?. apply Hnodup. by apply list_elem_of_further.
      - apply IH. intros ? ?. apply Hnodup. by apply list_elem_of_further. }
    rewrite (Hsame (λ query_id, query_id ∈ found_ids) _ valid Hvalid).
    rewrite (Hsame (λ query_id, query_id ∉ found_ids) _ missing Hmissing).
    rewrite (Permutation_app_comm format_invalid), app_assoc.
    rewrite (filter_both_permutation (λ id, query_id_of id ∈ found_ids)).
    unfold format_valid, format_invalid.
    apply (filter_both_permutation (λ id, _is_valid_salesforce_id_format id = true)).
Qed.

End Validate_counts.

Lemma validate_customer_account_ids_counts_witness :
  ∃ r message,
    validate_customer_account_ids (λ _, Some ["001A000001aBcDeIAK"]) true
      ["001A000001aBcDe"; " 001B000001aBcDe "; "12345"]
    = (Some r, message)
    ∧ length (Validation.valid_account_ids r)
      + length (Validation.invalid_account_ids r) = 3.
Proof.
  destruct (validate_customer_account_ids_counts (λ _, Some ["001A000001aBcDeIAK"])
              ["001A000001aBcDe"; " 001B000001aBcDe "; "12345"])
    as (r & message & Hrun & _ & _ & _ & Hcount & _);
    [discriminate | by eexists |].
  exists r, message. split; assumption.
Defined.

(** Two identifiers with the same 18-character form: the second one is
    reported twice and the first one is in neither list. *)
Example validate_customer_account_ids_same_account :
  validate_customer_account_ids (λ _, Some ["001A000001aBcDeIAK"]) true
    ["001A000001aBcDe"; "001A000001aBcDeIAK"]
  = (Some {| Validation.valid_account_ids :=
               ["001A000001aBcDeIAK"; "001A000001aBcDeIAK"];
             Validation.invalid_account_ids := [];
             Validation.total_requested := Some 2;
             Validation.valid_count := Some 2;
             Validation.invalid_count := Some 0 |},
     All_account_IDs_are_valid 2).
Proof. vm_compute. reflexivity. Qed.

(** ** [find_best_shell_match]: the counts of a success *)

Section Success_counts.
Variable bracketed_netloc_ok : string -> bool.

Lemma scored_candidates_length customer shell_accounts :
  length (scored_candidates bracketed_netloc_ok customer shell_accounts)
  ≤ length shell_accounts.
Proof.
  unfold scored_candidates.
  destruct (fast_filter_candidates _ _ _) as [|candidate candidates] eqn:E; [done|].
  rewrite <- E. apply submseteq_length, NoDup_submseteq.
  - apply (NoDup_fmap_1 Shell.Id). unfold fast_filter_candidates.
    apply collect_candidates_spec.
  - intros shell. apply fast_filter_candidates_elem.
Qed.

Lemma find_best_shell_match_success customer shell_accounts result :
  find_best_shell_match bracketed_netloc_ok customer shell_accounts = Ok result →
  shell_accounts ≠ [] →
  ∃ best,
    success result = true
    ∧ best_match result = Some best
    ∧ candidate_count result
      = Some (length (scored_candidates bracketed_netloc_ok customer shell_accounts))
    ∧ total_shells result = Some (length shell_accounts)
    ∧ BestMatch.shell_account best ∈ shell_accounts.
Proof.
  unfold find_best_shell_match.
  destruct shell_accounts as [|shell0 rest]; [done|]. intros Hrun _. revert Hrun.
  cbv zeta. fold (scored_candidates bracketed_netloc_ok customer (shell0 :: rest)).
  destruct (rank_shell_candidates _ customer _) as [ranked|e] eqn:Er; [|done].
  cbn [mbind py_bind mret py_ret].
  pose proof (rank_shell_candidates_length _ _ _ _ Er) as Hlen.
  apply rank_shell_candidates_scored in Er as (scored & Hscored & ->).
  apply score_candidates_shells in Hscored as [Hmap _].
  set (before := λ x y : Ranked.t, Qleb (Ranked.rank_score y) (Ranked.rank_score x)) in *.
  pose proof (stable_sort_perm before scored) as Hperm.
  destruct (stable_sort before scored) as [|best sorted].
  { pose proof (scored_candidates_nonempty bracketed_netloc_ok customer (shell0 :: rest)).
    destruct (scored_candidates _ _ _); [naive_solver | discriminate Hlen]. }
  intros [= <-]. eexists. split_and!; try reflexivity. cbn.
  apply (scored_candidates_elem bracketed_netloc_ok customer).
  rewrite <- Hmap. apply list_elem_of_fmap_2. rewrite <- Hperm. apply list_elem_of_here.
Qed.

Lemma find_best_shell_match_raises_blank customer shell_accounts :
  customer_address_not_null customer = false →
  shell_accounts ≠ [] →
  find_best_shell_match bracketed_netloc_ok customer shell_accounts = Raise AttributeError.
Proof.
  intros Hnull Hne. unfold find_best_shell_match.
  destruct shell_accounts as [|shell rest]; [done|].
  unfold rank_shell_candidates.
  destruct (fast_filter_candidates _ _ _) as [|candidate candidates];
    by rewrite score_candidates_raises.
Qed.

End Success_counts.

(** ** [filter_customer_accounts_by_bad_domains]: clean or flagged *)

Section Bad_domain_filter.
Variable check_account_for_bad_domains : Customer.t → bool * string.

Lemma compute_bad_domain_flag_eq account :
  compute_bad_domain_flag check_account_for_bad_domains account
  = check_account_for_bad_domains account.
Proof.
  unfold compute_bad_domain_flag. by destruct (check_account_for_bad_domains account).
Qed.

Lemma filter_customer_accounts_from clean flagged customer_accounts :
  let with_flag account :=
    {| Checked.account := account;
       Checked.is_bad := (check_account_for_bad_domains account).1;
       Checked.explanation := (check_account_for_bad_domains account).2 |} in
  foldl (add_checked check_account_for_bad_domains) (clean, flagged) customer_accounts
  = (clean ++ filter (λ checked, Checked.is_bad checked = false)
                     (map with_flag customer_accounts),
     flagged ++ filter (λ checked, Checked.is_bad checked ≠ false)
                       (map with_flag customer_accounts)).
Proof.
  intros with_flag. revert clean flagged.
  induction customer_accounts as [|account accounts IH]; intros clean flagged.
  { simpl. by rewrite !app_nil_r. }
  cbn [foldl map]. rewrite !filter_cons. unfold add_checked at 2.
  rewrite compute_bad_domain_flag_eq. fold (with_flag account).
  change (Checked.is_bad (with_flag account))
    with ((check_account_for_bad_domains account).1).
  destruct ((check_account_for_bad_domains account).1) eqn:E.
  - rewrite IH, decide_False, decide_True by done. by rewrite <- app_assoc.
  - rewrite IH, decide_True, decide_False by first [done | by intros H; apply H].
    by rewrite <- app_assoc.
Qed.

Lemma filter_customer_accounts_by_bad_domains_split customer_accounts :
  let with_flag account :=
    {| Checked.account := account;
       Checked.is_bad := (check_account_for_bad_domains account).1;
       Checked.explanation := (check_account_for_bad_domains account).2 |} in
  let r := filter_customer_accounts_by_bad_domains check_account_for_bad_domains
             customer_accounts in
  r.1 = filter (λ checked, Checked.is_bad checked = false) (map with_flag customer_accounts)
  ∧ Forall (λ flagged, Checked.is_bad flagged = true) r.2
  ∧ length r.1 + length r.2 = length customer_accounts
  ∧ map Checked.account r.1 ++ map Checked.account r.2 ≡ₚ customer_accounts.
Proof.
  intros with_flag. unfold filter_customer_accounts_by_bad_domains.
  rewrite filter_customer_accounts_from. fold with_flag. cbn [app fst snd].
  split_and!; [done | | |].
  - apply Forall_forall. intros flagged [Hbad _]%list_elem_of_filter.
    by destruct (Checked.is_bad flagged).
  - rewrite (length_filter_both (λ checked, Checked.is_bad checked = false)).
    by rewrite length_map.
  - rewrite <- map_app.
    rewrite (filter_both_permutation (λ checked, Checked.is_bad checked = false)).
    rewrite map_map. by rewrite map_id.
Qed.

(** Every account goes, with its flag, either to the clean or to the flagged
    accounts, in the order of the input: the clean ones are the accounts
    that the check does not find bad, and the flagged ones are those it
    finds bad. *)
Theorem filter_customer_accounts_by_bad_domains_partition customer_accounts :
  let with_flag account :=
    {| Checked.account := account;
       Checked.is_bad := (check_account_for_bad_domains account).1;
       Checked.explanation := (check_account_for_bad_domains account).2 |} in
  let '(clean_accounts, flagged_accounts) :=
    filter_customer_accounts_by_bad_domains check_account_for_bad_domains
      customer_accounts in
  clean_accounts
  = filter (λ checked, Checked.is_bad checked = false) (map with_flag customer_accounts)
  ∧ flagged_accounts
    = filter (λ checked, Checked.is_bad checked ≠ false) (map with_flag customer_accounts)
  ∧ length clean_accounts + length flagged_accounts = length customer_accounts
  ∧ map Checked.account clean_accounts ++ map Checked.account flagged_accounts
    ≡ₚ customer_accounts.
Proof.
  intros with_flag. unfold filter_customer_accounts_by_bad_domains.
  rewrite filter_customer_accounts_from. fold with_flag. cbn [app].
  split_and!; [done | done | |].
  - rewrite (length_filter_both (λ checked, Checked.is_bad checked = false)).
    by rewrite length_map.
  - rewrite <- map_app.
    rewrite (filter_both_permutation (λ checked, Checked.is_bad checked = false)).
    rewrite map_map. by rewrite map_id.
Qed.

End Bad_domain_filter.

(** ** [process_matching_batch]: what becomes of every customer *)

Section Matching_batch_results.
Variable bracketed_netloc_ok : string -> bool.
Variable check_account_for_bad_domains : Customer.t → bool * string.
Variable get_customer_accounts_bulk : list string → option (list Customer.t).
Variable get_shell_accounts_bulk : list string → option (list Shell.t).

Lemma match_customer_raised shell_data customers :
  foldl (match_customer bracketed_netloc_ok shell_data) None customers = None.
Proof. by induction customers. Qed.

(** The loop over the clean customers, when it ends without an exception. *)
Lemma match_customers_results shell_data customers matched0 unmatched0 matched unmatched :
  foldl (match_customer bracketed_netloc_ok shell_data) (Some (matched0, unmatched0))
        customers
  = Some (matched, unmatched) →
  ∃ matched' unmatched',
    matched = matched0 ++ matched'
    ∧ unmatched = unmatched0 ++ unmatched'
    ∧ map MatchedPair.customer_account matched'
      ++ map UnmatchedCustomer.customer_account unmatched'
      ≡ₚ map Checked.account customers
    ∧ (shell_data ≠ [] → unmatched' = [])
    ∧ (shell_data = [] →
       matched' = []
       ∧ Forall (λ x, UnmatchedCustomer.reason x = No_shell_accounts_provided) unmatched')
    ∧ Forall (λ pair,
                MatchedPair.recommended_shell pair ∈ shell_data
                ∧ MatchedPair.total_shells pair = length shell_data
                ∧ 1 ≤ MatchedPair.candidate_count pair
                ∧ MatchedPair.candidate_count pair ≤ MatchedPair.total_shells pair)
             matched'.
Proof.
  revert matched0 unmatched0.
  induction customers as [|customer customers IH]; intros matched0 unmatched0.
  { intros [= <- <-]. exists [], []. rewrite !app_nil_r. split_and!; done. }
  cbn [foldl]. unfold match_customer at 2. cbn [mbind option_bind].
  destruct (find_best_shell_match _ (Checked.account customer) shell_data)
    as [match_result|e] eqn:Erun; [|by rewrite match_customer_raised].
  destruct (find_best_shell_match_cases _ _ _ _ Erun)
    as [(Hempty & Hsuccess & Hmessage & _)|(Hne & Hsuccess & _)]; rewrite Hsuccess.
  - intros (matched' & unmatched' & -> & -> & Hperm & Hall & Hnone & Hpairs)%IH.
    eexists matched', (_ :: unmatched'). rewrite <- app_assoc.
    split_and!; [reflexivity | reflexivity | | | |]; try done.
    + cbn [map]. rewrite <- Permutation_middle. by rewrite Hperm.
    + intros [Hm Hu]%Hnone. split; [done|]. by constructor.
  - destruct (find_best_shell_match_success _ _ _ _ Erun Hne)
      as (best & _ & -> & -> & -> & Hbest).
    cbn [mbind option_bind].
    intros (matched' & unmatched' & -> & -> & Hperm & Hall & Hnone & Hpairs)%IH.
    eexists (_ :: matched'), unmatched'. rewrite <- app_assoc.
    split_and!; [reflexivity | reflexivity | | | |]; try done.
    + cbn [map app]. by rewrite Hperm.
    + constructor; [|done]. cbn. split_and!; [done | done | |].
      * pose proof (scored_candidates_nonempty bracketed_netloc_ok
                      (Checked.account customer) shell_data Hne).
        destruct (scored_candidates _ _ _); [done | simpl; lia].
      * apply scored_candidates_length.
Qed.

Lemma process_matching_batch_success data batch :
  process_matching_batch bracketed_netloc_ok check_account_for_bad_domains
    get_customer_accounts_bulk get_shell_accounts_bulk data
  = Success_response batch →
  ∃ request customer_account_ids shell_account_ids customer_data shell_data,
    data = Some request
    ∧ Request.customer_account_ids request = Some customer_account_ids
    ∧ Request.shell_account_ids request = Some shell_account_ids
    ∧ customer_account_ids ≠ [] ∧ shell_account_ids ≠ []
    ∧ get_customer_accounts_bulk customer_account_ids = Some customer_data
    ∧ get_shell_accounts_bulk shell_account_ids = Some shell_data
    ∧ foldl (match_customer bracketed_netloc_ok shell_data) (Some ([], []))
            (filter_customer_accounts_by_bad_domains check_account_for_bad_domains
               customer_data).1
      = Some (BatchData.matched_pairs batch, BatchData.unmatched_customers batch)
    ∧ BatchData.flagged_customers batch
      = (filter_customer_accounts_by_bad_domains check_account_for_bad_domains
           customer_data).2
    ∧ BatchData.invalid_customers batch = Request.invalid_customer_ids request
    ∧ BatchData.summary batch
      = {| Summary.total_customer_accounts :=
             length customer_data + length (Request.invalid_customer_ids request);
           Summary.clean_customer_accounts :=
             length (filter_customer_accounts_by_bad_domains
                       check_account_for_bad_domains customer_data).1;
           Summary.flagged_customer_accounts :=
             length (BatchData.flagged_customers batch);
           Summary.invalid_customer_accounts :=
             length (Request.invalid_customer_ids request);
           Summary.total_shell_accounts :=
             length shell_data + length (Request.invalid_shell_ids request);
           Summary.invalid_shell_accounts :=
             length (Request.invalid_shell_ids request);
           Summary.matched_pairs := length (BatchData.matched_pairs batch);
           Summary.unmatched_customers :=
             length (BatchData.unmatched_customers batch) |}.
Proof.
  unfold process_matching_batch.
  destruct data as [request|]; [|done].
  destruct (Request.customer_account_ids request) as [customer_account_ids|] eqn:Hc;
    [|done].
  destruct (Request.shell_account_ids request) as [shell_account_ids|] eqn:Hs; [|done].
  destruct (length customer_account_ids =? 0) eqn:Ec; [done|].
  destruct (length shell_account_ids =? 0) eqn:Es; [done|]. cbn [orb].
  destruct (get_customer_accounts_bulk customer_account_ids) as [customer_data|] eqn:Hcd;
    [|done].
  destruct (get_shell_accounts_bulk shell_account_ids) as [shell_data|] eqn:Hsd; [|done].
  destruct (filter_customer_accounts_by_bad_domains _ customer_data)
    as [clean_customers flagged_customers] eqn:Hfilter.
  destruct (foldl _ _ clean_customers) as [[matched_pairs unmatched_customers]|] eqn:Eloop;
    [|done].
  intros [= <-]. exists request, customer_account_ids, shell_account_ids, customer_data,
    shell_data.
  rewrite Hfilter. cbn [fst snd].
  split_and!; try first [done | reflexivity].
  - by destruct customer_account_ids.
  - by destruct shell_account_ids.
Qed.

Lemma process_matching_batch_lists data batch :
  process_matching_batch bracketed_netloc_ok check_account_for_bad_domains
    get_customer_accounts_bulk get_shell_accounts_bulk data
  = Success_response batch →
  ∃ request customer_account_ids shell_account_ids customer_data shell_data,
    data = Some request
    ∧ Request.customer_account_ids request = Some customer_account_ids
    ∧ Request.shell_account_ids request = Some shell_account_ids
    ∧ get_customer_accounts_bulk customer_account_ids = Some customer_data
    ∧ get_shell_accounts_bulk shell_account_ids = Some shell_data
    ∧ map MatchedPair.customer_account (BatchData.matched_pairs batch)
      ++ map UnmatchedCustomer.customer_account (BatchData.unmatched_customers batch)
      ++ map Checked.account (BatchData.flagged_customers batch)
      ≡ₚ customer_data
    ∧ Forall (λ flagged, Checked.is_bad flagged = true) (BatchData.flagged_customers batch)
    ∧ (let summary := BatchData.summary batch in
       Summary.matched_pairs summary = length (BatchData.matched_pairs batch)
       ∧ Summary.unmatched_customers summary = length (BatchData.unmatched_customers batch)
       ∧ Summary.flagged_customer_accounts summary
         = length (BatchData.flagged_customers batch)
       ∧ Summary.invalid_customer_accounts summary
         = length (BatchData.invalid_customers batch)
       ∧ Summary.matched_pairs summary + Summary.unmatched_customers summary
         = Summary.clean_customer_accounts summary
       ∧ Summary.clean_customer_accounts summary
         + Summary.flagged_customer_accounts summary
         + Summary.invalid_customer_accounts summary
         = Summary.total_customer_accounts summary)
    ∧ (shell_data ≠ [] → BatchData.unmatched_customers batch = [])
    ∧ (shell_data = [] →
       BatchData.matched_pairs batch = []
       ∧ Forall (λ x, UnmatchedCustomer.reason x = No_shell_accounts_provided)
                (BatchData.unmatched_customers batch))
    ∧ Forall (λ pair,
                MatchedPair.recommended_shell pair ∈ shell_data
                ∧ MatchedPair.total_shells pair = length shell_data
                ∧ 1 ≤ MatchedPair.candidate_count pair
                ∧ MatchedPair.candidate_count pair ≤ MatchedPair.total_shells pair)
             (BatchData.matched_pairs batch).
Proof.
  intros (request & customer_account_ids & shell_account_ids & customer_data & shell_data
          & -> & Hc & Hs & _ & _ & Hcd & Hsd & Hloop & Hflagged & Hinvalid & Hsummary)
         %process_matching_batch_success.
  exists request, customer_account_ids, shell_account_ids, customer_data, shell_data.
  pose proof (filter_customer_accounts_by_bad_domains_split
                check_account_for_bad_domains customer_data) as Hfilter.
  destruct (filter_customer_accounts_by_bad_domains _ customer_data)
    as [clean_customers flagged_customers].
  cbn [fst snd] in *.
  destruct Hfilter as (Hclean & Hbad & Hcount & Hperm).
  apply match_customers_results in Hloop
    as (matched' & unmatched' & Hm & Hu & Hcustomers & Hall & Hnone & Hpairs).
  cbn [app] in Hm, Hu. subst matched' unmatched'.
  assert (Hlen : length (BatchData.matched_pairs batch)
                 + length (BatchData.unmatched_customers batch)
                 = length clean_customers).
  { apply Permutation_length in Hcustomers. by rewrite length_app, !length_map in Hcustomers. }
  split_and!; try done;
    try (rewrite ?Hsummary, ?Hinvalid, ?Hflagged; cbn; first [done | lia]).
  rewrite app_assoc, Hcustomers, Hflagged. done.
Qed.

(** A successful batch accounts for every customer record once: each is
    matched, unmatched or flagged, and the counts of the summary are the
    lengths of the lists.  With at least one shell record every clean
    customer is matched, to a shell of the collection, with a candidate count
    between 1 and the number of shells; without shell records every clean
    customer is unmatched, with the reason "No shell accounts provided". *)
Theorem process_matching_batch_accounting data batch :
  process_matching_batch bracketed_netloc_ok check_account_for_bad_domains
    get_customer_accounts_bulk get_shell_accounts_bulk data
  = Success_response batch →
  ∃ request customer_account_ids shell_account_ids customer_data shell_data,
    data = Some request
    ∧ Request.customer_account_ids request = Some customer_account_ids
    ∧ Request.shell_account_ids request = Some shell_account_ids
    ∧ get_customer_accounts_bulk customer_account_ids = Some customer_data
    ∧ get_shell_accounts_bulk shell_account_ids = Some shell_data
    ∧ map MatchedPair.customer_account (BatchData.matched_pairs batch)
      ++ map UnmatchedCustomer.customer_account (BatchData.unmatched_customers batch)
      ++ map Checked.account (BatchData.flagged_customers batch)
      ≡ₚ customer_data
    ∧ Forall (λ flagged, Checked.is_bad flagged = true) (BatchData.flagged_customers batch)
    ∧ (let summary := BatchData.summary batch in
       Summary.matched_pairs summary = length (BatchData.matched_pairs batch)
       ∧ Summary.unmatched_customers summary = length (BatchData.unmatched_customers batch)
       ∧ Summary.flagged_customer_accounts summary
         = length (BatchData.flagged_customers batch)
       ∧ Summary.invalid_customer_accounts summary
         = length (BatchData.invalid_customers batch)
       ∧ Summary.matched_pairs summary + Summary.unmatched_customers summary
         = Summary.clean_customer_accounts summary
       ∧ Summary.clean_customer_accounts summary
         + Summary.flagged_customer_accounts summary
         + Summary.invalid_customer_accounts summary
         = Summary.total_customer_accounts summary)
    ∧ (shell_data ≠ [] → BatchData.unmatched_customers batch = [])
    ∧ (shell_data = [] →
       BatchData.matched_pairs batch = []
       ∧ Forall (λ x, UnmatchedCustomer.reason x = No_shell_accounts_provided)
                (BatchData.unmatched_customers batch))
    ∧ Forall (λ pair,
                MatchedPair.recommended_shell pair ∈ shell_data
                ∧ MatchedPair.total_shells pair = length shell_data
                ∧ 1 ≤ MatchedPair.candidate_count pair
                ∧ MatchedPair.candidate_count pair ≤ MatchedPair.total_shells pair)
             (BatchData.matched_pairs batch).
Proof. apply process_matching_batch_lists. Qed.

(** The export of the data of a successful batch has one row for each
    customer of the summary's total: the customer records and the invalid
    identifiers.  [message_text] stands for the text of a reason. *)
Theorem process_matching_batch_export_rows data batch (message_text : message → string) :
  process_matching_batch bracketed_netloc_ok check_account_for_bad_domains
    get_customer_accounts_bulk get_shell_accounts_bulk data
  = Success_response batch →
  length (create_matching_results_export
            (BatchData.matched_pairs batch)
            (map (λ unmatched,
                    {| Unmatched.customer_account :=
                         UnmatchedCustomer.customer_account unmatched;
                       Unmatched.reason :=
                         message_text (UnmatchedCustomer.reason unmatched) |})
                 (BatchData.unmatched_customers batch))
            (map (λ flagged,
                    {| Flagged.account := Checked.account flagged;
                       Flagged.explanation := Checked.explanation flagged |})
                 (BatchData.flagged_customers batch))
            (BatchData.invalid_customers batch))
  = Summary.total_customer_accounts (BatchData.summary batch).
Proof.
  intros (request & customer_account_ids & shell_account_ids & customer_data & shell_data
          & _ & _ & _ & _ & _ & _ & _ & Hsummary & _)%process_matching_batch_lists.
  cbv zeta in Hsummary.
  destruct Hsummary as (Hm & Hu & Hf & Hi & Hclean & Htotal).
  unfold create_matching_results_export.
  rewrite (Permutation_length (stable_sort_perm _ _)).
  unfold all_customer_results. rewrite !length_app, !length_map. lia.
Qed.

(** One clean customer with a blank address column, [None], is enough to
    lose the whole batch when there is a shell record: the route answers
    with status 500. *)
Theorem process_matching_batch_blank_address request customer_account_ids
    shell_account_ids customer_data shell_data customer :
  Request.customer_account_ids request = Some customer_account_ids →
  Request.shell_account_ids request = Some shell_account_ids →
  customer_account_ids ≠ [] → shell_account_ids ≠ [] →
  get_customer_accounts_bulk customer_account_ids = Some customer_data →
  get_shell_accounts_bulk shell_account_ids = Some shell_data →
  shell_data ≠ [] →
  customer ∈ customer_data →
  (check_account_for_bad_domains customer).1 = false →
  customer_address_not_null customer = false →
  process_matching_batch bracketed_netloc_ok check_account_for_bad_domains
    get_customer_accounts_bulk get_shell_accounts_bulk (Some request)
  = Error_response 500 Error_processing_matching_batch.
Proof.
  intros Hc Hs Hcne Hsne Hcd Hsd Hshells Hin Hclean Hnull.
  unfold process_matching_batch. rewrite Hc, Hs.
  assert ((length customer_account_ids =? 0) || (length shell_account_ids =? 0) = false)
    as ->.
  { by destruct customer_account_ids, shell_account_ids. }
  rewrite Hcd, Hsd.
  pose proof (filter_customer_accounts_by_bad_domains_split
                check_account_for_bad_domains customer_data) as Hfilter.
  destruct (filter_customer_accounts_by_bad_domains _ customer_data)
    as [clean_customers flagged_customers].
  destruct Hfilter as (Hcleans & _).
  assert (Hmember : ∃ checked, checked ∈ clean_customers ∧ Checked.account checked = customer).
  { exists {| Checked.account := customer;
              Checked.is_bad := (check_account_for_bad_domains customer).1;
              Checked.explanation := (check_account_for_bad_domains customer).2 |}.
    split; [|reflexivity]. cbn [fst] in Hcleans. rewrite Hcleans.
    apply list_elem_of_filter. split; [exact Hclean|].
    by apply (list_elem_of_fmap_2
                (λ account,
                   {| Checked.account := account;
                      Checked.is_bad := (check_account_for_bad_domains account).1;
                      Checked.explanation :=
                        (check_account_for_bad_domains account).2 |})). }
  destruct Hmember as (checked & Hchecked & Haccount).
  assert (Hraise : ∀ state,
            foldl (match_customer bracketed_netloc_ok shell_data) state clean_customers
            = None).
  { clear Hcleans. induction clean_customers as [|first rest IH]; intros state.
    { by apply elem_of_nil in Hchecked. }
    cbn [foldl]. apply elem_of_cons in Hchecked as [<-|Hrest]; [|by apply IH].
    unfold match_customer at 2. destruct state as [[matched unmatched]|];
      cbn [mbind option_bind]; [|apply match_customer_raised].
    rewrite Haccount, (find_best_shell_match_raises_blank _ _ _ Hnull Hshells).
    apply match_customer_raised. }
  by rewrite Hraise.
Qed.

End Matching_batch_results.

Lemma process_matching_batch_accounting_witness :
  ∃ batch,
    process_matching_batch any_bracketed_host (λ _, (false, ""))
      (λ _, Some [acme_customer]) (λ _, Some [unrelated_shell; acme_shell])
      (Some {| Request.customer_account_ids := Some ["001C"];
               Request.shell_account_ids := Some ["002S"; "001S"];
               Request.invalid_customer_ids := ["001X"];
               Request.invalid_shell_ids := [] |})
    = Success_response batch
    ∧ BatchData.unmatched_customers batch = [].
Proof.
  destruct (process_matching_batch _ _ _ _ _) as [status e|batch] eqn:E.
  - vm_compute in E. discriminate E.
  - exists batch. split; [reflexivity|].
    destruct (process_matching_batch_accounting _ _ _ _ _ _ E)
      as (request & customer_account_ids & shell_account_ids & customer_data & shell_data
          & _ & _ & _ & _ & Hshells & _ & _ & _ & Hall & _).
    apply Hall. by injection Hshells as <-.
Defined.

Lemma process_matching_batch_export_rows_witness :
  ∃ batch,
    process_matching_batch any_bracketed_host (λ _, (false, ""))
      (λ _, Some [acme_customer]) (λ _, Some [unrelated_shell; acme_shell])
      (Some {| Request.customer_account_ids := Some ["001C"];
               Request.shell_account_ids := Some ["002S"; "001S"];
               Request.invalid_customer_ids := ["001X"];
               Request.invalid_shell_ids := [] |})
    = Success_response batch
    ∧ Summary.total_customer_accounts (BatchData.summary batch)
      = length (create_matching_results_export (BatchData.matched_pairs batch) []
                  [] (BatchData.invalid_customers batch))
        + length (BatchData.unmatched_customers batch)
        + length (BatchData.flagged_customers batch).
Proof.
  destruct (process_matching_batch _ _ _ _ _) as [status e|batch] eqn:E.
  - vm_compute in E. discriminate E.
  - exists batch. split; [reflexivity|].
    rewrite <- (process_matching_batch_export_rows _ _ _ _ _ _ (λ _, "") E).
    unfold create_matching_results_export.
    rewrite !(Permutation_length (stable_sort_perm _ _)).
    unfold all_customer_results. rewrite !length_app, !length_map. simpl. lia.
Defined.

Lemma process_matching_batch_blank_address_witness :
  process_matching_batch any_bracketed_host (λ _, (false, ""))
    (λ _, Some [acme_customer; blank_state_customer]) (λ _, Some [acme_shell])
    (Some {| Request.customer_account_ids := Some ["001C"; "003C"];
             Request.shell_account_ids := Some ["001S"];
             Request.invalid_customer_ids := [];
             Request.invalid_shell_ids := [] |})
  = Error_response 500 Error_processing_matching_batch.
Proof.
  apply (process_matching_batch_blank_address any_bracketed_host (λ _, (false, ""))
           (λ _, Some [acme_customer; blank_state_customer]) (λ _, Some [acme_shell])
           _ ["001C"; "003C"] ["001S"] [acme_customer; blank_state_customer] [acme_shell]
           blank_state_customer); try reflexivity; try discriminate.
  apply elem_of_cons. right. apply list_elem_of_here.
Defined.

(** ** The sheet "Summary Metrics": one row of metrics *)

Lemma cell_ref_columns row : cell_ref "A" row ≠ cell_ref "B" row.
Proof. unfold cell_ref. intros Heq. discriminate Heq. Qed.

(** Writing a metric in the row of another one replaces it. *)
Lemma write_metric_twice current_row ws_summary metric metric' :
  write_metric current_row (write_metric current_row ws_summary metric) metric'
  = write_metric current_row ws_summary metric'.
Proof.
  destruct metric as [name value], metric' as [name' value']. unfold write_metric.
  pose proof (cell_ref_columns current_row) as Hne.
  rewrite (insert_insert_ne _ (cell_ref "A" current_row) (cell_ref "B" current_row))
    by done.
  by rewrite !insert_insert_eq.
Qed.

Lemma write_metrics_last current_row ws_summary metrics metric :
  foldl (write_metric current_row) ws_summary (metrics ++ [metric])
  = write_metric current_row ws_summary metric.
Proof.
  revert ws_summary. induction metrics as [|first metrics IH]; intros ws_summary; [done|].
  cbn [app foldl]. rewrite IH. apply write_metric_twice.
Qed.

(** The loop that adds the metrics writes all of them in one row, so the
    sheet keeps the last one only: with a summary it has five cells, the
    title, the two headers and the match success rate with its value; the six
    other metrics are not in it. *)
Theorem summary_metrics_sheet_cells summary :
  summary_metrics_sheet (Some summary)
  = <["B4" := match metrics summary !! 6 with
              | Some (_, value) => value
              | None => CellText ""
              end]>
      (<["A4" := CellText "Match Success Rate"]>
         (<["B3" := CellText "Value"]>
            (<["A3" := CellText "Metric"]>
               (<["A1" := CellText "Matching Process Summary"]> ∅))))
  ∧ size (summary_metrics_sheet (Some summary)) = 5
  ∧ (∀ reference name value,
       (name, value) ∈ take 6 (metrics summary) →
       summary_metrics_sheet (Some summary) !! reference ≠ Some (CellText name))
  ∧ ∀ (ws_summary : gmap string cell) current_row metrics metric,
      foldl (write_metric current_row) ws_summary (metrics ++ [metric])
      = write_metric current_row ws_summary metric.
Proof.
  assert (Hsheet : summary_metrics_sheet (Some summary)
    = <["B4" := match metrics summary !! 6 with
                | Some (_, value) => value
                | None => CellText ""
                end]>
        (<["A4" := CellText "Match Success Rate"]>
           (<["B3" := CellText "Value"]>
              (<["A3" := CellText "Metric"]>
                 (<["A1" := CellText "Matching Process Summary"]> ∅))))).
  { unfold summary_metrics_sheet. cbv zeta.
    change (metrics summary) with (take 6 (metrics summary) ++ drop 6 (metrics summary)).
    change (drop 6 (metrics summary))
      with [("Match Success Rate",
             match metrics summary !! 6 with
             | Some (_, value) => value
             | None => CellText ""
             end)].
    rewrite write_metrics_last. reflexivity. }
  split_and!.
  - exact Hsheet.
  - rewrite Hsheet. rewrite !map_size_insert_None; [done | ..];
      repeat (rewrite lookup_insert_ne by done); by rewrite ?lookup_empty.
  - intros reference name value Hin. rewrite Hsheet.
    assert (Hname : name ∈ ["Total Customer Accounts Processed"; "Successfully Matched";
                            "Unable to Match"; "Flagged (Bad Domains)";
                            "Total Shell Accounts Available"; "Processing Time"]).
    { cbn in Hin.
      repeat (apply elem_of_cons in Hin as [[= -> _]|Hin];
              [repeat first [apply list_elem_of_here | apply list_elem_of_further]|]).
      by apply elem_of_nil in Hin. }
    intros Hcell.
    repeat (rewrite lookup_insert in Hcell; case_decide;
            [injection Hcell as Hcell | ]).
    all: try (by rewrite lookup_empty in Hcell).
    all: try (subst name;
              repeat (apply elem_of_cons in Hname as [Hname|Hname];
                      [discriminate Hname|]);
              by apply elem_of_nil in Hname).
    all: revert Hcell; unfold metrics; cbn [lookup list_lookup];
      destruct (0 <? _); intros Hcell; try discriminate Hcell.
    all: injection Hcell as Hcell; subst name;
      repeat (apply elem_of_cons in Hname as [Hname|Hname]; [discriminate Hname|]);
      by apply elem_of_nil in Hname.
  - intros. apply write_metrics_last.
Qed.

(** ** [parse_excel_file]: the rows of the preview *)

Lemma pad_row_replicate steps width row_data :
  width - length row_data ≤ steps →
  pad_row steps width row_data
  = row_data ++ replicate (width - length row_data) (CellText "").
Proof.
  revert row_data. induction steps as [|steps IH]; intros row_data Hsteps; simpl.
  { replace (width - length row_data) with 0 by lia. by rewrite app_nil_r. }
  destruct (length row_data <? width) eqn:E.
  - apply Nat.ltb_lt in E. rewrite IH by (rewrite length_app; simpl; lia).
    rewrite length_app. simpl.
    replace (width - length row_data) with (S (width - (length row_data + 1))) by lia.
    by rewrite <- app_assoc.
  - apply Nat.ltb_ge in E.
    replace (width - length row_data) with 0 by lia. by rewrite app_nil_r.
Qed.

Lemma preview_row_cells sheet_headers row :
  preview_row sheet_headers row
  = take (length sheet_headers)
         (map (λ cell, default (CellText "") cell) row
          ++ replicate (length sheet_headers - length row) (CellText "")).
Proof.
  unfold preview_row. rewrite pad_row_replicate by lia. by rewrite length_map.
Qed.

Lemma preview_from_rows row_idx sheet_headers rows :
  preview_from row_idx sheet_headers rows
  = map (preview_row sheet_headers)
        (take (11 - row_idx `max` 1) (drop (1 - row_idx) rows)).
Proof.
  revert row_idx. induction rows as [|row rest IH]; intros row_idx.
  { by rewrite drop_nil, take_nil. }
  cbn [preview_from]. destruct (row_idx =? 0) eqn:E0.
  - apply Nat.eqb_eq in E0 as ->. rewrite IH. done.
  - apply Nat.eqb_neq in E0. destruct (row_idx <? 11) eqn:E11.
    + apply Nat.ltb_lt in E11. rewrite IH.
      replace (1 - row_idx) with 0 by lia. replace (1 - S row_idx) with 0 by lia.
      replace (11 - row_idx `max` 1) with (S (11 - S row_idx `max` 1)) by lia. done.
    + apply Nat.ltb_ge in E11. replace (11 - row_idx `max` 1) with 0 by lia. done.
Qed.

(** There is one header for each cell of the first row.  The preview holds
    the 10 rows that follow the first one, or fewer when the sheet has fewer;
    each of its rows has exactly as many cells as there are headers, the
    cells of the sheet's row with [""] for the empty ones and for the missing
    ones; and the number of rows reported is not below the number of rows of
    the preview. *)
Theorem parse_first_sheet_preview rows max_row :
  let parsed := parse_first_sheet rows max_row in
  length (Parsed.headers parsed) = length (default [] (head rows))
  ∧ Parsed.preview_data parsed
    = map (preview_row (Parsed.headers parsed)) (take 10 (drop 1 rows))
  ∧ length (Parsed.preview_data parsed) = 10 `min` (length rows - 1)
  ∧ Forall (λ row_data, length row_data = length (Parsed.headers parsed))
           (Parsed.preview_data parsed)
  ∧ (∀ k row, drop 1 rows !! k = Some row → k < 10 →
       ∀ i, i < length (Parsed.headers parsed) →
         ∃ row_data,
           Parsed.preview_data parsed !! k = Some row_data
           ∧ row_data !! i = Some (default (CellText "") (mjoin (row !! i))))
  ∧ length (Parsed.preview_data parsed) ≤ Parsed.total_rows parsed.
Proof.
  intros parsed.
  assert (Hpreview : Parsed.preview_data parsed
                     = map (preview_row (Parsed.headers parsed)) (take 10 (drop 1 rows))).
  { unfold parsed, parse_first_sheet. cbn. by rewrite preview_from_rows. }
  assert (Hrow : ∀ row, length (preview_row (Parsed.headers parsed) row)
                        = length (Parsed.headers parsed)).
  { intros row. rewrite preview_row_cells, list.length_take, length_app, length_map,
      length_replicate. lia. }
  split_and!.
  - unfold parsed, parse_first_sheet, sheet_headers. cbn.
    destruct rows as [|first_row rest]; [done|]. by rewrite length_imap.
  - exact Hpreview.
  - rewrite Hpreview, length_map, list.length_take, list.length_drop. lia.
  - rewrite Hpreview. apply Forall_fmap, Forall_forall. intros row _. apply Hrow.
  - intros k row Hk Hlt i Hi. exists (preview_row (Parsed.headers parsed) row). split.
    + rewrite Hpreview, list_lookup_fmap, lookup_take, decide_True by done.
      by rewrite Hk.
    + rewrite preview_row_cells, lookup_take, decide_True by done.
      destruct (decide (i < length row)) as [Hin|Hout].
      * rewrite lookup_app_l by by rewrite length_map.
        rewrite list_lookup_fmap.
        destruct (lookup_lt_is_Some_2 row i Hin) as [cell ->]. done.
      * rewrite lookup_app_r by (rewrite length_map; lia).
        rewrite (lookup_ge_None_2 row i) by lia. simpl.
        apply lookup_replicate_2. rewrite length_map.
        change (Parsed.headers parsed) with (sheet_headers rows) in Hi. lia.
  - unfold parsed, parse_first_sheet. cbn. lia.
Qed.

(** ** [difflib]: sequences without a common element *)

Section SequenceMatcher_disjoint.
Context {A : Type} `{EqDecision A}.
Variables a b : list A.

Lemma indices_from_nil x j (l : list A) : x ∉ l → Difflib.indices_from x j l = [].
Proof.
  revert j. induction l as [|y l IH]; intros j Hx; [done|]. simpl.
  apply not_elem_of_cons in Hx as [Hne Hx].
  rewrite decide_False by done. by apply IH.
Qed.

Lemma indices_from_bound x j (l : list A) :
  Forall (λ i, j ≤ i ∧ i < j + length l) (Difflib.indices_from x j l).
Proof.
  revert j. induction l as [|y l IH]; intros j; simpl; [constructor|].
  assert (Hrest : Forall (λ i, j ≤ i ∧ i < j + S (length l))
                         (Difflib.indices_from x (S j) l)).
  { eapply Forall_impl; [apply IH|]. intros i ?. simpl in *. lia. }
  destruct (decide (y = x)); [|done]. constructor; [lia | done].
Qed.

Lemma indices_from_cons x j (l : list A) :
  x ∈ l → Difflib.indices_from x j l ≠ [].
Proof.
  revert j. induction l as [|y l IH]; intros j Hx; [by apply elem_of_nil in Hx|].
  simpl. destruct (decide (y = x)); [done|].
  apply elem_of_cons in Hx as [->|Hx]; [done | by apply IH].
Qed.

Section Disjoint.
Hypothesis disjoint : ∀ x, x ∈ a → x ∉ b.

Lemma b2j_get_disjoint i x : a !! i = Some x → Difflib.b2j_get b x = [].
Proof.
  intros Hi. unfold Difflib.b2j_get. destruct (Difflib.popular b x); [done|].
  apply indices_from_nil, disjoint. by eapply list_elem_of_lookup_2.
Qed.

Lemma scan_rows_disjoint rows blo bhi best j2len :
  Difflib.scan_rows a b rows blo bhi best j2len = best.
Proof.
  revert j2len. induction rows as [|i rows IH]; intros j2len; [done|]. simpl.
  destruct (a !! i) as [x|] eqn:Hi; [rewrite (b2j_get_disjoint i x Hi)|]; simpl; apply IH.
Qed.

Lemma same_at_disjoint i j : Difflib.same_at a b i j = false.
Proof.
  unfold Difflib.same_at.
  destruct (a !! i) as [x|] eqn:Hi; [|done]. destruct (b !! j) as [y|] eqn:Hj; [|done].
  apply bool_decide_eq_false. intros ->.
  apply (disjoint y); by eapply list_elem_of_lookup_2.
Qed.

Lemma find_longest_match_disjoint alo ahi blo bhi :
  Difflib.find_longest_match a b alo ahi blo bhi = (alo, blo, 0).
Proof.
  unfold Difflib.find_longest_match. rewrite scan_rows_disjoint.
  assert (Difflib.extend_back a b alo blo alo blo 0 = (alo, blo, 0)) as ->.
  { destruct alo, blo; simpl; try done. by rewrite same_at_disjoint, andb_false_r. }
  f_equal. destruct (ahi - (alo + 0)); simpl; [done|].
  by rewrite same_at_disjoint, andb_false_r.
Qed.

Lemma matches_disjoint : Difflib.matches a b = 0.
Proof.
  unfold Difflib.matches, Difflib.matching_blocks.
  replace (2 * length a + 1) with (S (2 * length a)) by lia.
  cbn [Difflib.blocks_loop]. rewrite find_longest_match_disjoint. simpl.
  by destruct (length a + (length a + 0)).
Qed.

End Disjoint.

(** A common element that is indexed gives a block. *)

Lemma scan_row_size i blo bhi j2len js best newj2len :
  best.2 ≤ (Difflib.scan_row i blo bhi j2len js best newj2len).1.2.
Proof.
  revert best newj2len. induction js as [|j js IH]; intros best newj2len; simpl; [done|].
  destruct (j <? blo); [apply IH|]. destruct (bhi <=? j); [done|].
  etrans; [|apply IH]. destruct (best.2 <? _) eqn:E; [|done].
  apply Nat.ltb_lt in E. simpl. lia.
Qed.

Lemma scan_row_found i bhi j2len j js best newj2len :
  j < bhi →
  1 ≤ (Difflib.scan_row i 0 bhi j2len (j :: js) best newj2len).1.2.
Proof.
  intros Hj. simpl.
  assert ((bhi <=? j) = false) as -> by (apply Nat.leb_gt; lia).
  etrans; [|apply scan_row_size]. destruct (best.2 <? _) eqn:E; simpl.
  - lia.
  - apply Nat.ltb_ge in E. lia.
Qed.

Lemma scan_rows_size rows blo bhi best j2len :
  best.2 ≤ (Difflib.scan_rows a b rows blo bhi best j2len).2.
Proof.
  revert best j2len. induction rows as [|i rows IH]; intros best j2len; [done|]. simpl.
  pose proof (scan_row_size i blo bhi j2len
                match a !! i with Some x => Difflib.b2j_get b x | None => [] end
                best ∅) as Hrow.
  destruct (Difflib.scan_row _ _ _ _ _ _ _) as [best' newj2len]. simpl in Hrow.
  etrans; [exact Hrow | apply IH].
Qed.

Lemma scan_rows_found rows i x best j2len :
  i ∈ rows → a !! i = Some x → x ∈ b → length b < 200 →
  1 ≤ (Difflib.scan_rows a b rows 0 (length b) best j2len).2.
Proof.
  intros Hi Hx Hb Hshort. revert best j2len.
  induction rows as [|i' rows IH]; intros best j2len; [by apply elem_of_nil in Hi|].
  simpl. apply elem_of_cons in Hi as [<-|Hi].
  - rewrite Hx. unfold Difflib.b2j_get, Difflib.popular.
    assert ((200 <=? length b) = false) as -> by (apply Nat.leb_gt; lia). simpl.
    pose proof (indices_from_bound x 0 b) as Hbound.
    pose proof (indices_from_cons x 0 b Hb) as Hne.
    destruct (Difflib.indices_from x 0 b) as [|j js]; [done|].
    apply Forall_cons in Hbound as [[_ Hj] _].
    pose proof (scan_row_found i (length b) j2len j js best ∅ Hj) as Hrow.
    destruct (Difflib.scan_row _ _ _ _ _ _ _) as [best' newj2len]. simpl in Hrow.
    etrans; [exact Hrow | apply scan_rows_size].
  - destruct (Difflib.scan_row _ _ _ _ _ _ _) as [best' newj2len]. by apply IH.
Qed.

Lemma extend_back_size alo blo besti bestj bestsize :
  bestsize ≤ (Difflib.extend_back a b alo blo besti bestj bestsize).2.
Proof.
  revert bestj bestsize. induction besti as [|i' IH]; intros bestj bestsize; [done|].
  destruct bestj as [|j']; [done|]. simpl.
  destruct ((alo <? S i') && (blo <? S j') && Difflib.same_at a b i' j'); [|done].
  etrans; [|apply IH]. lia.
Qed.

Lemma extend_forward_size fuel ahi bhi besti bestj bestsize :
  bestsize ≤ Difflib.extend_forward a b fuel ahi bhi besti bestj bestsize.
Proof.
  revert bestsize. induction fuel as [|fuel IH]; intros bestsize; [done|]. simpl.
  destruct (_ && _); [|done]. etrans; [|apply IH]. lia.
Qed.

Lemma find_longest_match_found x :
  x ∈ a → x ∈ b → length b < 200 →
  1 ≤ (Difflib.find_longest_match a b 0 (length a) 0 (length b)).2.
Proof.
  intros [i Hi]%list_elem_of_lookup Hb Hshort. unfold Difflib.find_longest_match.
  pose proof (scan_rows_found (seq 0 (length a - 0)) i x (0, 0, 0) ∅) as Hfound.
  destruct (Difflib.scan_rows _ _ _ _ _ _ _) as [[besti bestj] bestsize].
  pose proof (extend_back_size 0 0 besti bestj bestsize) as Hback.
  destruct (Difflib.extend_back _ _ _ _ _ _ _) as [[besti' bestj'] bestsize'].
  simpl in *. etrans; [|apply extend_forward_size]. etrans; [|exact Hback].
  apply Hfound; try done. apply elem_of_seq. apply lookup_lt_Some in Hi. lia.
Qed.

Lemma blocks_loop_keeps fuel queue acc blocks :
  Difflib.blocks_loop a b fuel queue acc = Some blocks →
  sum_sizes acc ≤ sum_sizes blocks.
Proof.
  revert queue acc. induction fuel as [|fuel IH]; intros queue acc.
  { destruct queue as [|[[[? ?] ?] ?] ?]; simpl; [by intros [= <-] | done]. }
  destruct queue as [|[[[alo ahi] blo] bhi] queue]; simpl; [by intros [= <-]|].
  destruct (Difflib.find_longest_match a b alo ahi blo bhi) as [[i j] k].
  destruct (k =? 0); [apply IH|].
  intros Hrun%IH. rewrite sum_sizes_app in Hrun. lia.
Qed.

Lemma matches_common x :
  x ∈ a → x ∈ b → length b < 200 → 1 ≤ Difflib.matches a b.
Proof.
  intros Ha Hb Hshort.
  pose proof (find_longest_match_found x Ha Hb Hshort) as Hfound.
  pose proof (blocks_loop_terminates a b) as [blocks Hblocks].
  unfold Difflib.matches, Difflib.matching_blocks. rewrite Hblocks. simpl.
  change (foldr (λ x acc, x.2 + acc) 0 blocks) with (sum_sizes blocks).
  revert Hblocks. replace (2 * length a + 1) with (S (2 * length a)) by lia.
  cbn [Difflib.blocks_loop].
  destruct (Difflib.find_longest_match a b 0 (length a) 0 (length b)) as [[i j] k].
  simpl in Hfound. destruct (k =? 0) eqn:E; [apply Nat.eqb_eq in E; lia|].
  intros Hrun%blocks_loop_keeps. unfold sum_sizes in *. simpl in Hrun. lia.
Qed.

End SequenceMatcher_disjoint.

Lemma no_common_check (l1 l2 : list ascii) :
  forallb (λ c, negb (existsb (Ascii.eqb c) l2)) l1 = true →
  ∀ c, c ∈ l1 → c ∉ l2.
Proof.
  intros Hcheck c Hc1 Hc2. rewrite forallb_forall in Hcheck.
  apply list_elem_of_In in Hc1. specialize (Hcheck c Hc1).
  apply negb_true_iff in Hcheck.
  assert (existsb (Ascii.eqb c) l2 = true) as Hex; [|congruence].
  apply existsb_exists. exists c. split; [by apply list_elem_of_In | apply Ascii.eqb_refl].
Qed.

(** ** [compute_fuzzy_similarity]: when the similarity is 0 *)

(** For two names whose normalized names are not empty, the similarity is 0
    when the normalized names have no character in common; and when the
    second normalized name is shorter than 200 characters, so that no
    character is left out of the matcher's index, the similarity is 0 only
    then. *)
Theorem compute_fuzzy_similarity_zero_iff str1 str2 :
  let norm1 := String.list_ascii_of_string (normalize_company_name str1) in
  let norm2 := String.list_ascii_of_string (normalize_company_name str2) in
  norm1 ≠ [] → norm2 ≠ [] →
  ((∀ c, c ∈ norm1 → c ∉ norm2) → (compute_fuzzy_similarity str1 str2 == 0)%Q)
  ∧ (length norm2 < 200 →
     (compute_fuzzy_similarity str1 str2 == 0)%Q →
     ∀ c, c ∈ norm1 → c ∉ norm2).
Proof.
  intros norm1 norm2 Hne1 Hne2.
  assert (Ht : ∀ s, String.list_ascii_of_string (normalize_company_name s) ≠ [] →
                    str_truthy (normalize_company_name s) = true ∧ str_truthy s = true).
  { intros s Hs. assert (str_truthy (normalize_company_name s) = true) as H1.
    { destruct (normalize_company_name s); [done | done]. }
    split; [done|]. by apply normalize_company_name_truthy. }
  destruct (Ht str1 Hne1) as [Hn1 Hs1], (Ht str2 Hne2) as [Hn2 Hs2].
  assert (Hsim : compute_fuzzy_similarity str1 str2 = Difflib.ratio norm1 norm2).
  { unfold compute_fuzzy_similarity. by rewrite Hs1, Hs2, Hn1, Hn2. }
  assert (Hlen : (length norm1 + length norm2 =? 0) = false).
  { apply Nat.eqb_neq. destruct norm1; [done | simpl; lia]. }
  rewrite Hsim. unfold Difflib.ratio. rewrite Hlen. split.
  - intros Hdisjoint. rewrite (matches_disjoint norm1 norm2 Hdisjoint). done.
  - intros Hshort Hzero c Hc1 Hc2.
    pose proof (matches_common norm1 norm2 c Hc1 Hc2 Hshort) as Hcommon.
    unfold Qeq in Hzero. simpl in Hzero. lia.
Qed.

Lemma compute_fuzzy_similarity_zero_iff_witness :
  (compute_fuzzy_similarity "Acme Corp" "Wild Fig" == 0)%Q.
Proof.
  pose proof (compute_fuzzy_similarity_zero_iff "Acme Corp" "Wild Fig") as Hzero.
  cbv zeta in Hzero.
  destruct Hzero as [Hzero _]; [by vm_compute | by vm_compute |].
  apply Hzero. apply no_common_check. vm_compute. reflexivity.
Defined.

(** ** The export: customers of one name keep their order *)

Lemma string_leb_refl s : String.leb s s = true.
Proof. by destruct (String.leb_total s s). Qed.

(** The rows of the customers that have one same name are in the export in the
    order matched, unmatched, flagged, invalid, and within each of the four
    in the order of the input list. *)
Theorem create_matching_results_export_same_name
    (matched_pairs : list MatchedPair.t) (unmatched_customers : list Unmatched.t)
    (flagged_customers : list Flagged.t) (invalid_customers : list string)
    (name : string) :
  let named := filter (λ row, String.eqb (row_name row) name = true) in
  named (create_matching_results_export matched_pairs unmatched_customers
           flagged_customers invalid_customers)
  = named (map matched_row matched_pairs)
    ++ named (map unmatched_row unmatched_customers)
    ++ named (map flagged_row flagged_customers)
    ++ named (map invalid_row invalid_customers).
Proof.
  intros named. unfold named, create_matching_results_export.
  rewrite (stable_sort_filter _ (λ row, String.eqb (row_name row) name)).
  - unfold all_customer_results. by rewrite !filter_app.
  - intros x y ->%String.eqb_eq ->%String.eqb_eq. apply string_leb_refl.
Qed.

(** ** [get_ai_match_assessments_batch]: every pair once, in order *)

Section Assessments_batch_results.
Context {Pair Assessment : Type}.
Variable process_single_assessment : Pair → Assessment.

Lemma assess_batch_raised (match_pairs : list Pair) batch_size e batch_nums :
  foldl (assess_batch process_single_assessment match_pairs batch_size) (inl e) batch_nums
  = inl e.
Proof. by induction batch_nums. Qed.

Lemma list_slice_in_range {A} (l : list A) (start stop : Z) :
  (0 ≤ start ≤ stop)%Z → (stop ≤ Z.of_nat (length l))%Z →
  list_slice start stop l = take (Z.to_nat stop - Z.to_nat start) (drop (Z.to_nat start) l).
Proof.
  intros Hstart Hstop. unfold list_slice, slice_index.
  assert ((start <? 0)%Z = false) as -> by (apply Z.ltb_ge; lia).
  assert ((stop <? 0)%Z = false) as -> by (apply Z.ltb_ge; lia).
  rewrite !Z.min_l by lia. f_equal. lia.
Qed.

(** The batches before batch [t], for a positive size. *)
Lemma assess_batches_prefix (match_pairs : list Pair) (batch_size : Z) (t : nat) :
  (0 < batch_size)%Z →
  (Z.of_nat t ≤ (Z.of_nat (length match_pairs) + batch_size - 1) `div` batch_size)%Z →
  foldl (assess_batch process_single_assessment match_pairs batch_size) (inr [])
        (map Z.of_nat (seq 0 t))
  = inr (map process_single_assessment
           (take (t * Z.to_nat batch_size) match_pairs)).
Proof.
  intros Hsize. set (n := length match_pairs).
  induction t as [|t IH]; intros Ht; [done|].
  rewrite seq_S, map_app, foldl_app, IH by lia. simpl.
  assert (Hstart : (Z.of_nat t * batch_size < Z.of_nat n)%Z).
  { pose proof (Z.mul_div_le (Z.of_nat n + batch_size - 1) batch_size Hsize). nia. }
  fold n.
  set (stop := Z.min (Z.of_nat t * batch_size + batch_size) (Z.of_nat n)).
  rewrite list_slice_in_range by (unfold stop; fold n; lia).
  assert (Hlen : length (take (Z.to_nat stop - Z.to_nat (Z.of_nat t * batch_size))
                              (drop (Z.to_nat (Z.of_nat t * batch_size)) match_pairs))
                 = Z.to_nat stop - Z.to_nat (Z.of_nat t * batch_size)).
  { rewrite list.length_take, list.length_drop. fold n. unfold stop. lia. }
  rewrite Hlen.
  assert ((Z.min batch_size
             (Z.of_nat (Z.to_nat stop - Z.to_nat (Z.of_nat t * batch_size))) <=? 0)%Z
          = false) as ->.
  { apply Z.leb_gt. unfold stop. lia. }
  f_equal. rewrite <- map_app. f_equal.
  replace (Z.to_nat (Z.of_nat t * batch_size)) with (t * Z.to_nat batch_size) by lia.
  rewrite take_take_drop.
  destruct (decide (Z.of_nat t * batch_size + batch_size ≤ Z.of_nat n)%Z).
  - f_equal. unfold stop. lia.
  - rewrite !take_ge; [done | fold n; lia | fold n; unfold stop; lia].
Qed.

(** With a positive batch size the result is the assessment of every pair,
    once and in the order of the input, whatever the size; a batch size of 0
    raises [ZeroDivisionError]; a negative batch size gives no assessment at
    all when there are two pairs or more, and raises [ValueError] for fewer. *)
Theorem get_ai_match_assessments_batch_results (match_pairs : list Pair) (batch_size : Z) :
  get_ai_match_assessments_batch process_single_assessment match_pairs batch_size
  = if (0 <? batch_size)%Z then inr (map process_single_assessment match_pairs)
    else if (batch_size =? 0)%Z then inl ZeroDivisionError
    else if 2 <=? length match_pairs then inr []
    else inl ValueError_max_workers.
Proof.
  unfold get_ai_match_assessments_batch. set (n := length match_pairs).
  destruct (Z.ltb_spec 0 batch_size) as [Hpos|Hneg].
  - assert ((batch_size =? 0)%Z = false) as -> by (apply Z.eqb_neq; lia).
    cbv zeta. unfold range.
    set (total := ((Z.of_nat n + batch_size - 1) `div` batch_size)%Z).
    assert (Htotal : (0 ≤ total)%Z) by (apply Z.div_pos; lia).
    rewrite assess_batches_prefix; [|done | fold n; fold total; lia].
    rewrite take_ge; [done|]. fold n.
    pose proof (Z.mod_pos_bound (Z.of_nat n + batch_size - 1) batch_size Hpos).
    pose proof (Z.div_mod (Z.of_nat n + batch_size - 1) batch_size).
    fold total in H0. nia.
  - destruct (Z.eqb_spec batch_size 0) as [Hzero|Hnonzero]; [done|].
    cbv zeta. unfold range.
    set (total := ((Z.of_nat n + batch_size - 1) `div` batch_size)%Z).
    pose proof (Z.mod_neg_bound (Z.of_nat n + batch_size - 1) batch_size) as Hmod.
    pose proof (Z.div_mod (Z.of_nat n + batch_size - 1) batch_size) as Hdiv.
    fold total in Hdiv.
    destruct (Nat.leb_spec 2 n) as [Hmany|Hfew].
    + assert (total ≤ 0)%Z as Htotal by nia.
      replace (Z.to_nat total) with 0 by lia. done.
    + assert (1 ≤ total)%Z as Htotal by nia.
      destruct (Z.to_nat total) as [|t] eqn:Et; [lia|].
      cbn [seq map foldl]. unfold assess_batch at 2. cbv zeta.
      change (Z.of_nat 0) with 0%Z. rewrite Z.mul_0_l, Z.add_0_l. fold n.
      assert (list_slice 0 (Z.min batch_size (Z.of_nat n)) match_pairs = []) as ->.
      { unfold list_slice, slice_index. fold n.
        assert ((Z.min batch_size (Z.of_nat n) <? 0)%Z = true)
          as -> by (apply Z.ltb_lt; lia).
        change (0 <? 0)%Z with false. cbv iota.
        replace (Z.to_nat _) with 0 by lia. done. }
      assert ((Z.min batch_size (Z.of_nat (length (@nil Pair))) <=? 0)%Z = true)
        as -> by (apply Z.leb_le; simpl; lia).
      apply assess_batch_raised.
Qed.

End Assessments_batch_results.
